(** * Catalog assembly engine of [scripts/11-build_stac_catalog.py]

    A shallow embedding of the catalog builder and the proofs of its
    specification.  Python values are embedded as follows.

    - [float] is an IEEE 754 binary64 value ([spec_float]); comparison is
      [SFltb]/[SFeqb], so every comparison with NaN is false and
      [x != x] holds exactly for NaN.
    - [str] is the [string] of its UTF-8 bytes; [str.lower] is the field
      [lower] of the class [PyStr.Unicode], known on ASCII text.
    - [dict] is an association list in insertion order; [set] is [gset].
    - [datetime] is a wall-clock reading with an optional UTC offset;
      aware values are ordered by the instant they denote.
    - JSON documents, and the dictionaries of pystac items, are the tagged
      tree [json].
    - [sys.exit] and an uncaught exception end a computation of type
      [outcome].
    - What belongs to pystac, pyarrow or the Python library and is not in
      the script is a field of the classes [Library] and [PyDatetime] or of
      the record [World]; what a run finds under its output directory is
      the record [Store]. *)

From Stdlib Require Import ZArith String Ascii List Bool Lia.
From Stdlib Require Import Floats.SpecFloat.
From stdpp Require Import base gmap strings list.

Open Scope Z_scope.

#[global] Arguments String.append !s1 s2 : simpl nomatch.

(** ** Floats *)

Module PyFloat.

Definition float := spec_float.

Definition nan : float := S754_nan.
Definition inf : float := S754_infinity false.
Definition neg_inf : float := S754_infinity true.

Definition is_nan (x : float) : bool :=
  match x with S754_nan => true | _ => false end.

(** [a < b], [a == b], [a != b] and [a <= b] on floats. *)
Definition lt (a b : float) : bool := SFltb a b.
Definition eq (a b : float) : bool := SFeqb a b.
Definition ne (a b : float) : bool := negb (SFeqb a b).
Definition le (a b : float) : bool := SFleb a b.

(** The builtins [min(a, b)] and [max(a, b)]: the first argument is kept
    unless the second is strictly smaller (resp. greater). *)
Definition min (a b : float) : float := if lt b a then b else a.
Definition max (a b : float) : float := if lt a b then b else a.

(** [numpy.ndarray.min()] / [.max()] of a non-empty array: NaN
    propagates. *)
Definition np_min2 (a b : float) : float :=
  if is_nan a then a else if is_nan b then b else if lt b a then b else a.
Definition np_max2 (a b : float) : float :=
  if is_nan a then a else if is_nan b then b else if lt a b then b else a.
Definition np_min (x : float) (xs : list float) : float := fold_left np_min2 xs x.
Definition np_max (x : float) (xs : list float) : float := fold_left np_max2 xs x.

(** Small integers as floats, for examples: [z] is held as [z * 2^0], and
    the order of these floats is the order of the integers. *)
Definition of_Z (z : Z) : float :=
  match z with
  | Z0 => S754_zero false
  | Zpos p => S754_finite false p 0
  | Zneg p => S754_finite true p 0
  end.

(** A non-NaN float is ranked by a triple compared lexicographically; the
    comparison of two non-NaN floats is the comparison of their ranks. *)
Definition key (x : float) : Z * Z * Z :=
  match x with
  | S754_nan => (0, 0, 0)
  | S754_zero _ => (0, 0, 0)
  | S754_infinity true => (-2, 0, 0)
  | S754_infinity false => (2, 0, 0)
  | S754_finite true m e => (-1, - e, Zneg m)
  | S754_finite false m e => (1, e, Zpos m)
  end.

Definition lex_lt (a b : Z * Z * Z) : Prop :=
  a.1.1 < b.1.1 \/ (a.1.1 = b.1.1 /\ (a.1.2 < b.1.2 \/ (a.1.2 = b.1.2 /\ a.2 < b.2))).

Definition lex_le (a b : Z * Z * Z) : Prop :=
  a.1.1 < b.1.1 \/ (a.1.1 = b.1.1 /\ (a.1.2 < b.1.2 \/ (a.1.2 = b.1.2 /\ a.2 <= b.2))).

End PyFloat.

Abbreviation float := PyFloat.float.

(** ** Datetimes *)

(** A [datetime]: the wall-clock reading in microseconds since the epoch and,
    for an aware value, the offset of its [tzinfo] from UTC. *)
Record datetime := mkDatetime {
  dt_wall : Z;
  dt_tz : option Z
}.

Definition utc : option Z := Some 0.

(** The instant an aware datetime denotes (a naive one read as UTC). *)
Definition dt_instant (d : datetime) : Z :=
  dt_wall d - default 0 (dt_tz d).

(** [dt.replace(tzinfo=timezone.utc)] and [dt.astimezone(timezone.utc)],
    away from the ends of the calendar: the [OverflowError] of
    [astimezone] for an instant outside the years 1 to 9999 is in
    [Bounded.astimezone_utc]. *)
Definition replace_tzinfo_utc (d : datetime) : datetime :=
  mkDatetime (dt_wall d) utc.
Definition astimezone_utc (d : datetime) : datetime :=
  mkDatetime (dt_instant d) utc.

Definition normalise_utc (d : datetime) : datetime :=
  match dt_tz d with
  | None => replace_tzinfo_utc d
  | Some _ => astimezone_utc d
  end.

Definition ensure_utc (dt : option datetime) : option datetime :=
  match dt with
  | None => None
  | Some d => Some (normalise_utc d)
  end.

(** Order of aware datetimes: the order of their instants. *)
Definition dt_lt (a b : datetime) : bool := dt_instant a <? dt_instant b.

(** [min(values)] and [max(values)] of a non-empty list of datetimes. *)
Definition dt_min2 (a b : datetime) : datetime := if dt_lt b a then b else a.
Definition dt_max2 (a b : datetime) : datetime := if dt_lt a b then b else a.
Definition dt_min (d : datetime) (ds : list datetime) : datetime := fold_left dt_min2 ds d.
Definition dt_max (d : datetime) (ds : list datetime) : datetime := fold_left dt_max2 ds d.

(** ** Bounding boxes and the collection extent *)

Record bbox := mkBbox {
  minx : float;
  miny : float;
  maxx : float;
  maxy : float
}.

Definition merge_bbox (a b : option bbox) : option bbox :=
  match a, b with
  | None, _ => b
  | _, None => a
  | Some a, Some b =>
      Some (mkBbox (PyFloat.min (minx a) (minx b)) (PyFloat.min (miny a) (miny b))
                   (PyFloat.max (maxx a) (maxx b)) (PyFloat.max (maxy a) (maxy b)))
  end.

(** [collection.extent]: [spatial.bboxes[0]] and [temporal.intervals[0]]. *)
Record Extent := mkExtent {
  spatial : bbox;
  temporal : option datetime * option datetime
}.

(** The placeholder of [create_collection]: [[float("nan")] * 4]. *)
Definition placeholder_bbox : bbox :=
  mkBbox PyFloat.nan PyFloat.nan PyFloat.nan PyFloat.nan.

Definition fresh_extent (start_override end_override : option datetime) : Extent :=
  mkExtent placeholder_bbox (start_override, end_override).

Definition update_collection_extent (extent : Extent) (box : option bbox)
    (start end_ : option datetime) : Extent :=
  let bboxes0 :=
    match box with
    | Some b =>
        let existing := spatial extent in
        if PyFloat.ne (minx existing) (minx existing) then b
        else default existing (merge_bbox (Some existing) (Some b))
    | None => spatial extent
    end in
  let start := ensure_utc start in
  let end_ := ensure_utc end_ in
  let temporal0 :=
    match start with
    | Some s =>
        match fst (temporal extent) with
        | None => Some s
        | Some t => if dt_lt s t then Some s else Some t
        end
    | None => fst (temporal extent)
    end in
  let temporal1 :=
    match end_ with
    | Some e =>
        match snd (temporal extent) with
        | None => Some e
        | Some t => if dt_lt t e then Some e else Some t
        end
    | None => snd (temporal extent)
    end in
  mkExtent bboxes0 (temporal0, temporal1).

(** What one item contributes to the extent. *)
Definition contribution : Type := option bbox * option datetime * option datetime.

Definition fold_extent (extent : Extent) (items : list contribution) : Extent :=
  fold_left (fun ext c => update_collection_extent ext c.1.1 c.1.2 c.2) items extent.

(** *** What the specification says of the accumulator *)

Definition boxes_of (items : list contribution) : list bbox :=
  omap (fun c : contribution => c.1.1) items.

Definition proper_bbox (b : bbox) : Prop :=
  PyFloat.is_nan (minx b) = false /\ PyFloat.is_nan (miny b) = false /\
  PyFloat.is_nan (maxx b) = false /\ PyFloat.is_nan (maxy b) = false.

Definition is_least (x : float) (l : list float) : Prop :=
  x ∈ l /\ forall y, y ∈ l -> PyFloat.le x y = true.

Definition is_greatest (x : float) (l : list float) : Prop :=
  x ∈ l /\ forall y, y ∈ l -> PyFloat.le y x = true.

(** [r] is the coordinate-wise (min, min, max, max) over [bs]. *)
Definition is_union_of (r : bbox) (bs : list bbox) : Prop :=
  is_least (minx r) (minx <$> bs) /\ is_least (miny r) (miny <$> bs) /\
  is_greatest (maxx r) (maxx <$> bs) /\ is_greatest (maxy r) (maxy <$> bs).

Definition bbox_contains (outer inner : bbox) : Prop :=
  PyFloat.le (minx outer) (minx inner) = true /\
  PyFloat.le (miny outer) (miny inner) = true /\
  PyFloat.le (maxx inner) (maxx outer) = true /\
  PyFloat.le (maxy inner) (maxy outer) = true.

Definition interval_widens (old new : option datetime * option datetime) : Prop :=
  (forall t, old.1 = Some t ->
     exists t', new.1 = Some t' /\ dt_instant t' <= dt_instant t) /\
  (forall t, old.2 = Some t ->
     exists t', new.2 = Some t' /\ dt_instant t <= dt_instant t').

(** The state of the accumulator after the boxes [bs] were folded in. *)
Definition acc_inv (e : Extent) (bs : list bbox) : Prop :=
  match bs with
  | [] => spatial e = placeholder_bbox
  | _ => proper_bbox (spatial e) /\ is_union_of (spatial e) bs
  end.

(** ** Strings *)

Module PyStr.

(** [c.lower()] on one ASCII character: the letters A-Z. *)
Definition lower_ascii (c : ascii) : ascii :=
  let n := nat_of_ascii c in
  if ((65 <=? n) && (n <=? 90))%nat then ascii_of_nat (n + 32) else c.

(** [lower_ascii] on every character. *)
Fixpoint ascii_lower (s : string) : string :=
  match s with
  | EmptyString => EmptyString
  | String c r => String (lower_ascii c) (ascii_lower r)
  end.

(** [s.isascii()]. *)
Fixpoint isascii (s : string) : bool :=
  match s with
  | EmptyString => true
  | String c r => (nat_of_ascii c <? 128)%nat && isascii r
  end.

(** [s.lower()], of the Python library: the case mapping of Unicode.
    It goes through the string character by character and puts the
    results one after the other; an ASCII character gives its
    [lower_ascii], whatever stands around it.  So the ASCII text a string
    starts with is lower-cased in place, and an ASCII string as a whole.
    What the mapping makes of the other characters is left open. *)
Class Unicode := {
  lower : string -> string;
  lower_ascii_prefix : forall p s : string,
    isascii p = true ->
    exists t, lower (p +:+ s) = ascii_lower p +:+ t /\ (s = EmptyString -> t = EmptyString)
}.

(** [s.replace(a, b)] for one-character [a] and [b]. *)
Fixpoint replace_char (a b : ascii) (s : string) : string :=
  match s with
  | EmptyString => EmptyString
  | String c r => String (if Ascii.eqb c a then b else c) (replace_char a b r)
  end.

(** [c in s] for a one-character [c]. *)
Fixpoint contains_char (c : ascii) (s : string) : bool :=
  match s with
  | EmptyString => false
  | String a r => Ascii.eqb a c || contains_char c r
  end.

(** The number of occurrences of [c] in [s]. *)
Fixpoint count_char (c : ascii) (s : string) : nat :=
  match s with
  | EmptyString => O
  | String a r => ((if Ascii.eqb a c then 1 else 0) + count_char c r)%nat
  end.

(** The text before and after the first [c] in [s], when there is one. *)
Fixpoint partition_char (c : ascii) (s : string) : option (string * string) :=
  match s with
  | EmptyString => None
  | String a r =>
      if Ascii.eqb a c then Some (EmptyString, r)
      else match partition_char c r with
           | Some (x, y) => Some (String a x, y)
           | None => None
           end
  end.

(** [s.split(c, 1)]. *)
Definition split1 (c : ascii) (s : string) : list string :=
  match partition_char c s with
  | Some (x, y) => [x; y]
  | None => [s]
  end.

(** [s.split(c)]: the pieces between the occurrences of [c]. *)
Fixpoint split (c : ascii) (s : string) : list string :=
  match s with
  | EmptyString => [EmptyString]
  | String a r =>
      if Ascii.eqb a c then EmptyString :: split c r
      else match split c r with
           | x :: xs => String a x :: xs
           | [] => [String a EmptyString]
           end
  end.

(** The rest of [s] after the prefix [p], and [s.startswith(p)]. *)
Fixpoint strip_prefix (p s : string) : option string :=
  match p with
  | EmptyString => Some s
  | String a p' =>
      match s with
      | EmptyString => None
      | String b s' => if Ascii.eqb a b then strip_prefix p' s' else None
      end
  end.

Definition startswith (s p : string) : bool :=
  match strip_prefix p s with Some _ => true | None => false end.

(** [s.endswith(p)]. *)
Definition endswith (s p : string) : bool :=
  (String.length p <=? String.length s)%nat &&
  String.eqb (substring (String.length s - String.length p) (String.length p) s) p.

(** [s.rfind(c)]: the index of the last [c] in [s]. *)
Fixpoint rfind (c : ascii) (s : string) : option nat :=
  match s with
  | EmptyString => None
  | String a r =>
      match rfind c r with
      | Some i => Some (S i)
      | None => if Ascii.eqb a c then Some O else None
      end
  end.

(** [sub in s]. *)
Definition contains (sub s : string) : bool :=
  match String.index 0 sub s with Some _ => true | None => false end.

(** ["/".join(parts)]. *)
Fixpoint join (sep : string) (parts : list string) : string :=
  match parts with
  | [] => EmptyString
  | [x] => x
  | x :: rest => x +:+ sep +:+ join sep rest
  end.

Fixpoint ascii_lower_app (p s : string)
    : ascii_lower (p +:+ s) = ascii_lower p +:+ ascii_lower s :=
  match p with
  | EmptyString => eq_refl
  | String c r => f_equal (String (lower_ascii c)) (ascii_lower_app r s)
  end.

(** The mapping that leaves every other character as it is, for examples
    with ASCII names. *)
Definition ascii_only : Unicode := {|
  lower := ascii_lower;
  lower_ascii_prefix := fun p s _ =>
    ex_intro _ (ascii_lower s)
      (conj (ascii_lower_app p s) (fun E : s = EmptyString => f_equal ascii_lower E))
|}.

End PyStr.

(** ** Dictionaries *)

(** A [dict] with string keys, in insertion order. *)
Definition dict (V : Type) : Type := list (string * V).

Fixpoint dict_get {V : Type} (k : string) (d : dict V) : option V :=
  match d with
  | [] => None
  | (k', v) :: rest => if String.eqb k' k then Some v else dict_get k rest
  end.

(** [k in d]. *)
Definition dict_mem {V : Type} (k : string) (d : dict V) : bool :=
  match dict_get k d with Some _ => true | None => false end.

(** [d[k] = v]: an existing key keeps its position, a new key goes last. *)
Fixpoint dict_set {V : Type} (k : string) (v : V) (d : dict V) : dict V :=
  match d with
  | [] => [(k, v)]
  | (k', v') :: rest =>
      if String.eqb k' k then (k', v) :: rest else (k', v') :: dict_set k v rest
  end.

Definition dict_keys {V : Type} (d : dict V) : list string := fst <$> d.

(** ** Paths *)

(** A relative [PurePosixPath], as its [parts]. *)
Definition path : Type := list string.

(** [PurePosixPath(s)] for a relative [s]: empty segments and ["."] are
    dropped. *)
Definition PurePosixPath (s : string) : path :=
  List.filter (fun seg => negb (String.eqb seg "" || String.eqb seg "."))
              (PyStr.split "/" s).

(** [str(path)], [path.name], [path.parent] and [path.stem]. *)
Definition path_str (p : path) : string := PyStr.join "/" p.
Definition path_name (p : path) : string := List.last p EmptyString.
Definition path_parent (p : path) : path := List.removelast p.

Definition name_stem (name : string) : string :=
  match PyStr.rfind "." name with
  | Some i =>
      if ((0 <? i) && (i <? String.length name - 1))%nat then substring 0 i name
      else name
  | None => name
  end.

Definition path_stem (p : path) : string := name_stem (path_name p).

(** ** Partition coordinates *)

Definition is_partition_segment (segment : string) : bool :=
  PyStr.contains_char "=" segment &&
  (0 <? String.length (List.nth 0 (PyStr.split1 "=" segment) EmptyString))%nat.

Definition parse_partitions (p : path) : dict string :=
  fold_left
    (fun parts segment =>
       if is_partition_segment segment then
         match PyStr.split1 "=" segment with
         | [key; value] => dict_set key value parts
         | _ => parts
         end
       else parts)
    p [].

(** ** Asset records and item identifiers *)

Record AssetRecord := mkAssetRecord {
  relative_path : path;
  partitions : dict string;
  record_bbox : option bbox;
  record_start : option datetime;
  record_end : option datetime;
  row_count : Z;
  primary_geom : option string
}.

Definition make_item_id `{PyStr.Unicode} (record : AssetRecord) : string :=
  let keys := ["year"; "month"; "day"; "hour"]%string in
  if forallb (fun k => dict_mem k (partitions record)) keys then
    default EmptyString (dict_get "year" (partitions record)) +:+
    default EmptyString (dict_get "month" (partitions record)) +:+
    default EmptyString (dict_get "day" (partitions record)) +:+
    "T" +:+
    default EmptyString (dict_get "hour" (partitions record))
  else
    let stem := PyStr.replace_char "." "-" (path_stem (relative_path record)) in
    PyStr.lower stem.

(** ** Plot classification *)

(** The search of [PLOT_VARIOGRAM_RE] at the start of [name]: the component
    letter and whether the [_rkt] group took part in the match. *)
Definition match_variogram (name : string) : option (string * bool) :=
  match PyStr.strip_prefix "variogram_" name with
  | Some (String c rest) =>
      if Ascii.eqb c "u" || Ascii.eqb c "v" then
        let component := String c EmptyString in
        match PyStr.strip_prefix "_rkt" rest with
        | Some rest' =>
            if PyStr.startswith rest' "_empirical_" then Some (component, true)
            else if PyStr.startswith rest "_empirical_" then Some (component, false)
            else None
        | None =>
            if PyStr.startswith rest "_empirical_" then Some (component, false)
            else None
        end
      else None
  | _ => None
  end.

Definition grid_mesh_description : string :=
  "Scatter map generated by wind_interpolation.R that shows the interpolation mesh in " +:+
  "WGS 84: interpolated nodes, original MeteoGalicia observations (drawn on top), and " +:+
  "optional test points created in grid_module.R.".

Definition component_label (component : string) : string :=
  default component
    (dict_get component [("u", "zonal (u) wind component");
                         ("v", "meridional (v) wind component")]%string).

Definition regression_kriging_description (component : string) : string :=
  "Empirical semivariogram of the regression-kriging residuals for the " +:+
  component_label component +:+ ", " +:+
  "generated in regression_kriging() and saved by save_variogram_plot() " +:+
  "inside scripts/modules/interpolation_module.R using terrain (topo) as external drift.".

Definition ordinary_kriging_description (component : string) : string :=
  "Empirical semivariogram for the " +:+ component_label component +:+
  " produced during ordinary kriging calibration; " +:+
  "save_variogram_plot() (scripts/modules/interpolation_module.R) overlays the model selected by cross-validation.".

Definition describe_plot_asset `{PyStr.Unicode} (filename : string)
    : option string * dict string :=
  let name := PyStr.lower filename in
  if PyStr.startswith name "grid_points" then
    (Some grid_mesh_description, [("plot_type", "grid-mesh")]%string)
  else
    match match_variogram name with
    | Some (component, variant) =>
        let properties := [("plot_type", "variogram"); ("plot_component", component)]%string in
        if variant then
          (Some (regression_kriging_description component),
           dict_set "plot_variant" "regression-kriging"%string properties)
        else
          (Some (ordinary_kriging_description component),
           dict_set "plot_variant" "ordinary-kriging"%string properties)
    | None => (None, [])
    end.


(** A segment [key=value] split at its first [=], with a non-empty key. *)
Definition partition_entry (segment key value : string) : Prop :=
  segment = key +:+ "=" +:+ value /\ key <> EmptyString /\
  PyStr.contains_char "=" key = false.

(** ** JSON documents *)

#[warnings="-register-all"]
Inductive json : Type :=
| JNull
| JBool (b : bool)
| JInt (z : Z)
| JFloat (f : float)
| JStr (s : string)
| JArr (items : list json)
| JObj (members : list (string * json)).

(** Python truthiness of a JSON value. *)
Definition truthy (v : json) : bool :=
  match v with
  | JNull => false
  | JBool b => b
  | JInt z => negb (z =? 0)
  | JFloat f => negb (PyFloat.eq f (S754_zero false))
  | JStr s => negb (String.eqb s EmptyString)
  | JArr l => match l with [] => false | _ => true end
  | JObj m => match m with [] => false | _ => true end
  end.

(** No key occurs twice, as in every [dict]. *)
Fixpoint distinct_keys (keys : list string) : bool :=
  match keys with
  | [] => true
  | k :: rest => negb (existsb (String.eqb k) rest) && distinct_keys rest
  end.

(** A JSON document all of whose objects have distinct keys. *)
Fixpoint json_wf (v : json) : bool :=
  match v with
  | JArr l => forallb json_wf l
  | JObj m =>
      distinct_keys (fst <$> m) &&
      (fix members_wf (m : list (string * json)) : bool :=
         match m with
         | [] => true
         | (_, x) :: rest => json_wf x && members_wf rest
         end) m
  | _ => true
  end.

Definition dict_wf (d : dict json) : bool := json_wf (JObj d).

(** ** The override merger *)

(** The value stored under a key by one round of the loop of
    [deep_merge_dict]: the merge of the two dictionaries when the key is in
    [result] and both values are dictionaries, the override value
    otherwise. *)
Fixpoint merged_value (current : option json) (value : json) {struct value} : json :=
  match value with
  | JObj extra =>
      match current with
      | Some (JObj base) =>
          JObj ((fix merge_items (extra : list (string * json)) (result : dict json)
                   {struct extra} : dict json :=
                   match extra with
                   | [] => result
                   | (key, value) :: rest =>
                       merge_items rest
                         (dict_set key (merged_value (dict_get key result) value) result)
                   end) extra base)
      | _ => value
      end
  | _ => value
  end.

Definition deep_merge_dict (base extra : dict json) : dict json :=
  fold_left
    (fun result kv => dict_set kv.1 (merged_value (dict_get kv.1 result) kv.2) result)
    extra base.

(** *** Asset hrefs across an override *)

(** Python exceptions and [sys.exit]. *)
Inductive outcome (A : Type) : Type :=
| Ok (a : A)
| Exit (message : string)
| Raise (exception : string).
Arguments Ok {A} a.
Arguments Exit {A} message.
Arguments Raise {A} exception.

#[global] Instance outcome_ret : MRet outcome := fun A a => Ok a.
#[global] Instance outcome_bind : MBind outcome := fun A B f m =>
  match m with
  | Ok a => f a
  | Exit msg => Exit msg
  | Raise e => Raise e
  end.

(** A [for] loop whose body may raise or exit. *)
Fixpoint for_each {A S : Type} (body : S -> A -> outcome S) (l : list A) (s : S) : outcome S :=
  match l with
  | [] => Ok s
  | x :: rest => s' ← body s x; for_each body rest s'
  end.

(** [key in container]. *)
Definition py_in (key : string) (container : json) : outcome bool :=
  match container with
  | JObj m => Ok (dict_mem key m)
  | JArr l => Ok (existsb (fun x => match x with JStr s => String.eqb s key | _ => false end) l)
  | JStr s => Ok (PyStr.contains key s)
  | _ => Raise "TypeError"
  end.

(** [{key: asset.get("href") for key, asset in base_dict.get("assets", {}).items()}]. *)
Definition original_asset_hrefs (base_dict : dict json) : outcome (dict json) :=
  match default (JObj []) (dict_get "assets" base_dict) with
  | JObj assets =>
      for_each
        (fun (hrefs : dict json) (entry : string * json) =>
           match entry.2 with
           | JObj a => Ok (dict_set entry.1 (default JNull (dict_get "href" a)) hrefs)
           | _ => Raise "AttributeError"
           end)
        assets []
  | _ => Raise "AttributeError"
  end.

(** One round of the loop that puts a lost [href] back. *)
Definition restore_href (merged_dict : dict json) (entry : string * json) : outcome (dict json) :=
  let '(key, href) := entry in
  let assets := default (JObj []) (dict_get "assets" merged_dict) in
  present ← py_in key assets;
  if negb present then Ok merged_dict
  else
    match assets with
    | JObj m =>
        match dict_get key m with
        | Some asset =>
            has_href ← py_in "href" asset;
            if (has_href : bool) then Ok merged_dict
            else
              match href with
              | JNull => Ok merged_dict
              | _ =>
                  match asset with
                  | JObj a =>
                      Ok (dict_set "assets"
                            (JObj (dict_set key (JObj (dict_set "href" href a)) m))
                            merged_dict)
                  | _ => Raise "TypeError"
                  end
              end
        | None => Raise "KeyError"
        end
    | _ => Raise "TypeError"
    end.

(** The block applied to every generated item when overrides are given:
    merge, then restore the asset hrefs. *)
Definition apply_item_overrides (base_dict item_overrides : dict json) : outcome (dict json) :=
  original_asset_hrefs ← original_asset_hrefs base_dict;
  let merged_dict := deep_merge_dict base_dict item_overrides in
  for_each restore_href original_asset_hrefs merged_dict.

(** The [href] of the asset [key] of an item dictionary. *)
Definition asset_href (item : dict json) (key : string) : option json :=
  match dict_get "assets" item with
  | Some (JObj assets) =>
      match dict_get key assets with
      | Some (JObj asset) => dict_get "href" asset
      | _ => None
      end
  | _ => None
  end.

Definition is_dict (v : json) : bool :=
  match v with JObj _ => true | _ => false end.

(** Every value of the dictionary is itself a dictionary, as the asset
    table of [Item.to_dict()] is. *)
Definition values_are_dicts (d : dict json) : bool :=
  forallb (fun kv : string * json => is_dict kv.2) d.

(** The override describes each asset it shares with the item by a
    dictionary. *)
Definition overridden_assets_are_dicts (assets overrides : dict json) : bool :=
  forallb (fun kv : string * json => negb (dict_mem kv.1 assets) || is_dict kv.2) overrides.

(** ** Parquet files *)

(** A value of a table column as [to_pylist] returns it. *)
Inductive cell : Type :=
| CNull
| CDatetime (d : datetime)
| CStr (s : string)
| CFloat (f : float)
| COther.

(** A row group is its list of rows; a row maps column names to cells. *)
Definition row_group : Type := list (dict cell).

Record ParquetFile := mkParquetFile {
  schema_names : list string;
  row_groups : list row_group
}.

Definition num_rows (pf : ParquetFile) : nat :=
  fold_right Nat.add O (length <$> row_groups pf).

(** [batch.column(col)] of one row group. *)
Definition rg_column (col : string) (rg : row_group) : list cell :=
  (fun row => default CNull (dict_get col row)) <$> rg.

(** [read_row_groups(all, columns=...).column(col).to_pylist()]. *)
Definition column_pylist (pf : ParquetFile) (col : string) : list cell :=
  concat (rg_column col <$> row_groups pf).

Definition in_schema (pf : ParquetFile) (name : string) : bool :=
  existsb (String.eqb name) (schema_names pf).

(** [column.to_numpy()] of a numeric column: a null is NaN. *)
Definition to_numpy (cells : list cell) : list float :=
  (fun c => match c with CFloat f => f | _ => PyFloat.nan end) <$> cells.

(** *** The fallback bounding-box scan *)

Definition candidate_lon_cols : list string := ["lon"; "longitude"; "x"].
Definition candidate_lat_cols : list string := ["lat"; "latitude"; "y"].

(** The running (min_lon, min_lat, max_lon, max_lat) of the scan. *)
Definition scan_step (lon_col lat_col : string)
    (acc : float * float * float * float) (rg : row_group) : float * float * float * float :=
  let '(min_lon, min_lat, max_lon, max_lat) := acc in
  match to_numpy (rg_column lon_col rg), to_numpy (rg_column lat_col rg) with
  | lon :: lons, lat :: lats =>
      (PyFloat.min min_lon (PyFloat.np_min lon lons),
       PyFloat.min min_lat (PyFloat.np_min lat lats),
       PyFloat.max max_lon (PyFloat.np_max lon lons),
       PyFloat.max max_lat (PyFloat.np_max lat lats))
  | _, _ => acc
  end.

Definition scan_lon_lat_bbox (pf : ParquetFile) : option bbox :=
  let lon_col := List.find (in_schema pf) candidate_lon_cols in
  let lat_col := List.find (in_schema pf) candidate_lat_cols in
  match lon_col, lat_col with
  | Some lon_col, Some lat_col =>
      let '(min_lon, min_lat, max_lon, max_lat) :=
        fold_left (scan_step lon_col lat_col) (row_groups pf)
                  (PyFloat.inf, PyFloat.inf, PyFloat.neg_inf, PyFloat.neg_inf) in
      if PyFloat.eq min_lon PyFloat.inf || PyFloat.eq min_lat PyFloat.inf then None
      else Some (mkBbox min_lon min_lat max_lon max_lat)
  | _, _ => None
  end.

(** The bbox [discover_assets] records: the embedded one, else the scan. *)
Definition resolve_bbox (geo_bbox : option bbox) (pf : ParquetFile) : option bbox :=
  match geo_bbox with
  | Some b => Some b
  | None => scan_lon_lat_bbox pf
  end.

(** *** Temporal extent *)

(** [datetime.fromisoformat], of the Python library; [None] is [ValueError]. *)
Class PyDatetime := {
  fromisoformat : string -> option datetime
}.

Definition parse_datetime `{PyDatetime} (value : string) : option datetime :=
  let value :=
    if PyStr.endswith value "Z"
    then substring 0 (String.length value - 1) value +:+ "+00:00"
    else value in
  match fromisoformat value with
  | Some dt => Some (normalise_utc dt)
  | None => None
  end.

(** The inner [parse_array] of [read_timestamp_bounds]. *)
Definition parse_array `{PyDatetime} (arr : list cell) : list datetime :=
  omap (fun value =>
          match value with
          | CNull => None
          | CDatetime d => ensure_utc (Some d)
          | CStr s => parse_datetime s
          | _ => None
          end) arr.

Definition col_candidates : list (list string) :=
  [["timestamp"]; ["datetime"]; ["time"]; ["date"]; ["start_datetime"; "end_datetime"]].

Definition min_of (values : list datetime) : option datetime :=
  match values with [] => None | d :: ds => Some (dt_min d ds) end.
Definition max_of (values : list datetime) : option datetime :=
  match values with [] => None | d :: ds => Some (dt_max d ds) end.

(** One round of the loop over [present]: the pair returned, if any. *)
Definition candidate_bounds `{PyDatetime} (pf : ParquetFile) (names : list string)
    : option (datetime * datetime) :=
  match names with
  | [first_col; last_col] =>
      let first_values := parse_array (column_pylist pf first_col) in
      let last_values := parse_array (column_pylist pf last_col) in
      match min_of first_values, max_of last_values with
      | Some lo, Some hi => Some (lo, hi)
      | _, _ => None
      end
  | col :: _ =>
      let values := parse_array (column_pylist pf col) in
      match min_of values, max_of values with
      | Some lo, Some hi => Some (lo, hi)
      | _, _ => None
      end
  | [] => None
  end.

Fixpoint first_bounds `{PyDatetime} (pf : ParquetFile) (present : list (list string))
    : option datetime * option datetime :=
  match present with
  | [] => (None, None)
  | names :: rest =>
      match candidate_bounds pf names with
      | Some (lo, hi) => (Some lo, Some hi)
      | None => first_bounds pf rest
      end
  end.

Definition read_timestamp_bounds `{PyDatetime} (pf : ParquetFile)
    : option datetime * option datetime :=
  let present := List.filter (fun candidate => forallb (in_schema pf) candidate) col_candidates in
  match present with
  | [] => (None, None)
  | _ => first_bounds pf present
  end.


(** A parser that rejects every string, for files without string columns. *)
Definition no_iso_strings : PyDatetime := {| fromisoformat := fun _ => None |}.




(** ** Items *)

(** A pystac [Item] is held as the dictionary that [Item.to_dict] writes and
    [Item.from_dict] reads; links point at the id of their target. *)
Definition Item : Type := dict json.

(** What the builder takes from pystac and the Python library. *)
Class Library := {
  (** [str.lower] *)
  lib_unicode :: PyStr.Unicode;
  stac_version : string;
  table_extension : string;
  datetime_to_str : datetime -> string;
  (** [tuple(item.bbox)] when [item.bbox] is truthy *)
  item_bbox : Item -> option bbox;
  (** [item.common_metadata.start_datetime] and [.end_datetime] *)
  item_start_datetime : Item -> option datetime;
  item_end_datetime : Item -> option datetime;
  (** [str(value)] *)
  py_str : json -> string
}.

Definition item_id (item : Item) : json := default JNull (dict_get "id" item).

Definition bbox_json (b : bbox) : json :=
  JArr [JFloat (minx b); JFloat (miny b); JFloat (maxx b); JFloat (maxy b)].

Definition bbox_to_polygon (b : bbox) : json :=
  JObj [("type", JStr "Polygon");
        ("coordinates",
         JArr [JArr [JArr [JFloat (minx b); JFloat (miny b)];
                     JArr [JFloat (maxx b); JFloat (miny b)];
                     JArr [JFloat (maxx b); JFloat (maxy b)];
                     JArr [JFloat (minx b); JFloat (maxy b)];
                     JArr [JFloat (minx b); JFloat (miny b)]]])].

(** [Item(id=..., geometry=..., bbox=..., datetime=..., properties=...)]. *)
Definition new_item `{Library} (id : string) (geometry : json) (box : option bbox)
    (dt : option datetime) (properties : dict json) : Item :=
  [("type", JStr "Feature"); ("stac_version", JStr stac_version); ("id", JStr id);
   ("properties",
    JObj (dict_set "datetime"
            (match dt with Some d => JStr (datetime_to_str d) | None => JNull end)
            properties));
   ("geometry", geometry); ("links", JArr []); ("assets", JObj [])] ++
  match box with Some b => [("bbox", bbox_json b)] | None => [] end.

(** [item.properties[key] = value]. *)
Definition set_property (key : string) (value : json) (item : Item) : outcome Item :=
  match dict_get "properties" item with
  | Some (JObj properties) =>
      Ok (dict_set "properties" (JObj (dict_set key value properties)) item)
  | _ => Raise "TypeError"
  end.

(** [item.properties.setdefault(key, value)]. *)
Definition setdefault_property (key : string) (value : json) (item : Item) : outcome Item :=
  match dict_get "properties" item with
  | Some (JObj properties) =>
      if dict_mem key properties then Ok item
      else Ok (dict_set "properties" (JObj (dict_set key value properties)) item)
  | _ => Raise "AttributeError"
  end.

(** [item.common_metadata.start_datetime = dt] when [dt] is given. *)
Definition set_datetime `{Library} (key : string) (dt : option datetime) (item : Item)
    : outcome Item :=
  match dt with
  | Some d => set_property key (JStr (datetime_to_str d)) item
  | None => Ok item
  end.

(** [Asset(href=..., media_type=..., roles=..., title=..., description=...)]. *)
Definition new_asset (href media_type : string) (roles : list string) (title : string)
    (description : option string) : json :=
  JObj ([("href", JStr href); ("type", JStr media_type); ("title", JStr title)] ++
        match description with Some d => [("description", JStr d)] | None => [] end ++
        [("roles", JArr (JStr <$> roles))]).

(** [item.add_asset(key, asset)]. *)
Definition add_asset (key : string) (asset : json) (item : Item) : outcome Item :=
  match dict_get "assets" item with
  | Some (JObj assets) => Ok (dict_set "assets" (JObj (dict_set key asset assets)) item)
  | _ => Raise "AttributeError"
  end.

(** [Link(rel=..., target=..., media_type="application/geo+json", title=target.id)]. *)
Definition new_link (rel : string) (target : Item) : json :=
  JObj [("rel", JStr rel); ("target", item_id target);
        ("type", JStr "application/geo+json"); ("title", item_id target)].

(** [item.add_link(link)]. *)
Definition add_link (link : json) (item : Item) : outcome Item :=
  match dict_get "links" item with
  | Some (JArr links) => Ok (dict_set "links" (JArr (links ++ [link])) item)
  | _ => Raise "AttributeError"
  end.

(** [os.path.relpath(assets_root / rel, items_root / item_id)]: three levels
    up from the directory of the item, then down into the asset area. *)
Definition asset_relpath (kind : string) (rel : path) : string :=
  "../../../assets/" +:+ kind +:+ "/" +:+ path_str rel.

(** ** The builder *)

Inductive fs_name : Type := InputFS | MetadataFS | PlotsFS.

(** The effects of a run outside the catalog: a warning on stderr, a call of
    [copy_from_fs], a parquet file opened to derive an item. *)
Inductive event : Type :=
| Warned (asset : path)
| Copied (fs : fs_name) (source : path)
| OpenedParquet (asset : path).

Record PlotInfo := mkPlotInfo {
  (** [relative_from_base(plot_info.path, plots_base)] *)
  plot_rel : path;
  plot_is_file : bool
}.

(** The file systems as one run finds them. *)
Record World := mkWorld {
  input_is_directory : bool;
  (** [discover_assets(fs, base_path, ...)], sorted *)
  discovered : list AssetRecord;
  (** the result of [copy_from_fs] *)
  copy_succeeds : fs_name -> path -> bool;
  (** [read_constant_column(pf, "source_model")] *)
  source_model_column : path -> json;
  (** the columns [attach_table_metadata] lists *)
  table_columns : path -> json;
  (** the entries of a plot directory, none when listing raises *)
  plot_listing : path -> list PlotInfo
}.

Record Args := mkArgs {
  incremental : bool;
  metadata_prefix : bool;
  plots_prefix : bool;
  temporal_start : option datetime;
  temporal_end : option datetime;
  item_overrides : option (dict json)
}.

(** One sub-catalog with its known identifiers and its [has_...] flag. *)
Record SubCatalog := mkSubCatalog {
  catalog_items : list Item;
  existing_ids : gset string;
  has_items : bool
}.

Record State := mkState {
  extent : Extent;
  parquet : SubCatalog;
  metadata : SubCatalog;
  plots : SubCatalog;
  discovered_models : gset string;
  trace : list event
}.

(** The variables of the source, by their names. *)
Abbreviation parquet_catalog st := (catalog_items (parquet st)).
Abbreviation metadata_catalog st := (catalog_items (metadata st)).
Abbreviation plots_catalog st := (catalog_items (plots st)).
Abbreviation existing_parquet_ids st := (existing_ids (parquet st)).
Abbreviation existing_metadata_ids st := (existing_ids (metadata st)).
Abbreviation existing_plot_ids st := (existing_ids (plots st)).
Abbreviation has_parquet st := (has_items (parquet st)).
Abbreviation has_metadata st := (has_items (metadata st)).
Abbreviation has_plots st := (has_items (plots st)).

(** The output directory as a run finds it: the items [load_existing_items]
    reads from each [items/<kind>/catalog.json] ([None] when there is no
    catalog or it cannot be read), and the [source_models] of
    [collection.json]. *)
Record Store := mkStore {
  stored_parquet : option (list Item);
  stored_metadata : option (list Item);
  stored_plots : option (list Item);
  stored_source_models : gset string
}.

Definition empty_store : Store := mkStore None None None ∅.

Definition empty_sub_catalog : SubCatalog := mkSubCatalog [] ∅ false.

Definition log (e : event) (st : State) : State :=
  mkState (extent st) (parquet st) (metadata st) (plots st) (discovered_models st)
          (trace st ++ [e]).

Definition with_extent (e : Extent) (st : State) : State :=
  mkState e (parquet st) (metadata st) (plots st) (discovered_models st) (trace st).

Definition with_parquet (s : SubCatalog) (st : State) : State :=
  mkState (extent st) s (metadata st) (plots st) (discovered_models st) (trace st).

Definition with_metadata (s : SubCatalog) (st : State) : State :=
  mkState (extent st) (parquet st) s (plots st) (discovered_models st) (trace st).

Definition with_plots (s : SubCatalog) (st : State) : State :=
  mkState (extent st) (parquet st) (metadata st) s (discovered_models st) (trace st).

Definition add_model (model : string) (st : State) : State :=
  mkState (extent st) (parquet st) (metadata st) (plots st)
          ({[model]} ∪ discovered_models st) (trace st).

(** [catalog.add_item(item); has_... = True; existing_..._ids.add(id)]. *)
Definition add_item (item : Item) (id : string) (s : SubCatalog) : SubCatalog :=
  mkSubCatalog (catalog_items s ++ [item]) ({[id]} ∪ existing_ids s) true.

Definition known (id : string) (s : SubCatalog) : bool := bool_decide (id ∈ existing_ids s).

(** An id put into a set of known identifiers.  The sets hold strings, as
    the ids of STAC items are; an id of another type, which only an override
    can bring in, ends the computation. *)
Definition id_string (id : json) : outcome string :=
  match id with
  | JStr s => Ok s
  | _ => Raise "identifier is not a string"
  end.

(** [parquet_item.add_link(link)]: the item of the current record is the one
    added last to the parquet catalog, and it is that object the link goes
    to. *)
Definition link_current (link : json) (s : SubCatalog) : outcome SubCatalog :=
  match reverse (catalog_items s) with
  | current :: earlier =>
      current' ← add_link link current;
      Ok (mkSubCatalog (reverse earlier ++ [current']) (existing_ids s) (has_items s))
  | [] => Raise "IndexError"
  end.

(** [load_existing_items(catalog_dir)]: the items of the catalog that is
    found, none without a catalog. *)
Definition load_existing_items (catalog : option (list Item)) : list Item :=
  default [] catalog.

(** The block under [if item_overrides:], up to the merged dictionary.
    [Item.from_dict] is taken to accept it: where pystac refuses the
    dictionary (an asset without [href], for one) the source raises and
    the run does not return. *)
Definition with_overrides (args : Args) (item : Item) : outcome Item :=
  match item_overrides args with
  | Some overrides =>
      if truthy (JObj overrides) then apply_item_overrides item overrides else Ok item
  | None => Ok item
  end.

(** *** Loading the prior state *)

(** The embedding is of the calls
    [build_items_and_collection(args, item_overrides)], the parameter
    [collection_overrides] left at its default [None]: the collection
    starts from [create_collection], and the block under
    [if collection_overrides:] is not entered. *)

Definition register_parquet `{Library} (st : State) (existing_item : Item) : outcome State :=
  id ← id_string (item_id existing_item);
  let st := with_parquet (add_item existing_item id (parquet st)) st in
  let st :=
    with_extent
      (update_collection_extent (extent st) (item_bbox existing_item)
         (item_start_datetime existing_item) (item_end_datetime existing_item)) st in
  match dict_get "properties" existing_item with
  | Some (JObj properties) =>
      let source_model := default JNull (dict_get "source_model" properties) in
      if truthy source_model then Ok (add_model (py_str source_model) st) else Ok st
  | _ => Ok st
  end.

Definition register_metadata (st : State) (existing_item : Item) : outcome State :=
  id ← id_string (item_id existing_item);
  Ok (with_metadata (add_item existing_item id (metadata st)) st).

Definition register_plot (st : State) (existing_item : Item) : outcome State :=
  id ← id_string (item_id existing_item);
  Ok (with_plots (add_item existing_item id (plots st)) st).

Definition initial_state `{Library} (args : Args) (store : Store) : outcome State :=
  let st :=
    mkState (fresh_extent (temporal_start args) (temporal_end args))
            empty_sub_catalog empty_sub_catalog empty_sub_catalog
            (if incremental args then stored_source_models store else ∅) [] in
  if incremental args then
    st ← for_each register_parquet (load_existing_items (stored_parquet store)) st;
    st ← for_each register_metadata (load_existing_items (stored_metadata store)) st;
    for_each register_plot (load_existing_items (stored_plots store)) st
  else Ok st.

(** *** Building the items of one asset *)

(** [attach_table_metadata]: the table extension is declared and the
    columns are listed under [table:columns]. *)
Definition attach_table_metadata `{Library} (world : World) (rel : path) (item : Item)
    : outcome Item :=
  set_property "table:columns" (table_columns world rel)
    (dict_set "stac_extensions" (JArr [JStr table_extension]) item).

Definition record_geometry (record : AssetRecord) : json :=
  match record_bbox record with
  | Some b => bbox_to_polygon b
  | None => JNull
  end.

(** [record.start or record.end]. *)
Definition record_datetime (record : AssetRecord) : option datetime :=
  match record_start record with
  | Some s => Some s
  | None => record_end record
  end.

Definition build_parquet_item `{Library} (args : Args) (world : World)
    (record : AssetRecord) (id : string) : outcome Item :=
  let rel := relative_path record in
  let source_model_value := source_model_column world rel in
  let item := new_item id (record_geometry record) (record_bbox record)
                       (record_datetime record) [] in
  item ← (if truthy source_model_value
          then set_property "source_model" source_model_value item else Ok item);
  item ← set_datetime "start_datetime" (record_start record) item;
  item ← set_datetime "end_datetime" (record_end record) item;
  item ← attach_table_metadata world rel item;
  item ← set_property "row_count" (JInt (row_count record)) item;
  item ← (match primary_geom record with
          | Some g =>
              if truthy (JStr g)
              then set_property "primary_geometry_column" (JStr g) item else Ok item
          | None => Ok item
          end);
  item ← add_asset "data"
           (new_asset (asset_relpath "parquet" rel) "application/vnd.apache.parquet"
                      ["data"] "Interpolated winds GeoParquet" None) item;
  with_overrides args item.

Definition build_metadata_item `{Library} (args : Args) (record : AssetRecord)
    (metadata_item_id : string) (metadata_rel : path) : outcome Item :=
  let item := new_item metadata_item_id (record_geometry record) (record_bbox record)
                       (record_datetime record) [("asset_type", JStr "metadata")] in
  item ← set_datetime "start_datetime" (record_start record) item;
  item ← set_datetime "end_datetime" (record_end record) item;
  item ← add_asset "metadata"
           (new_asset (asset_relpath "metadata" metadata_rel) "application/json"
                      ["metadata"] "Interpolation metadata" None) item;
  with_overrides args item.

(** [if plot_description:] *)
Definition given (description : option string) : option string :=
  match description with
  | Some d => if truthy (JStr d) then Some d else None
  | None => None
  end.

(** [plot_item.assets["plot"].description = plot_description] when the item
    has a plot asset. *)
Definition describe_plot (description : string) (item : Item) : outcome Item :=
  match dict_get "assets" item with
  | Some (JObj assets) =>
      match dict_get "plot" assets with
      | Some (JObj asset) =>
          Ok (dict_set "assets"
                (JObj (dict_set "plot" (JObj (dict_set "description" (JStr description) asset))
                                assets)) item)
      | Some _ => Raise "AttributeError"
      | None => Ok item
      end
  | _ => Raise "AttributeError"
  end.

Definition build_plot_item `{Library} (args : Args) (record : AssetRecord)
    (plot_item_id : string) (rel_plot : path) : outcome Item :=
  let plot_filename := path_name rel_plot in
  let '(plot_description, plot_props) := describe_plot_asset plot_filename in
  let item := new_item plot_item_id (record_geometry record) (record_bbox record)
                       (record_datetime record) [("plot_name", JStr plot_filename)] in
  item ← (match given plot_description with
          | Some d => set_property "plot_description" (JStr d) item
          | None => Ok item
          end);
  item ← for_each (fun item (kv : string * string) => set_property kv.1 (JStr kv.2) item)
                  plot_props item;
  item ← set_datetime "start_datetime" (record_start record) item;
  item ← set_datetime "end_datetime" (record_end record) item;
  item ← add_asset "plot"
           (new_asset (asset_relpath "plots" rel_plot) "image/png" ["overview"]
                      plot_filename plot_description) item;
  item ← with_overrides args item;
  item ← (match given plot_description with
          | Some d => setdefault_property "plot_description" (JStr d) item
          | None => Ok item
          end);
  item ← for_each (fun item (kv : string * string) => setdefault_property kv.1 (JStr kv.2) item)
                  plot_props item;
  match given plot_description with
  | Some d => describe_plot d item
  | None => Ok item
  end.

(** *** The companions of a data item *)

Definition process_metadata `{Library} (args : Args) (world : World) (record : AssetRecord)
    (id : string) (parquet_item : Item) (st : State) : outcome State :=
  if metadata_prefix args then
    let metadata_rel := path_parent (relative_path record) ++ ["metadata.json"] in
    let metadata_item_id := id +:+ "-metadata" in
    if incremental args && known metadata_item_id (metadata st) then Ok st
    else
      let st := log (Copied MetadataFS metadata_rel) st in
      if copy_succeeds world MetadataFS metadata_rel then
        metadata_item ← build_metadata_item args record metadata_item_id metadata_rel;
        metadata_item ← add_link (new_link "describes" parquet_item) metadata_item;
        parquet' ← link_current (new_link "describedby" metadata_item) (parquet st);
        metadata_id ← id_string (item_id metadata_item);
        Ok (with_metadata (add_item metadata_item metadata_id (metadata st))
              (with_parquet parquet' st))
      else Ok st
  else Ok st.

Definition process_plot `{Library} (args : Args) (world : World) (record : AssetRecord)
    (id : string) (parquet_item : Item) (st : State) (plot_info : PlotInfo) : outcome State :=
  if negb (plot_is_file plot_info) then Ok st
  else if negb (PyStr.endswith (PyStr.lower (path_str (plot_rel plot_info))) ".png") then Ok st
  else
    let rel_plot := plot_rel plot_info in
    let st := log (Copied PlotsFS rel_plot) st in
    if negb (copy_succeeds world PlotsFS rel_plot) then Ok st
    else
      let plot_item_id := id +:+ "-plot-" +:+ path_stem rel_plot in
      if incremental args && known plot_item_id (plots st) then Ok st
      else
        plot_item ← build_plot_item args record plot_item_id rel_plot;
        plot_item ← add_link (new_link "related" parquet_item) plot_item;
        parquet' ← link_current (new_link "related" plot_item) (parquet st);
        plot_id ← id_string (item_id plot_item);
        Ok (with_plots (add_item plot_item plot_id (plots st)) (with_parquet parquet' st)).

Definition process_plots `{Library} (args : Args) (world : World) (record : AssetRecord)
    (id : string) (parquet_item : Item) (st : State) : outcome State :=
  if plots_prefix args then
    for_each (process_plot args world record id parquet_item)
             (plot_listing world (path_parent (relative_path record))) st
  else Ok st.

(** *** One round of the loop over the records *)

Definition or_else {A : Type} (x y : option A) : option A :=
  match x with Some _ => x | None => y end.

Definition process_record `{Library} (args : Args) (world : World)
    (st : State) (record : AssetRecord) : outcome State :=
  let id := make_item_id record in
  let rel := relative_path record in
  let st := match record_bbox record with
            | None => log (Warned rel) st
            | Some _ => st
            end in
  if incremental args && known id (parquet st) then Ok st
  else
    let st := log (Copied InputFS rel) st in
    if negb (copy_succeeds world InputFS rel) then
      Exit "Failed to copy the asset into the assets directory."
    else
      let st := log (OpenedParquet rel) st in
      let source_model_value := source_model_column world rel in
      let st := if truthy source_model_value
                then add_model (py_str source_model_value) st else st in
      parquet_item ← build_parquet_item args world record id;
      let st :=
        with_extent
          (update_collection_extent (extent st)
             (or_else (item_bbox parquet_item) (record_bbox record))
             (or_else (item_start_datetime parquet_item) (record_start record))
             (or_else (item_end_datetime parquet_item) (record_end record))) st in
      let st := with_parquet (add_item parquet_item id (parquet st)) st in
      st ← process_metadata args world record id parquet_item st;
      process_plots args world record id parquet_item st.

(** *** The run *)

(** What the run hands to pystac to be saved: the sub-catalogs with items
    are written, each in place of what was there; one without items leaves
    the directory as it was.  The items are those of the run as it holds
    them; what the next run reads back of them is pystac's doing and is the
    [Store] that run is given (see [reads_back]). *)
Definition persist (st : State) (prior : Store) : Store :=
  mkStore
    (if has_items (parquet st) then Some (catalog_items (parquet st)) else stored_parquet prior)
    (if has_items (metadata st) then Some (catalog_items (metadata st)) else stored_metadata prior)
    (if has_items (plots st) then Some (catalog_items (plots st)) else stored_plots prior)
    (discovered_models st).

Definition build_items_and_collection `{Library} (args : Args) (world : World) (prior : Store)
    : outcome (State * Store) :=
  if negb (input_is_directory world) then Exit "Input root is not a directory or prefix."
  else
    match discovered world with
    | [] => Exit "No GeoParquet assets found under the input root."
    | records =>
        st ← initial_state args prior;
        st ← for_each (process_record args world) records st;
        Ok (st, persist st prior)
    end.

(** The identifiers of the items of a sub-catalog. *)
Definition item_ids (items : list Item) : list json := item_id <$> items.

(** *** A small world, for examples *)

Definition example_library : Library := {|
  lib_unicode := PyStr.ascii_only;
  stac_version := "1.0.0";
  table_extension := "https://stac-extensions.github.io/table/v1.2.0/schema.json";
  datetime_to_str := fun _ => "2025-01-02T03:00:00Z";
  item_bbox := fun _ => None;
  item_start_datetime := fun _ => None;
  item_end_datetime := fun _ => None;
  py_str := fun v => match v with JStr s => s | _ => "" end
|}.

Definition example_record : AssetRecord :=
  let p := PurePosixPath "year=2025/month=01/day=02/hour=03/data.parquet" in
  mkAssetRecord p (parse_partitions p)
    (Some (mkBbox (PyFloat.of_Z 0) (PyFloat.of_Z 0) (PyFloat.of_Z 1) (PyFloat.of_Z 1)))
    (Some (mkDatetime 0 utc)) (Some (mkDatetime 3600000000 utc)) 10 None.

(** A root with one partition, a metadata sidecar that cannot be copied and
    one plot that cannot be copied either. *)
Definition example_world : World := {|
  input_is_directory := true;
  discovered := [example_record];
  copy_succeeds := fun fs _ => match fs with InputFS => true | _ => false end;
  source_model_column := fun _ => JStr "wrf";
  table_columns := fun _ => JArr [];
  plot_listing := fun _ =>
    [mkPlotInfo (PurePosixPath "year=2025/month=01/day=02/hour=03/grid_points.png") true]
|}.

Definition example_args : Args := mkArgs true true true None None None.

(** [item.properties.get(key)]. *)
Definition item_property (key : string) (item : Item) : option json :=
  match dict_get "properties" item with
  | Some (JObj properties) => dict_get key properties
  | _ => None
  end.

(** *** What the specification says of a run *)

(** The override document leaves the identifier of an item alone. *)
Definition overrides_keep_id (args : Args) : bool :=
  match item_overrides args with
  | Some overrides => negb (dict_mem "id" overrides)
  | None => true
  end.

(** The identifiers of the items, when all of them are strings. *)
Fixpoint string_ids (items : list Item) : option (list string) :=
  match items with
  | [] => Some []
  | item :: rest =>
      match item_id item, string_ids rest with
      | JStr id, Some ids => Some (id :: ids)
      | _, _ => None
      end
  end.

(** The items have string identifiers, no two the same. *)
Definition distinct_ids (items : list Item) : bool :=
  match string_ids items with
  | Some ids => distinct_keys ids
  | None => false
  end.

Definition store_wf (store : Store) : bool :=
  distinct_ids (load_existing_items (stored_parquet store)) &&
  distinct_ids (load_existing_items (stored_metadata store)) &&
  distinct_ids (load_existing_items (stored_plots store)).

(** A sub-catalog and its set of known identifiers agree. *)
Definition sub_catalog_ok (s : SubCatalog) : Prop :=
  exists ids : list string,
    item_ids (catalog_items s) = JStr <$> ids /\ NoDup ids /\
    existing_ids s = list_to_set ids /\
    (has_items s = false -> catalog_items s = []).

Definition catalogs_ok (st : State) : Prop :=
  sub_catalog_ok (parquet st) /\ sub_catalog_ok (metadata st) /\ sub_catalog_ok (plots st).

(** The state after the warning about a missing bbox, if one is due. *)
Definition warned (record : AssetRecord) (st : State) : State :=
  match record_bbox record with
  | None => log (Warned (relative_path record)) st
  | Some _ => st
  end.

Definition is_warning (e : event) : bool :=
  match e with Warned _ => true | _ => false end.

(** A [has_...] flag that is set stays set. *)
Definition has_grows (a b : State) : Prop :=
  (has_parquet a = true -> has_parquet b = true) /\
  (has_metadata a = true -> has_metadata b = true) /\
  (has_plots a = true -> has_plots b = true).

(** What a step leaves alone besides the sub-catalog it fills. *)
Definition same_but_parquet (a b : State) : Prop :=
  metadata b = metadata a /\ plots b = plots a /\ trace b = trace a.
Definition same_but_metadata (a b : State) : Prop :=
  parquet b = parquet a /\ plots b = plots a /\ trace b = trace a.
Definition same_but_plots (a b : State) : Prop :=
  parquet b = parquet a /\ metadata b = metadata a /\ trace b = trace a.

(** A root whose one data file cannot be copied. *)
Definition unreadable_world : World := {|
  input_is_directory := true;
  discovered := [example_record];
  copy_succeeds := fun _ _ => false;
  source_model_column := fun _ => JNull;
  table_columns := fun _ => JArr [];
  plot_listing := fun _ => []
|}.

(** *** Small inputs, for examples *)

Definition box (x0 y0 x1 y1 : Z) : bbox :=
  mkBbox (PyFloat.of_Z x0) (PyFloat.of_Z y0) (PyFloat.of_Z x1) (PyFloat.of_Z y1).

(** A bbox whose first coordinate is NaN. *)
Definition nan_box : bbox :=
  mkBbox PyFloat.nan (PyFloat.of_Z 0) (PyFloat.of_Z 1) (PyFloat.of_Z 1).

(** The accumulator after [0,0,1,1], and after [1,1,2,2] as well. *)
Definition one_box_folded : Extent :=
  fold_extent (fresh_extent None None) [(Some (box 0 0 1 1), None, None)].
Definition two_boxes_folded : Extent :=
  fold_extent (fresh_extent None None)
    [(Some (box 0 0 1 1), None, None); (Some (box 1 1 2 2), None, None)].

(** The accumulator after [nan_box], and after [5,5,6,6] as well. *)
Definition nan_box_folded : Extent :=
  fold_extent (fresh_extent None None) [(Some nan_box, None, None)].
Definition nan_box_then_box_folded : Extent :=
  fold_extent (fresh_extent None None)
    [(Some nan_box, None, None); (Some (box 5 5 6 6), None, None)].


(** A file with [x] and [y] columns and two row groups without rows. *)
Definition example_empty_file : ParquetFile := mkParquetFile ["x"; "y"] [[]; []].

(** The first run over [example_world] into an empty output directory. *)
Definition example_first_run : outcome (State * Store) :=
  build_items_and_collection (H := example_library) example_args example_world empty_store.

Definition example_state : State :=
  match example_first_run with
  | Ok (st, _) => st
  | _ => mkState (fresh_extent None None) empty_sub_catalog empty_sub_catalog
                 empty_sub_catalog ∅ []
  end.

Definition example_store : Store :=
  match example_first_run with
  | Ok (_, store) => store
  | _ => empty_store
  end.

(** A generated data item and an override of its asset title. *)
Definition example_item : Item :=
  [("id", JStr "20250102T03");
   ("assets",
    JObj [("data", JObj [("href", JStr "../../../assets/parquet/data.parquet");
                         ("title", JStr "Interpolated winds GeoParquet")])])].

Definition example_overrides : dict json :=
  [("assets", JObj [("data", JObj [("title", JStr "Winds")])])].

(** *** Consecutive runs *)

(** The next run finds the catalogs the run has saved: for each
    sub-catalog [load_existing_items] gives items with the identifiers of
    the items of the sub-catalog, in their order.  What else pystac writes
    of an item and reads back is left open (it rewrites the hrefs of the
    assets of loaded items, for one). *)
Definition reads_back (st : State) (found : Store) : Prop :=
  item_ids (load_existing_items (stored_parquet found)) = item_ids (parquet_catalog st) /\
  item_ids (load_existing_items (stored_metadata found)) = item_ids (metadata_catalog st) /\
  item_ids (load_existing_items (stored_plots found)) = item_ids (plots_catalog st).

(** The items of the sub-catalogs of the metadata and of the plots have
    strings for identifiers. *)
Definition companion_strings (st : State) : Prop :=
  (exists ids, item_ids (metadata_catalog st) = JStr <$> ids) /\
  (exists ids, item_ids (plots_catalog st) = JStr <$> ids).

(** What the second run over [example_world] may find: the data item of
    the first run under its identifier, with another href. *)
Definition example_found_store : Store :=
  mkStore
    (Some [[("type", JStr "Feature"); ("id", JStr "20250102T03");
            ("assets",
             JObj [("data",
                    JObj [("href",
                           JStr "../../assets/parquet/year=2025/month=01/day=02/hour=03/data.parquet")])])]])
    None None {["wrf"]}.

(** A root with one partition whose file can be copied, and an override
    document that sets the identifier of every item. *)
Definition copyable_world : World := {|
  input_is_directory := true;
  discovered := [example_record];
  copy_succeeds := fun _ _ => true;
  source_model_column := fun _ => JNull;
  table_columns := fun _ => JArr [];
  plot_listing := fun _ => []
|}.

Definition id_override_args : Args :=
  mkArgs true false false None None (Some [("id", JStr "fixed")]).

(** An output directory whose data catalog lists two items under one
    identifier. *)
Definition repeated_id_store : Store :=
  mkStore
    (Some [[("type", JStr "Feature"); ("id", JStr "20240101T00"); ("properties", JObj [])];
           [("type", JStr "Feature"); ("id", JStr "20240101T00"); ("properties", JObj [])]])
    None None ∅.

(** ** More small inputs *)

(** A parser that knows one ISO string, with and without offset. *)
Definition example_clock : PyDatetime := {|
  fromisoformat := fun s =>
    if String.eqb s "2025-01-02T03:00:00+00:00" then Some (mkDatetime 1735786800000000 utc)
    else if String.eqb s "2025-01-02T03:00:00" then Some (mkDatetime 1735786800000000 None)
    else None
|}.


(** The number a row holds in a numeric column, when it holds one that is
    not NaN. *)
Definition number_at (col : string) (row : dict cell) : option float :=
  match dict_get col row with
  | Some (CFloat f) => if PyFloat.is_nan f then None else Some f
  | _ => None
  end.

(** The rows of a row group all hold a number in the column. *)
Definition numeric (col : string) (rg : row_group) : Prop :=
  forall row, row ∈ rg -> is_Some (number_at col row).

(** The running box is free of NaN and bounds the rows seen so far. *)
Definition scan_inv (lon_col lat_col : string) (acc : float * float * float * float)
    (seen : list row_group) : Prop :=
  let '(a, b, c, d) := acc in
  (PyFloat.is_nan a = false /\ PyFloat.is_nan b = false /\ PyFloat.is_nan c = false /\ PyFloat.is_nan d = false) /\
  forall rg row x y, rg ∈ seen -> row ∈ rg ->
    number_at lon_col row = Some x -> number_at lat_col row = Some y ->
    PyFloat.le a x = true /\ PyFloat.le x c = true /\
    PyFloat.le b y = true /\ PyFloat.le y d = true.

(** A file with the points (1, 5) and (3, 4), in two row groups. *)
Definition example_points_file : ParquetFile :=
  mkParquetFile ["x"; "y"]
    [[ [("x", CFloat (PyFloat.of_Z 1)); ("y", CFloat (PyFloat.of_Z 5))] ];
     [ [("x", CFloat (PyFloat.of_Z 3)); ("y", CFloat (PyFloat.of_Z 4))] ]].

(** An override with a nested dictionary and a list. *)
Definition example_nested_overrides : dict json :=
  [("properties", JObj [("license", JStr "CC-BY-4.0"); ("providers", JArr [JStr "HF-EOLUS"])]);
   ("assets", JObj [("data", JObj [("title", JStr "Winds")])])].

(** An asset outside the partition layout, named in capitals. *)
Definition example_loose_record : AssetRecord :=
  mkAssetRecord (PurePosixPath "exports/Winds.2025.PARQUET") [] None None None 0 None.

(** An override that sets the plot type and the description of the plot
    asset. *)
Definition example_plot_overrides : dict json :=
  [("properties", JObj [("plot_type", JStr "custom")]);
   ("assets", JObj [("plot", JObj [("description", JStr "mine")])])].

Definition example_plot_args : Args :=
  mkArgs false false true None None (Some example_plot_overrides).

(** The plot item of [variogram_u_empirical_a.png] under that override. *)
Definition example_plot_item : outcome Item :=
  build_plot_item (H := example_library) example_plot_args example_record
    "20250102T03-plot-variogram_u_empirical_a"
    (PurePosixPath "year=2025/month=01/day=02/hour=03/variogram_u_empirical_a.png").

(** *** A run seen from outside *)

(** The data files [copy_from_fs] was called on, and the parquet files
    opened to derive an item, in the order of the calls. *)
Definition data_copies (events : list event) : list path :=
  omap (fun e => match e with Copied InputFS source => Some source | _ => None end) events.

Definition opened_files (events : list event) : list path :=
  omap (fun e => match e with OpenedParquet asset => Some asset | _ => None end) events.

(** The data items a run starts from. *)
Definition loaded_items (args : Args) (prior : Store) : list Item :=
  if incremental args then load_existing_items (stored_parquet prior) else [].

(** What the steps for the companions of a data item leave alone: the
    extent, the source models, the data sub-catalog up to the links of its
    items, the copies of data files. *)
Definition companions_only (a b : State) : Prop :=
  extent b = extent a /\ discovered_models b = discovered_models a /\
  existing_ids (parquet b) = existing_ids (parquet a) /\
  has_items (parquet b) = has_items (parquet a) /\
  item_ids (catalog_items (parquet b)) = item_ids (catalog_items (parquet a)) /\
  data_copies (trace b) = data_copies (trace a) /\
  opened_files (trace b) = opened_files (trace a).

(** Every known identifier is the identifier of an item of the
    sub-catalog, and the flag of the sub-catalog is set once an identifier
    is known. *)
Definition ids_catalogued (s : SubCatalog) : Prop :=
  forall id, id ∈ existing_ids s ->
    JStr id ∈ item_ids (catalog_items s) /\ has_items s = true.

(** What a data item contributes to the extent: a loaded one, and one
    built for a record. *)
Definition item_contribution `{Library} (item : Item) : contribution :=
  (item_bbox item, item_start_datetime item, item_end_datetime item).

Definition record_contribution `{Library} (args : Args) (world : World)
    (record : AssetRecord) : option contribution :=
  match build_parquet_item args world record (make_item_id record) with
  | Ok item =>
      Some (or_else (item_bbox item) (record_bbox record),
            or_else (item_start_datetime item) (record_start record),
            or_else (item_end_datetime item) (record_end record))
  | _ => None
  end.

(** The source model of a record, when the column gives one. *)
Definition record_model `{Library} (world : World) (record : AssetRecord) : option string :=
  let value := source_model_column world (relative_path record) in
  if truthy value then Some (py_str value) else None.

(** A root with two partitions, the second without a bbox. *)
Definition example_second_record : AssetRecord :=
  let p := PurePosixPath "year=2025/month=01/day=02/hour=04/data.parquet" in
  mkAssetRecord p (parse_partitions p) None
    (Some (mkDatetime 3600000000 utc)) (Some (mkDatetime 7200000000 utc)) 12 None.

Definition example_two_world : World := {|
  input_is_directory := true;
  discovered := [example_record; example_second_record];
  copy_succeeds := fun _ _ => true;
  source_model_column := fun _ => JStr "wrf";
  table_columns := fun _ => JArr [];
  plot_listing := fun _ => []
|}.

(** A run from scratch, with a start of the period given on the command
    line. *)
Definition example_scratch_args : Args :=
  mkArgs false true false (Some (mkDatetime 1800000000 utc)) None None.

Definition example_scratch_run : outcome (State * Store) :=
  build_items_and_collection (H := example_library) example_scratch_args example_two_world
    empty_store.

Definition example_scratch_state : State :=
  match example_scratch_run with
  | Ok (st, _) => st
  | _ => mkState (fresh_extent None None) empty_sub_catalog empty_sub_catalog
                 empty_sub_catalog ∅ []
  end.

Definition example_scratch_store : Store :=
  match example_scratch_run with
  | Ok (_, store) => store
  | _ => empty_store
  end.

(** ** Paths with a root *)

Module PyStrMore.

(** [s.rstrip(c)] for a one-character [c]. *)
Fixpoint rstrip_char (c : ascii) (s : string) : string :=
  match s with
  | EmptyString => EmptyString
  | String a r =>
      match rstrip_char c r with
      | EmptyString => if Ascii.eqb a c then EmptyString else String a EmptyString
      | r' => String a r'
      end
  end.

End PyStrMore.

(** A [PurePosixPath] that may be absolute: its root ([""], ["/"] or
    ["//"]) and the parts after the root. *)
Record PurePath := mkPurePath {
  path_root : string;
  path_tail : path
}.

(** The number of slashes a string starts with. *)
Fixpoint leading_slashes (s : string) : nat :=
  match s with
  | EmptyString => O
  | String a r => if Ascii.eqb a "/" then S (leading_slashes r) else O
  end.

(** [posixpath.splitroot]: one leading slash, or three and more, give the
    root ["/"]; exactly two give ["//"]. *)
Definition splitroot (s : string) : string :=
  match leading_slashes s with
  | O => ""
  | 2%nat => "//"
  | _ => "/"
  end.

(** [PurePosixPath(s)] for any [s]. *)
Definition pure_path (s : string) : PurePath := mkPurePath (splitroot s) (PurePosixPath s).

(** [str(p)]: the root and the parts joined by slashes, [.] for the empty
    path. *)
Definition pure_str (p : PurePath) : string :=
  match path_root p, path_tail p with
  | EmptyString, [] => "."
  | r, t => r +:+ PyStr.join "/" t
  end.

(** [p.name]. *)
Definition pure_name (p : PurePath) : string := List.last (path_tail p) EmptyString.

(** [p / q]: an absolute [q] replaces [p]. *)
Definition pure_join (p q : PurePath) : PurePath :=
  match path_root q with
  | EmptyString => mkPurePath (path_root p) (path_tail p ++ path_tail q)
  | _ => q
  end.

(** The rest of [l] after the prefix [p]. *)
Fixpoint strip_parts (p l : list string) : option (list string) :=
  match p with
  | [] => Some l
  | a :: p' =>
      match l with
      | [] => None
      | b :: l' => if String.eqb a b then strip_parts p' l' else None
      end
  end.

(** [p.relative_to(other)]; [None] is [ValueError]. *)
Definition relative_to (p other : PurePath) : option PurePath :=
  if String.eqb (path_root p) (path_root other) then
    match strip_parts (path_tail other) (path_tail p) with
    | Some rest => Some (mkPurePath EmptyString rest)
    | None => None
    end
  else None.

Definition build_href (prefix : option string) (relative : PurePath) : option string :=
  match prefix with
  | None => None
  | Some prefix =>
      if PyStr.contains "://" prefix
      then Some (PyStrMore.rstrip_char "/" prefix +:+ "/" +:+ pure_str relative)
      else Some (pure_str (pure_join (pure_path prefix) (pure_path (pure_str relative))))
  end.

Definition relative_from_base (full_path base : string) : PurePath :=
  let full_norm := pure_path full_path in
  let base_norm := pure_path base in
  match relative_to full_norm base_norm with
  | Some relative => relative
  | None =>
      let prefix := PyStrMore.rstrip_char "/" base +:+ "/" in
      match PyStr.strip_prefix prefix full_path with
      | Some rest => pure_path rest
      | None => pure_path (pure_name full_norm)
      end
  end.

(** ** Datetimes from partition coordinates *)

(** [int(s)], of the Python library; [None] is [ValueError]. *)
Class PyInt := {
  py_int : string -> option Z
}.

(** The proleptic Gregorian calendar of the [datetime] module. *)
Definition is_leap (year : Z) : bool :=
  (year mod 4 =? 0) && (negb (year mod 100 =? 0) || (year mod 400 =? 0)).

Definition days_in_month (year month : Z) : Z :=
  if month =? 2 then (if is_leap year then 29 else 28)
  else if (month =? 4) || (month =? 6) || (month =? 9) || (month =? 11) then 30
  else 31.

Definition days_before_year (year : Z) : Z :=
  let y := year - 1 in y * 365 + y / 4 - y / 100 + y / 400.

Definition days_before_month (year month : Z) : Z :=
  List.nth (Z.to_nat (month - 1)) [0; 31; 59; 90; 120; 151; 181; 212; 243; 273; 304; 334] 0 +
  (if (2 <? month) && is_leap year then 1 else 0).

(** The ordinal of a day, 1 for 0001-01-01. *)
Definition ymd2ord (year month day : Z) : Z :=
  days_before_year year + days_before_month year month + day.

(** The ordinals of 1970-01-01 and of 9999-12-31. *)
Definition epoch_ordinal : Z := 719163.
Definition max_ordinal : Z := 3652059.

Definition microseconds_per_hour : Z := 3600000000.

(** An argument that fits a C [int]. *)
Definition c_int (z : Z) : bool := (-2147483648 <=? z) && (z <=? 2147483647).

(** [datetime(year, month, day, hour, tzinfo=timezone.utc)]. *)
Definition datetime_utc (year month day hour : Z) : outcome datetime :=
  if negb (forallb c_int [year; month; day; hour]) then Raise "OverflowError"
  else if negb ((1 <=? year) && (year <=? 9999)) then Raise "ValueError"
  else if negb ((1 <=? month) && (month <=? 12)) then Raise "ValueError"
  else if negb ((1 <=? day) && (day <=? days_in_month year month)) then Raise "ValueError"
  else if negb ((0 <=? hour) && (hour <=? 23)) then Raise "ValueError"
  else
    Ok (mkDatetime
          (((ymd2ord year month day - epoch_ordinal) * 24 + hour) * microseconds_per_hour)
          utc).

(** [dt + timedelta(hours=1)]: a result after the year 9999 is an
    [OverflowError]. *)
Definition plus_one_hour (dt : datetime) : outcome datetime :=
  let wall := dt_wall dt + microseconds_per_hour in
  if wall <? (max_ordinal + 1 - epoch_ordinal) * 24 * microseconds_per_hour
  then Ok (mkDatetime wall (dt_tz dt))
  else Raise "OverflowError".

(** [int(partitions.get(key, fallback))], [fallback] being the number the
    default string of the source reads as. *)
Definition partition_int `{PyInt} (partitions : dict string) (key : string) (fallback : Z)
    : option Z :=
  match dict_get key partitions with
  | Some text => py_int text
  | None => Some fallback
  end.

Definition partition_datetime `{PyInt} (partitions : dict string)
    : outcome (option datetime * option datetime) :=
  match dict_get "year" partitions with
  | None => Ok (None, None)
  | Some text =>
      match py_int text,
            partition_int partitions "month" 1,
            partition_int partitions "day" 1,
            partition_int partitions "hour" 0 with
      | Some year, Some month, Some day, Some hour =>
          start ← datetime_utc year month day hour;
          end_ ← plus_one_hour start;
          Ok (Some start, Some end_)
      | _, _, _, _ => Ok (None, None)
      end
  end.

(** [int] on plain decimal numerals, for examples. *)
Fixpoint decimal (digits : string) (acc : Z) : option Z :=
  match digits with
  | EmptyString => Some acc
  | String c rest =>
      let n := Z.of_nat (nat_of_ascii c) in
      if (48 <=? n) && (n <=? 57) then decimal rest (acc * 10 + (n - 48)) else None
  end.

Definition example_int : PyInt := {|
  py_int := fun s => match s with EmptyString => None | _ => decimal s 0 end
|}.

(** The coordinates of a path, read as numbers, for a path that gives all
    four. *)
Definition example_hour_partitions : dict string :=
  parse_partitions (PurePosixPath "year=2025/month=01/day=02/hour=03/data.parquet").

Definition example_bad_month_partitions : dict string :=
  parse_partitions (PurePosixPath "year=2025/month=13/data.parquet").

(** ** Discovery *)

(** An entry of the listing of the input root, with what pyarrow and
    [os.path] give for it. *)
Record FileInfo := mkFileInfo {
  info_path : string;
  info_is_file : bool;
  (** [PurePosixPath(os.path.relpath(info.path, base_path))] *)
  info_rel : path;
  (** [pq.ParquetFile(info.path, filesystem=fs)] *)
  info_parquet : ParquetFile;
  (** [load_geo_metadata(pf)] *)
  info_geo : option string * option bbox
}.

(** The entries [discover_assets] keeps: files whose path ends with one of
    the extensions. *)
Definition selected (extension_filter : list string) (info : FileInfo) : bool :=
  info_is_file info && existsb (PyStr.endswith (info_path info)) extension_filter.

(** The record of one kept file. *)
Definition asset_record `{PyDatetime} `{PyInt} (info : FileInfo) : outcome AssetRecord :=
  let rel_path := info_rel info in
  let partitions := parse_partitions rel_path in
  let pf := info_parquet info in
  let '(primary_geom, bbox) := info_geo info in
  let bbox := resolve_bbox bbox pf in
  let '(start, end_) := read_timestamp_bounds pf in
  bounds ← (match start, end_ with
            | Some _, Some _ => Ok (start, end_)
            | _, _ =>
                parts ← partition_datetime partitions;
                Ok (or_else start parts.1, or_else end_ parts.2)
            end);
  Ok (mkAssetRecord rel_path partitions bbox (ensure_utc bounds.1) (ensure_utc bounds.2)
                    (Z.of_nat (num_rows pf)) primary_geom).

(** [str(record.relative_path)], the key of the sort. *)
Definition sort_key (record : AssetRecord) : string :=
  pure_str (mkPurePath EmptyString (relative_path record)).

(** [list.sort(key=...)], a stable sort: every element goes after the
    elements whose key is not greater than its own. *)
Fixpoint insert_sorted {A : Type} (key : A -> string) (x : A) (l : list A) : list A :=
  match l with
  | [] => [x]
  | y :: rest =>
      if String.ltb (key x) (key y) then x :: y :: rest
      else y :: insert_sorted key x rest
  end.

Definition sort_by {A : Type} (key : A -> string) (l : list A) : list A :=
  fold_left (fun sorted x => insert_sorted key x sorted) l [].

(** The loop over the listing: the records in the order of the listing. *)
Definition listed_records `{PyDatetime} `{PyInt} (listing : list FileInfo)
    (extension_filter : list string) : outcome (list AssetRecord) :=
  for_each (fun records info =>
              if selected extension_filter info then
                record ← asset_record info; Ok (records ++ [record])
              else Ok records)
           listing [].

Definition discover_assets `{PyDatetime} `{PyInt} (listing : list FileInfo)
    (extension_filter : list string) : outcome (list AssetRecord) :=
  records ← listed_records listing extension_filter;
  Ok (sort_by sort_key records).

(** The keys do not decrease along the list. *)
Fixpoint keys_sorted (keys : list string) : bool :=
  match keys with
  | [] => true
  | a :: rest =>
      match rest with
      | [] => true
      | b :: _ => String.leb a b
      end && keys_sorted rest
  end.

(** The elements with the key [k], in their order. *)
Definition with_key {A : Type} (key : A -> string) (k : string) (l : list A) : list A :=
  List.filter (fun x => String.eqb (key x) k) l.

(** A listing of two hours, the later one listed first, with a directory
    and a file of another kind between them. *)
Definition example_info (rel : string) (is_file : bool) : FileInfo :=
  mkFileInfo ("/data/" +:+ rel) is_file (PurePosixPath rel)
             (mkParquetFile ["x"; "y"] []) (None, None).

Definition example_listing : list FileInfo :=
  [example_info "year=2025/month=01/day=02/hour=04/data.parquet" true;
   example_info "year=2025/month=01/day=02/hour=03" false;
   example_info "year=2025/month=01/day=02/hour=03/notes.txt" true;
   example_info "year=2025/month=01/day=02/hour=03/data.parquet" true].


(** ** GeoParquet metadata *)

(** The [geo] entry of the schema metadata: missing or empty, not
    decodable as JSON, or a decoded document. *)
Inductive raw_geo : Type :=
| GeoMissing
| GeoUndecodable
| GeoDocument (geo_json : json).

(** [float(x)] on an integer and on a string, of the Python library. *)
Class PyFloatOf := {
  float_of_int : Z -> outcome float;
  float_of_str : string -> outcome float
}.

(** [float(x)] on a decoded JSON value. *)
Definition py_float `{PyFloatOf} (x : json) : outcome float :=
  match x with
  | JFloat f => Ok f
  | JInt z => float_of_int z
  | JBool b => Ok (PyFloat.of_Z (if b then 1 else 0))
  | JStr s => float_of_str s
  | _ => Raise "TypeError"
  end.

(** [obj.get(key, fallback)]. *)
Definition json_get (key : string) (fallback : json) (obj : json) : outcome json :=
  match obj with
  | JObj members => Ok (default fallback (dict_get key members))
  | _ => Raise "AttributeError"
  end.

(** [obj.get(key, fallback)] for a key that is a decoded JSON value: a
    key that is not a string is in no decoded object, and a list or a
    dictionary cannot be a key at all. *)
Definition json_get_value (key : json) (fallback : json) (obj : json) : outcome json :=
  match obj with
  | JObj members =>
      match key with
      | JStr k => Ok (default fallback (dict_get k members))
      | JArr _ | JObj _ => Raise "TypeError"
      | _ => Ok fallback
      end
  | _ => Raise "AttributeError"
  end.

(** [tuple(float(x) for x in value)] when [value] is a list of four. *)
Definition bbox_of_json `{PyFloatOf} (value : json) : outcome (option bbox) :=
  match value with
  | JArr [a; b; c; d] =>
      a ← py_float a; b ← py_float b; c ← py_float c; d ← py_float d;
      Ok (Some (mkBbox a b c d))
  | _ => Ok None
  end.

Definition load_geo_metadata `{PyFloatOf} (raw : raw_geo) : outcome (json * option bbox) :=
  match raw with
  | GeoMissing | GeoUndecodable => Ok (JNull, None)
  | GeoDocument geo_json =>
      primary ← json_get "primary_column" JNull geo_json;
      bbox ← (if truthy primary then
                columns ← json_get "columns" (JObj []) geo_json;
                col_meta ← json_get_value primary (JObj []) columns;
                col_bbox ← json_get "bbox" JNull col_meta;
                bbox_of_json col_bbox
              else Ok None);
      bbox ← (match bbox with
              | Some b => Ok (Some b)
              | None =>
                  top_bbox ← json_get "bbox" JNull geo_json;
                  bbox_of_json top_bbox
              end);
      Ok (primary, bbox)
  end.

(** A conversion that rejects every integer and every string, for
    documents whose numbers are floats. *)
Definition floats_only : PyFloatOf := {|
  float_of_int := fun _ => Raise "OverflowError";
  float_of_str := fun _ => Raise "ValueError"
|}.

(** A document with a bbox for its primary column and another one at the
    top. *)
Definition example_geo : json :=
  JObj [("primary_column", JStr "geometry");
        ("columns", JObj [("geometry", JObj [("encoding", JStr "WKB");
                                             ("bbox", bbox_json (box 0 0 1 1))])]);
        ("bbox", bbox_json (box 5 5 6 6))].

(** ** The first value of a column *)

(** The position of the first [name] in [names], counted from [i]. *)
Fixpoint first_index (names : list string) (name : string) (i : Z) : Z :=
  match names with
  | [] => -1
  | n :: rest => if String.eqb n name then i else first_index rest name (i + 1)
  end.

(** [schema.get_field_index(name)]: the index of the field with that name
    when there is exactly one, and -1 when there is none or more than
    one. *)
Definition get_field_index (pf : ParquetFile) (name : string) : Z :=
  if Nat.eqb (count_occ string_dec (schema_names pf) name) 1
  then first_index (schema_names pf) name 0
  else -1.

(** [value.as_py()]: a null is [None]. *)
Definition as_py (value : cell) : option cell :=
  match value with
  | CNull => None
  | _ => Some value
  end.

Definition read_constant_column (pf : ParquetFile) (column_name : string) : option cell :=
  if get_field_index pf column_name =? -1 then None
  else
    match row_groups pf with
    | [] => None
    | row_group :: _ =>
        match rg_column column_name row_group with
        | [] => None
        | value :: _ => as_py value
        end
    end.

(** A file whose first row group is empty and whose second one names the
    model. *)
Definition example_model_file : ParquetFile :=
  mkParquetFile ["source_model"; "x"]
    [[]; [ [("source_model", CStr "wrf"); ("x", CFloat (PyFloat.of_Z 1))] ]].

(** ** The documents a run finishes *)

(** [dt.strftime("%Y-%m-%dT%H:%M:%S")], of the Python library. *)
Class PyStrftime := {
  strftime_seconds : datetime -> string
}.

(** The format of the source ends with a literal [Z]. *)
Definition format_datetime `{PyStrftime} (dt : option datetime) : option string :=
  match dt with
  | None => None
  | Some d => Some (strftime_seconds (normalise_utc d) +:+ "Z")
  end.

Definition optional_text (text : option string) : json :=
  match text with
  | Some s => JStr s
  | None => JNull
  end.

(** The extra fields [create_collection] sets: the region, when one is
    given, and the period, when a bound of it is given on the command
    line. *)
Definition create_collection_extra_fields `{PyStrftime} (region : option string)
    (args : Args) : dict json :=
  let fields :=
    match region with
    | Some r => if truthy (JStr r) then [("region", JStr r)] else []
    | None => []
    end in
  match temporal_start args, temporal_end args with
  | None, None => fields
  | start_override, end_override =>
      dict_set "period"
        (JObj [("start", optional_text (format_datetime start_override));
               ("end", optional_text (format_datetime end_override))])
        fields
  end.

(** [if bound and not period.get(key): period[key] = format_datetime(bound)]. *)
Definition fill_bound `{PyStrftime} (key : string) (bound : option datetime) (period : json)
    : outcome json :=
  match bound with
  | None => Ok period
  | Some _ =>
      current ← json_get key JNull period;
      if truthy current then Ok period
      else
        match period with
        | JObj members =>
            Ok (JObj (dict_set key (optional_text (format_datetime bound)) members))
        | _ => Raise "TypeError"
        end
  end.

(** The block that completes the period of the collection from its
    temporal extent. *)
Definition fill_period `{PyStrftime} (extra_fields : dict json)
    (interval : option datetime * option datetime) : outcome (dict json) :=
  let '(start, end_) := interval in
  let period := default (JObj []) (dict_get "period" extra_fields) in
  let period := if truthy period then period else JObj [] in
  period ← fill_bound "start" start period;
  period ← fill_bound "end" end_ period;
  if truthy period then Ok (dict_set "period" period extra_fields) else Ok extra_fields.

(** [sorted(models)] of a set of strings. *)
Definition sorted_models (models : gset string) : list string :=
  sort_by (fun model => model) (elements models).

(** The block that stores the source models on the collection. *)
Definition store_source_models `{Library} (extra_fields : dict json)
    (discovered_models : gset string) : dict json :=
  if bool_decide (discovered_models = ∅) then extra_fields
  else
    let existing_models :=
      match dict_get "source_models" extra_fields with
      | Some (JArr existing) => list_to_set (py_str <$> existing)
      | _ => ∅
      end in
    dict_set "source_models" (JArr (JStr <$> sorted_models (discovered_models ∪ existing_models)))
             extra_fields.

(** [value == text]. *)
Definition is_text (value : json) (text : string) : bool :=
  match value with
  | JStr s => String.eqb s text
  | _ => false
  end.

(** [for x in value]: the items of a list, the keys of a dictionary, the
    characters of a string. *)
Definition py_iter (value : json) : outcome (list json) :=
  match value with
  | JArr items => Ok items
  | JObj members => Ok (JStr <$> dict_keys members)
  | JStr s => Ok ((fun c => JStr (String c EmptyString)) <$> list_ascii_of_string s)
  | _ => Raise "TypeError"
  end.

(** [[link for link in links if link.get("rel") != "self"]]. *)
Definition without_self (links : list json) : outcome (list json) :=
  for_each (fun kept link =>
              rel ← json_get "rel" JNull link;
              if is_text rel "self" then Ok kept else Ok (kept ++ [link]))
           links [].

(** The clean-up of [collection.json] after it is saved: the document
    read back, [JNull] when the file is not there. *)
Definition strip_self_links (coll_data : json) : outcome json :=
  if negb (truthy coll_data) then Ok coll_data
  else
    has_links ← py_in "links" coll_data;
    if negb has_links then Ok coll_data
    else
      match coll_data with
      | JObj members =>
          let links := default JNull (dict_get "links" members) in
          items ← py_iter links;
          filtered ← without_self items;
          if negb (length filtered =? length items)%nat
          then Ok (JObj (dict_set "links" (JArr filtered) members))
          else Ok coll_data
      | _ => Raise "TypeError"
      end.

(** One round of the loop of [relocate_subcatalog] over the links of the
    moved [catalog.json]. *)
Definition relocate_link (link : json) : outcome json :=
  rel ← json_get "rel" JNull link;
  let href :=
    if is_text rel "self" then Some "catalog.json"
    else if is_text rel "parent" then Some "../../collection.json"
    else if is_text rel "root" then Some "../../collection.json"
    else None in
  match href, link with
  | Some target, JObj members => Ok (JObj (dict_set "href" (JStr target) members))
  | _, _ => Ok link
  end.

(** The links of the moved [catalog.json] after the loop. *)
Definition relocate_links (links : list json) : outcome (list json) :=
  for_each (fun done link => link' ← relocate_link link; Ok (done ++ [link'])) links [].

(** One round of the loop over the links of [collection.json]: the child
    link of the moved sub-catalog gets its new href. *)
Definition relocate_child_link (child_id rel_href : string) (link : json) : outcome json :=
  rel ← json_get "rel" JNull link;
  if is_text rel "child" then
    href ← json_get "href" JNull link;
    if is_text href ("./" +:+ child_id +:+ "/catalog.json") then
      match link with
      | JObj members => Ok (JObj (dict_set "href" (JStr ("./" +:+ rel_href)) members))
      | _ => Ok link
      end
    else Ok link
  else Ok link.

Definition relocate_child_links (child_id rel_href : string) (links : list json)
    : outcome (list json) :=
  for_each (fun done link =>
              link' ← relocate_child_link child_id rel_href link; Ok (done ++ [link']))
           links [].

(** The [rel] of a link that is a dictionary. *)
Definition link_rel (link : json) : json :=
  match link with
  | JObj members => default JNull (dict_get "rel" members)
  | _ => JNull
  end.

(** [link.get("rel") != "self"] of a link that is a dictionary. *)
Definition not_self (link : json) : bool := negb (is_text (link_rel link) "self").

(** The links of a collection as pystac saves it, for examples. *)
Definition example_links : list json :=
  [JObj [("rel", JStr "root"); ("href", JStr "./collection.json")];
   JObj [("rel", JStr "self"); ("href", JStr "/out/collection.json")];
   JObj [("rel", JStr "child"); ("href", JStr "./winds-parquet/catalog.json")]].

Definition example_collection_document : json :=
  JObj [("type", JStr "Collection"); ("id", JStr "winds"); ("links", JArr example_links)].

(** A clock that writes every datetime the same way, for examples. *)
Definition example_strftime : PyStrftime := {|
  strftime_seconds := fun d => if dt_wall d =? 0 then "1970-01-01T00:00:00"
                               else "2025-01-02T03:00:00"
|}.

(** [fields["period"][key]], when the period is a dictionary with the key. *)
Definition period_bound (key : string) (extra_fields : dict json) : option json :=
  match dict_get "period" extra_fields with
  | Some (JObj period) => dict_get key period
  | _ => None
  end.

(** The strings grow along the list. *)
Fixpoint strictly_sorted (keys : list string) : bool :=
  match keys with
  | [] => true
  | a :: rest =>
      match rest with
      | [] => true
      | b :: _ => String.ltb a b
      end && strictly_sorted rest
  end.

(** The three calls of [relocate_subcatalog], on the links of
    [collection.json]: a sub-catalog whose directory is not there is
    skipped. *)
Definition sub_catalogs : list string := ["parquet"; "metadata"; "plots"].

Definition relocate_subcatalogs (collection_id : string) (src_dir_exists : string -> bool)
    (links : list json) : outcome (list json) :=
  for_each (fun links kind =>
              let child_id := collection_id +:+ "-" +:+ kind in
              if src_dir_exists child_id
              then relocate_child_links child_id ("items/" +:+ kind +:+ "/catalog.json") links
              else Ok links)
           sub_catalogs links.

(** [link.get(key)] of a link that is a dictionary. *)
Definition link_field (key : string) (link : json) : option json :=
  match link with
  | JObj members => dict_get key members
  | _ => None
  end.

(** The links of a sub-catalog as pystac saves it, for examples. *)
Definition example_catalog_links : list json :=
  [JObj [("rel", JStr "root"); ("href", JStr "../collection.json")];
   JObj [("rel", JStr "self"); ("href", JStr "/out/winds-parquet/catalog.json")];
   JObj [("rel", JStr "parent"); ("href", JStr "../collection.json")];
   JObj [("rel", JStr "item"); ("href", JStr "./20250102T03/20250102T03.json")]].

(** ** Datetimes at the ends of the calendar *)

(** The wall-clock readings a [datetime] can hold, from
    0001-01-01T00:00:00 to 9999-12-31T23:59:59.999999, in microseconds
    since the epoch. *)
Definition min_wall : Z := (1 - epoch_ordinal) * 24 * microseconds_per_hour.
Definition max_wall : Z :=
  (max_ordinal + 1 - epoch_ordinal) * 24 * microseconds_per_hour - 1.

Definition in_calendar (wall : Z) : bool := (min_wall <=? wall) && (wall <=? max_wall).

Module Bounded.

(** [dt.astimezone(timezone.utc)] of an aware [dt]: the offset is
    subtracted from the wall clock, and a result outside the calendar is
    an [OverflowError]. *)
Definition astimezone_utc (d : datetime) : outcome datetime :=
  if in_calendar (dt_instant d) then Ok (mkDatetime (dt_instant d) utc)
  else Raise "OverflowError".

Definition normalise_utc (d : datetime) : outcome datetime :=
  match dt_tz d with
  | None => Ok (replace_tzinfo_utc d)
  | Some _ => astimezone_utc d
  end.

Definition ensure_utc (dt : option datetime) : outcome (option datetime) :=
  match dt with
  | None => Ok None
  | Some d => d' ← normalise_utc d; Ok (Some d')
  end.

(** [fromisoformat] refusing the string is a [ValueError]. *)
Definition parse_datetime `{PyDatetime} (value : string) : outcome datetime :=
  let value :=
    if PyStr.endswith value "Z"
    then substring 0 (String.length value - 1) value +:+ "+00:00"
    else value in
  match fromisoformat value with
  | Some dt => normalise_utc dt
  | None => Raise "ValueError"
  end.

End Bounded.

(** [datetime(1, 1, 1, tzinfo=timezone(timedelta(hours=1)))]: the first
    hour of the calendar, read one hour east of UTC. *)
Definition example_first_hour : datetime := mkDatetime min_wall (Some microseconds_per_hour).

(** A parser that knows the first reading of the calendar, in UTC and one
    hour east of it. *)
Definition example_edge_clock : PyDatetime := {|
  fromisoformat := fun s =>
    if String.eqb s "0001-01-01T00:00:00+00:00" then Some (mkDatetime min_wall utc)
    else if String.eqb s "0001-01-01T00:00:00+01:00" then Some example_first_hour
    else None
|}.

(** * Properties *)

(** ** The order of floats *)

Module FloatOrder.
Import PyFloat.

Ltac float_cases :=
  repeat match goal with
  | s : bool |- _ => destruct s
  | |- context [Z.compare ?a ?b] => destruct (Z.compare_spec a b)
  | |- context [Pos.compare_cont Eq ?a ?b] =>
      change (Pos.compare_cont Eq a b) with (Pos.compare a b);
      destruct (Pos.compare_spec a b)
  end.

Lemma lt_spec (a b : float) :
  is_nan a = false -> is_nan b = false -> (lt a b = true <-> lex_lt (key a) (key b)).
Proof.
  unfold lt, SFltb, lex_lt.
  destruct a as [sa|sa| |sa ma ea], b as [sb|sb| |sb mb eb]; simpl; try discriminate;
    intros _ _; float_cases; simpl; split; intros; try discriminate; try lia; auto.
Qed.

Lemma le_spec (a b : float) :
  is_nan a = false -> is_nan b = false -> (le a b = true <-> lex_le (key a) (key b)).
Proof.
  unfold le, SFleb, lex_le.
  destruct a as [sa|sa| |sa ma ea], b as [sb|sb| |sb mb eb]; simpl; try discriminate;
    intros _ _; float_cases; simpl; split; intros; try discriminate; try lia; auto.
Qed.

Lemma le_refl (a : float) : is_nan a = false -> le a a = true.
Proof. intros Ha. apply le_spec; auto. unfold lex_le. lia. Qed.

Lemma le_trans (a b c : float) :
  is_nan a = false -> is_nan b = false -> is_nan c = false ->
  le a b = true -> le b c = true -> le a c = true.
Proof.
  intros Ha Hb Hc Hab Hbc.
  apply le_spec in Hab; auto. apply le_spec in Hbc; auto. apply le_spec; auto.
  unfold lex_le in *. lia.
Qed.

Lemma not_lt_le (a b : float) :
  is_nan a = false -> is_nan b = false -> lt b a = false -> le a b = true.
Proof.
  intros Ha Hb Hlt. apply le_spec; auto.
  assert (~ lex_lt (key b) (key a)) as Hn.
  { intros H. apply lt_spec in H; auto. congruence. }
  unfold lex_le, lex_lt in *. lia.
Qed.

Lemma lt_le (a b : float) :
  is_nan a = false -> is_nan b = false -> lt a b = true -> le a b = true.
Proof.
  intros Ha Hb Hlt. apply le_spec; auto. apply lt_spec in Hlt; auto.
  unfold lex_le, lex_lt in *. lia.
Qed.

Lemma ne_self (a : float) : ne a a = is_nan a.
Proof.
  unfold ne, SFeqb.
  destruct a as [s|s| |s m e]; simpl; try reflexivity; destruct s; simpl; try reflexivity;
    rewrite Z.compare_refl; change (Pos.compare_cont Eq m m) with (Pos.compare m m);
    rewrite Pos.compare_refl; reflexivity.
Qed.

Lemma min_cases (a b : float) : min a b = a \/ min a b = b.
Proof. unfold min. destruct (lt b a); auto. Qed.

Lemma max_cases (a b : float) : max a b = a \/ max a b = b.
Proof. unfold max. destruct (lt a b); auto. Qed.

Lemma min_nan (a b : float) :
  is_nan a = false -> is_nan b = false -> is_nan (min a b) = false.
Proof. intros. destruct (min_cases a b) as [-> | ->]; auto. Qed.

Lemma max_nan (a b : float) :
  is_nan a = false -> is_nan b = false -> is_nan (max a b) = false.
Proof. intros. destruct (max_cases a b) as [-> | ->]; auto. Qed.

Lemma min_le_l (a b : float) :
  is_nan a = false -> is_nan b = false -> le (min a b) a = true.
Proof.
  intros Ha Hb. unfold min. destruct (lt b a) eqn:E.
  - apply lt_le; auto.
  - apply le_refl; auto.
Qed.

Lemma min_le_r (a b : float) :
  is_nan a = false -> is_nan b = false -> le (min a b) b = true.
Proof.
  intros Ha Hb. unfold min. destruct (lt b a) eqn:E.
  - apply le_refl; auto.
  - apply not_lt_le; auto.
Qed.

Lemma max_ge_l (a b : float) :
  is_nan a = false -> is_nan b = false -> le a (max a b) = true.
Proof.
  intros Ha Hb. unfold max. destruct (lt a b) eqn:E.
  - apply lt_le; auto.
  - apply le_refl; auto.
Qed.

Lemma max_ge_r (a b : float) :
  is_nan a = false -> is_nan b = false -> le b (max a b) = true.
Proof.
  intros Ha Hb. unfold max. destruct (lt a b) eqn:E.
  - apply le_refl; auto.
  - apply not_lt_le; auto.
Qed.

End FloatOrder.

(** ** The extent accumulator *)

Section ExtentAccumulator.
Import PyFloat FloatOrder.

Lemma is_least_singleton (y : float) : is_nan y = false -> is_least y [y].
Proof.
  intros Hy. split; [apply list_elem_of_singleton; reflexivity|].
  intros z Hz. apply list_elem_of_singleton in Hz. subst. apply le_refl; auto.
Qed.

Lemma is_greatest_singleton (y : float) : is_nan y = false -> is_greatest y [y].
Proof.
  intros Hy. split; [apply list_elem_of_singleton; reflexivity|].
  intros z Hz. apply list_elem_of_singleton in Hz. subst. apply le_refl; auto.
Qed.

Lemma is_least_snoc (x y : float) (l : list float) :
  (forall z, z ∈ l -> is_nan z = false) -> is_nan y = false ->
  is_least x l -> is_least (min x y) (l ++ [y]).
Proof.
  intros Hl Hy [Hin Hle]. pose proof (Hl _ Hin) as Hx. split.
  - apply elem_of_app. destruct (min_cases x y) as [-> | ->]; [left; auto|].
    right. apply list_elem_of_singleton. reflexivity.
  - intros z Hz. apply elem_of_app in Hz as [Hz | Hz].
    + apply le_trans with x; auto using min_nan, min_le_l.
    + apply list_elem_of_singleton in Hz. subst. apply min_le_r; auto.
Qed.

Lemma is_greatest_snoc (x y : float) (l : list float) :
  (forall z, z ∈ l -> is_nan z = false) -> is_nan y = false ->
  is_greatest x l -> is_greatest (max x y) (l ++ [y]).
Proof.
  intros Hl Hy [Hin Hle]. pose proof (Hl _ Hin) as Hx. split.
  - apply elem_of_app. destruct (max_cases x y) as [-> | ->]; [left; auto|].
    right. apply list_elem_of_singleton. reflexivity.
  - intros z Hz. apply elem_of_app in Hz as [Hz | Hz].
    + apply le_trans with x; auto using max_nan, max_ge_l.
    + apply list_elem_of_singleton in Hz. subst. apply max_ge_r; auto.
Qed.

Lemma coords_proper (f : bbox -> float) (bs : list bbox) :
  (forall b, proper_bbox b -> is_nan (f b) = false) ->
  (forall b, b ∈ bs -> proper_bbox b) ->
  forall z, z ∈ (f <$> bs) -> is_nan z = false.
Proof.
  intros Hf Hbs z Hz. apply list_elem_of_fmap in Hz as (b & -> & Hb). auto.
Qed.

Lemma boxes_of_snoc (items : list contribution) (c : contribution) :
  boxes_of (items ++ [c]) = boxes_of items ++ option_list c.1.1.
Proof.
  unfold boxes_of. rewrite omap_app. simpl. destruct (c.1.1); reflexivity.
Qed.

Lemma fold_extent_snoc (e : Extent) (items : list contribution) (c : contribution) :
  fold_extent e (items ++ [c]) =
  update_collection_extent (fold_extent e items) c.1.1 c.1.2 c.2.
Proof. unfold fold_extent. rewrite fold_left_app. reflexivity. Qed.

(** A null bbox leaves the spatial accumulator as it is. *)
Lemma update_null_bbox (e : Extent) (s t : option datetime) :
  spatial (update_collection_extent e None s t) = spatial e.
Proof. reflexivity. Qed.

Lemma is_union_of_single (b : bbox) : proper_bbox b -> is_union_of b [b].
Proof.
  intros (H0 & H1 & H2 & H3). unfold is_union_of. simpl.
  auto using is_least_singleton, is_greatest_singleton.
Qed.

Lemma is_union_of_snoc (r b : bbox) (bs : list bbox) :
  (forall b', b' ∈ bs -> proper_bbox b') -> proper_bbox b ->
  is_union_of r bs ->
  is_union_of (mkBbox (min (minx r) (minx b)) (min (miny r) (miny b))
                      (max (maxx r) (maxx b)) (max (maxy r) (maxy b))) (bs ++ [b]).
Proof.
  intros Hbs (H0 & H1 & H2 & H3) (U0 & U1 & U2 & U3).
  unfold is_union_of. rewrite !fmap_app. simpl.
  split; [|split; [|split]];
    (apply is_least_snoc || apply is_greatest_snoc); auto;
    apply coords_proper; auto; intros ? (? & ? & ? & ?); auto.
Qed.

Lemma acc_inv_step (e : Extent) (bs : list bbox) (b : bbox) (s t : option datetime) :
  (forall b', b' ∈ bs -> proper_bbox b') -> proper_bbox b ->
  acc_inv e bs -> acc_inv (update_collection_extent e (Some b) s t) (bs ++ [b]).
Proof.
  intros Hbs Hb Hinv. destruct bs as [|b0 bs].
  - simpl in *. unfold update_collection_extent. rewrite Hinv. simpl.
    split; [exact Hb | apply is_union_of_single; exact Hb].
  - change (proper_bbox (spatial e) /\ is_union_of (spatial e) (b0 :: bs)) in Hinv.
    destruct Hinv as [Hp Hu].
    change (proper_bbox (spatial (update_collection_extent e (Some b) s t)) /\
            is_union_of (spatial (update_collection_extent e (Some b) s t)) ((b0 :: bs) ++ [b])).
    unfold update_collection_extent. simpl spatial.
    rewrite ne_self. destruct Hp as (P0 & P1 & P2 & P3). rewrite P0. simpl.
    split.
    + destruct Hb as (H0 & H1 & H2 & H3).
      repeat split; simpl; auto using min_nan, max_nan.
    + apply (is_union_of_snoc _ _ (b0 :: bs)); auto.
Qed.

Lemma acc_inv_fold (so eo : option datetime) (items : list contribution) :
  (forall b, b ∈ boxes_of items -> proper_bbox b) ->
  acc_inv (fold_extent (fresh_extent so eo) items) (boxes_of items).
Proof.
  induction items as [|c items IH] using rev_ind; intros Hp.
  - reflexivity.
  - rewrite boxes_of_snoc in *. rewrite fold_extent_snoc.
    assert (forall b, b ∈ boxes_of items -> proper_bbox b) as Hp'.
    { intros b Hb. apply Hp. apply elem_of_app. auto. }
    specialize (IH Hp'). destruct (c.1.1) as [b|] eqn:Eb; simpl.
    + apply acc_inv_step; auto. apply Hp. apply elem_of_app. right.
      apply list_elem_of_singleton. reflexivity.
    + rewrite app_nil_r. unfold acc_inv in *. rewrite update_null_bbox. exact IH.
Qed.

(** One more proper bbox folded into a non-placeholder accumulator gives a
    bbox that contains the accumulator. *)
Lemma update_contains (e : Extent) (box : option bbox) (s t : option datetime) :
  proper_bbox (spatial e) -> (forall b, box = Some b -> proper_bbox b) ->
  bbox_contains (spatial (update_collection_extent e box s t)) (spatial e).
Proof.
  intros (P0 & P1 & P2 & P3) Hb. destruct box as [b|].
  - destruct (Hb b eq_refl) as (H0 & H1 & H2 & H3).
    unfold update_collection_extent. simpl spatial. rewrite ne_self, P0. simpl.
    repeat split; simpl; auto using min_le_l, max_ge_l.
  - rewrite update_null_bbox. repeat split; apply le_refl; auto.
Qed.

Lemma update_widens (e : Extent) (box : option bbox) (s t : option datetime) :
  interval_widens (temporal e) (temporal (update_collection_extent e box s t)).
Proof.
  unfold update_collection_extent, interval_widens. simpl. split; intros u Hu; rewrite Hu.
  - destruct (ensure_utc s) as [s'|]; [|exists u; split; [reflexivity|lia]].
    unfold dt_lt. destruct (Z.ltb_spec (dt_instant s') (dt_instant u)).
    + exists s'. split; [reflexivity|lia].
    + exists u. split; [reflexivity|lia].
  - destruct (ensure_utc t) as [t'|]; [|exists u; split; [reflexivity|lia]].
    unfold dt_lt. destruct (Z.ltb_spec (dt_instant u) (dt_instant t')).
    + exists t'. split; [reflexivity|lia].
    + exists u. split; [reflexivity|lia].
Qed.

(** C2 (as amended): for optional bounding boxes without NaN coordinates
    folded into a fresh accumulator, the collection bbox is the placeholder
    when every box is null and otherwise the coordinate-wise
    (min, min, max, max) over exactly the non-null boxes; one more such box
    gives a bbox containing the previous one, and the time interval only
    widens. *)
Theorem extent_accumulator_union_monotone
    (so eo : option datetime) (items : list contribution) (c : contribution) :
  (forall b, b ∈ boxes_of (items ++ [c]) -> proper_bbox b) ->
  (boxes_of items = [] ->
     spatial (fold_extent (fresh_extent so eo) items) = placeholder_bbox) /\
  (boxes_of items <> [] ->
     is_union_of (spatial (fold_extent (fresh_extent so eo) items)) (boxes_of items)) /\
  (boxes_of (items ++ [c]) <> [] ->
     is_union_of (spatial (fold_extent (fresh_extent so eo) (items ++ [c])))
                 (boxes_of (items ++ [c]))) /\
  (boxes_of items <> [] ->
     bbox_contains (spatial (fold_extent (fresh_extent so eo) (items ++ [c])))
                   (spatial (fold_extent (fresh_extent so eo) items))) /\
  interval_widens (temporal (fold_extent (fresh_extent so eo) items))
                  (temporal (fold_extent (fresh_extent so eo) (items ++ [c]))).
Proof.
  intros Hp.
  assert (forall b, b ∈ boxes_of items -> proper_bbox b) as Hp0.
  { intros b Hb. apply Hp. rewrite boxes_of_snoc. apply elem_of_app. auto. }
  pose proof (acc_inv_fold so eo items Hp0) as Hinv.
  pose proof (acc_inv_fold so eo (items ++ [c]) Hp) as Hinv'.
  split; [|split; [|split; [|split]]].
  - intros E. rewrite E in Hinv. exact Hinv.
  - intros E. destruct (boxes_of items); [congruence|]. apply Hinv.
  - intros E. destruct (boxes_of (items ++ [c])); [congruence|]. apply Hinv'.
  - intros E. rewrite fold_extent_snoc. apply update_contains.
    + destruct (boxes_of items); [congruence|]. apply Hinv.
    + intros b Eb. apply Hp. rewrite boxes_of_snoc, Eb. apply elem_of_app. right.
      apply list_elem_of_singleton. reflexivity.
  - rewrite fold_extent_snoc. apply update_widens.
Qed.

End ExtentAccumulator.

(** ** Strings *)

Section StringFacts.
Import PyStr.

Lemma strip_prefix_spec (p s r : string) :
  strip_prefix p s = Some r <-> s = p +:+ r.
Proof.
  revert s. induction p as [|a p IH]; intros s; simpl.
  - split; congruence.
  - destruct s as [|b s].
    + split; discriminate.
    + destruct (Ascii.eqb_spec a b) as [->|Hne].
      * rewrite IH. split; congruence.
      * split; [discriminate|]. intros H. congruence.
Qed.

Lemma startswith_spec (s p : string) :
  startswith s p = true <-> exists r, s = p +:+ r.
Proof.
  unfold startswith. destruct (strip_prefix p s) as [r|] eqn:E.
  - apply strip_prefix_spec in E. split; eauto.
  - split; [discriminate|]. intros [r Hr]. apply strip_prefix_spec in Hr. congruence.
Qed.

Lemma partition_char_spec (c : ascii) (s x y : string) :
  partition_char c s = Some (x, y) <->
  s = x +:+ String c y /\ contains_char c x = false.
Proof.
  revert x. induction s as [|a s IH]; intros x; simpl.
  - split; [discriminate|]. intros [H _]. destruct x; discriminate.
  - destruct (Ascii.eqb_spec a c) as [->|Hne].
    + split.
      * intros [= <- <-]. auto.
      * intros [H Hx]. destruct x as [|b x]; simpl in *.
        -- congruence.
        -- injection H as <- _. rewrite Ascii.eqb_refl in Hx. discriminate.
    + destruct (partition_char c s) as [[x' y']|] eqn:E.
      * split.
        -- intros [= <- <-]. destruct (proj1 (IH x') eq_refl) as [-> Hx].
           simpl. split; [reflexivity|]. rewrite Hx.
           destruct (Ascii.eqb_spec a c); [contradiction|reflexivity].
        -- intros [H Hx]. destruct x as [|b x]; simpl in *; [congruence|].
           injection H as <- H. apply orb_false_iff in Hx as [_ Hx].
           pose proof (proj2 (IH x) (conj H Hx)) as [= -> ->]. reflexivity.
      * split; [discriminate|]. intros [H Hx].
        destruct x as [|b x]; simpl in *; [congruence|].
        injection H as <- H. apply orb_false_iff in Hx as [_ Hx].
        pose proof (proj2 (IH x) (conj H Hx)). discriminate.
Qed.

Lemma partition_char_none (c : ascii) (s : string) :
  partition_char c s = None <-> contains_char c s = false.
Proof.
  induction s as [|a s IH]; simpl; [tauto|].
  destruct (Ascii.eqb_spec a c); simpl.
  - split; discriminate.
  - destruct (partition_char c s) as [[x y]|].
    + split; [discriminate|]. intros H. apply IH in H. discriminate.
    + tauto.
Qed.

Lemma contains_char_count (c : ascii) (s : string) :
  contains_char c s = true <-> (1 <= count_char c s)%nat.
Proof.
  induction s as [|a s IH]; simpl.
  - split; [discriminate | lia].
  - destruct (Ascii.eqb a c); simpl; [split; [lia | reflexivity] | exact IH].
Qed.

Lemma count_char_sep (c : ascii) (x y : string) :
  (1 <= count_char c (x +:+ String c y))%nat.
Proof.
  induction x as [|a x IH]; simpl.
  - rewrite Ascii.eqb_refl. lia.
  - destruct (Ascii.eqb a c); lia.
Qed.

Lemma rfind_none (c : ascii) (s : string) :
  contains_char c s = false -> rfind c s = None.
Proof.
  induction s as [|a s IH]; simpl; [reflexivity|].
  intros H. apply orb_false_iff in H as [Ha Hs]. rewrite (IH Hs), Ha. reflexivity.
Qed.

Lemma rfind_last (c : ascii) (x y : string) :
  contains_char c y = false -> rfind c (x +:+ String c y) = Some (String.length x).
Proof.
  intros Hy. induction x as [|a x IH]; simpl.
  - rewrite (rfind_none _ _ Hy), Ascii.eqb_refl. reflexivity.
  - rewrite IH. reflexivity.
Qed.

Lemma substring_prefix (x z : string) : substring 0 (String.length x) (x +:+ z) = x.
Proof.
  induction x as [|a x IH]; simpl.
  - destruct z; reflexivity.
  - rewrite IH. reflexivity.
Qed.

Lemma length_append (x z : string) :
  String.length (x +:+ z) = (String.length x + String.length z)%nat.
Proof. induction x as [|a x IH]; simpl; [reflexivity|]. rewrite IH. reflexivity. Qed.

Lemma append_assoc (x y z : string) : (x +:+ y) +:+ z = x +:+ (y +:+ z).
Proof. induction x as [|c x IH]; simpl; [reflexivity | rewrite IH; reflexivity]. Qed.

Lemma append_nil_r (x : string) : x +:+ "" = x.
Proof. induction x as [|c x IH]; simpl; [reflexivity | rewrite IH; reflexivity]. Qed.

(** The stem of [base.ext] is [base]. *)
Lemma name_stem_extension (base ext : string) :
  base <> EmptyString -> ext <> EmptyString -> contains_char "." ext = false ->
  name_stem (base +:+ "." +:+ ext) = base.
Proof.
  intros Hb He Hd. unfold name_stem.
  change (base +:+ "." +:+ ext) with (base +:+ String "." ext).
  rewrite (rfind_last _ _ _ Hd), length_append. simpl String.length.
  destruct base as [|a base]; [congruence|]. destruct ext as [|e ext]; [congruence|].
  simpl String.length.
  assert ((0 <? S (String.length base))%nat &&
          (S (String.length base) <? S (String.length base) + S (S (String.length ext)) - 1)%nat
          = true) as ->.
  { apply andb_true_iff. split; apply Nat.ltb_lt; lia. }
  apply (substring_prefix (String a base)).
Qed.

End StringFacts.

(** ** Partition coordinates *)

Section Partitions.
Import PyStr.

Lemma is_partition_segment_entry (segment : string) :
  is_partition_segment segment = true <-> exists key value, partition_entry segment key value.
Proof.
  unfold is_partition_segment, split1, partition_entry.
  destruct (partition_char "=" segment) as [[x y]|] eqn:E.
  - apply partition_char_spec in E as [-> Hx]. split.
    + intros H. apply andb_true_iff in H as [_ H]. simpl in H.
      exists x, y. repeat split; auto. intros ->. discriminate.
    + intros H. apply andb_true_iff. split.
      * apply contains_char_count. apply count_char_sep.
      * simpl. destruct x; [|reflexivity].
        exfalso. clear -H. destruct H as (k & v & H & Hk & Hc).
        destruct k; [congruence|]. simpl in *. injection H as <- _. discriminate.
  - apply partition_char_none in E. rewrite E. simpl. split; [discriminate|].
    intros (k & v & -> & _ & _). exfalso. clear -E.
    induction k as [|a k IH]; simpl in *; [discriminate|].
    apply orb_false_iff in E as [_ E]. auto.
Qed.

Lemma parse_partitions_snoc (p : path) (segment : string) :
  parse_partitions (p ++ [segment]) =
  if is_partition_segment segment then
    match split1 "=" segment with
    | [key; value] => dict_set key value (parse_partitions p)
    | _ => parse_partitions p
    end
  else parse_partitions p.
Proof. unfold parse_partitions. rewrite fold_left_app. reflexivity. Qed.

Lemma partition_entry_split (segment key value : string) :
  partition_entry segment key value -> split1 "=" segment = [key; value].
Proof.
  intros (-> & _ & Hc). unfold split1.
  rewrite (proj2 (partition_char_spec "=" (key +:+ "=" +:+ value) key value)); auto.
Qed.

(** C9 (as amended): a path segment yields a coordinate pair exactly when it
    has an [=] with a non-empty text before the first one; the key is the
    text before the first [=] and the value everything after it; any other
    segment, one without [=] included, is passed over and nothing is
    raised. *)
Theorem parse_partitions_entries (p : path) (segment : string) :
  parse_partitions [] = [] /\
  (forall key value, partition_entry segment key value ->
     is_partition_segment segment = true /\
     parse_partitions (p ++ [segment]) = dict_set key value (parse_partitions p)) /\
  (count_char "=" segment = O \/ startswith segment "=" = true ->
     is_partition_segment segment = false /\
     parse_partitions (p ++ [segment]) = parse_partitions p) /\
  (is_partition_segment segment = true ->
     (1 <= count_char "=" segment)%nat /\ startswith segment "=" = false).
Proof.
  split; [reflexivity|]. split; [|split].
  - intros key value He.
    assert (is_partition_segment segment = true) as Hs.
    { apply is_partition_segment_entry. eauto. }
    split; [exact Hs|]. rewrite parse_partitions_snoc, Hs.
    rewrite (partition_entry_split _ _ _ He). reflexivity.
  - intros H.
    assert (is_partition_segment segment = false) as Hs.
    { destruct (is_partition_segment segment) eqn:E; [|reflexivity]. exfalso.
      apply is_partition_segment_entry in E as (k & v & -> & Hk & Hc).
      destruct H as [H | H].
      - pose proof (count_char_sep "=" k v) as Hn. simpl in H. lia.
      - destruct k as [|a k]; [congruence|]. simpl in Hc.
        apply orb_false_iff in Hc as [Ha _].
        apply startswith_spec in H as [r Hr]. injection Hr as -> _.
        rewrite Ascii.eqb_refl in Ha. discriminate. }
    split; [exact Hs|]. rewrite parse_partitions_snoc, Hs. reflexivity.
  - intros E. apply is_partition_segment_entry in E as (k & v & -> & Hk & Hc). split.
    + apply count_char_sep.
    + destruct k as [|a k]; [congruence|]. simpl in Hc.
      apply orb_false_iff in Hc as [Ha _].
      destruct (startswith (String a k +:+ "=" +:+ v) "=") eqn:E; [|reflexivity].
      apply startswith_spec in E as [r Hr]. injection Hr as -> _.
      rewrite Ascii.eqb_refl in Ha. discriminate.
Qed.

End Partitions.

(** ** Item identifiers *)

Section ItemIdentifiers.
Import PyStr.
Context `{uni : Unicode}.

Lemma dict_mem_get {V : Type} (k : string) (d : dict V) :
  dict_mem k d = true <-> exists v, dict_get k d = Some v.
Proof.
  unfold dict_mem. destruct (dict_get k d); split; eauto; try discriminate.
  intros [v Hv]. discriminate.
Qed.

Lemma dict_mem_none {V : Type} (k : string) (d : dict V) :
  dict_mem k d = false <-> dict_get k d = None.
Proof. unfold dict_mem. destruct (dict_get k d); split; congruence. Qed.

(** *** Lower-casing *)

Lemma lower_of_ascii (s : string) : isascii s = true -> lower s = ascii_lower s.
Proof.
  intros Hs. destruct (lower_ascii_prefix s EmptyString Hs) as (t & E & Ht).
  rewrite append_nil_r in E. rewrite E, (Ht eq_refl), append_nil_r. reflexivity.
Qed.

Lemma isascii_app (p s : string) : isascii (p +:+ s) = isascii p && isascii s.
Proof.
  induction p as [|c p IH]; simpl; [reflexivity|]. rewrite IH, andb_assoc. reflexivity.
Qed.

Lemma replace_char_app (a b : ascii) (p s : string) :
  replace_char a b (p +:+ s) = replace_char a b p +:+ replace_char a b s.
Proof. induction p as [|c p IH]; simpl; [reflexivity | rewrite IH; reflexivity]. Qed.

Lemma isascii_replace_char (a b : ascii) (s : string) :
  (nat_of_ascii b < 128)%nat -> isascii s = true -> isascii (replace_char a b s) = true.
Proof.
  intros Hb. induction s as [|c s IH]; simpl; [reflexivity|].
  intros H. apply andb_true_iff in H as [Hc Hs]. rewrite (IH Hs), andb_true_r.
  destruct (Ascii.eqb c a); [apply Nat.ltb_lt; exact Hb | exact Hc].
Qed.

Lemma ascii_lower_length (s : string) : String.length (ascii_lower s) = String.length s.
Proof. induction s as [|c s IH]; simpl; [reflexivity | rewrite IH; reflexivity]. Qed.

Lemma replace_char_length (a b : ascii) (s : string) :
  String.length (replace_char a b s) = String.length s.
Proof. induction s as [|c s IH]; simpl; [reflexivity | rewrite IH; reflexivity]. Qed.

(** The character at a place of a stem after [replace(".", "-")] and the
    lower-casing of ASCII text. *)
Lemma hyphenated_lower_get (s : string) (i : nat) (c : ascii) :
  String.get i s = Some c ->
  String.get i (ascii_lower (replace_char "." "-" s))
    = Some (if Ascii.eqb c "." then "-"%char else lower_ascii c).
Proof.
  revert i. induction s as [|a s IH]; intros i; [destruct i; discriminate|].
  destruct i as [|i]; simpl.
  - intros [= ->]. destruct (Ascii.eqb c "."); reflexivity.
  - apply IH.
Qed.

(** C3: with all of year, month, day and hour among the partition
    coordinates the id is [{year}{month}{day}T{hour}]; otherwise it is the
    file name without its extension (its stem), dots turned into hyphens,
    lower-cased: for a stem of ASCII characters it has the length of the
    stem, a hyphen where the stem has a dot and everywhere else the
    character of the stem, a letter A-Z as the letter a-z, and of any stem
    the ASCII text it starts with is treated so in place;
    records with the same coordinates (and, short of the four coordinates,
    the same file name) get the same id; the path
    [.../year=2025/month=01/day=02/hour=03/data.parquet] gives
    [20250102T03], and a file [Winds.2025.PARQUET] outside the partition
    layout gives [winds-2025]. *)
Theorem make_item_id_spec (record : AssetRecord) :
  (forall y m d h,
     dict_get "year" (partitions record) = Some y ->
     dict_get "month" (partitions record) = Some m ->
     dict_get "day" (partitions record) = Some d ->
     dict_get "hour" (partitions record) = Some h ->
     make_item_id record = y +:+ m +:+ d +:+ "T" +:+ h) /\
  (dict_get "year" (partitions record) = None \/
   dict_get "month" (partitions record) = None \/
   dict_get "day" (partitions record) = None \/
   dict_get "hour" (partitions record) = None ->
     make_item_id record =
       lower (replace_char "." "-" (name_stem (path_name (relative_path record)))) /\
     (isascii (name_stem (path_name (relative_path record))) = true ->
        String.length (make_item_id record)
          = String.length (name_stem (path_name (relative_path record))) /\
        forall i c,
          String.get i (name_stem (path_name (relative_path record))) = Some c ->
          String.get i (make_item_id record)
            = Some (if Ascii.eqb c "." then "-"%char else lower_ascii c)) /\
     (forall p s,
        name_stem (path_name (relative_path record)) = p +:+ s -> isascii p = true ->
        exists t, make_item_id record = ascii_lower (replace_char "." "-" p) +:+ t)) /\
  (forall record',
     partitions record' = partitions record ->
     (forallb (fun k => dict_mem k (partitions record)) ["year"; "month"; "day"; "hour"] = true \/
      path_name (relative_path record') = path_name (relative_path record)) ->
     make_item_id record' = make_item_id record) /\
  (forall base ext,
     base <> EmptyString -> ext <> EmptyString -> contains_char "." ext = false ->
     name_stem (base +:+ "." +:+ ext) = base) /\
  (forall p box s e n g,
     p = PurePosixPath "out/year=2025/month=01/day=02/hour=03/data.parquet" ->
     make_item_id (mkAssetRecord p (parse_partitions p) box s e n g) = "20250102T03") /\
  (forall p box s e n g,
     p = PurePosixPath "exports/Winds.2025.PARQUET" ->
     make_item_id (mkAssetRecord p (parse_partitions p) box s e n g) = "winds-2025").
Proof.
  split; [|split; [|split; [|split; [|split]]]].
  - intros y m d h Hy Hm Hd Hh. unfold make_item_id. simpl forallb.
    unfold dict_mem. rewrite Hy, Hm, Hd, Hh. reflexivity.
  - intros H.
    assert (make_item_id record =
            lower (replace_char "." "-" (name_stem (path_name (relative_path record)))))
      as E.
    { unfold make_item_id. simpl forallb.
      assert (dict_mem "year" (partitions record) && (dict_mem "month" (partitions record) &&
              (dict_mem "day" (partitions record) && (dict_mem "hour" (partitions record) && true)))
              = false) as ->; [|reflexivity].
      unfold dict_mem. destruct H as [-> | [-> | [-> | ->]]];
        repeat (destruct (dict_get _ _)); reflexivity. }
    split; [exact E|]. rewrite E. split.
    + intros Ha.
      rewrite lower_of_ascii by (apply isascii_replace_char; [apply Nat.ltb_lt; reflexivity | exact Ha]).
      split; [rewrite ascii_lower_length, replace_char_length; reflexivity|].
      intros i c. apply hyphenated_lower_get.
    + intros p s Hp Ha. rewrite Hp, replace_char_app.
      destruct (lower_ascii_prefix (replace_char "." "-" p) (replace_char "." "-" s))
        as (t & Et & _).
      { apply isascii_replace_char; [apply Nat.ltb_lt; reflexivity | exact Ha]. }
      exists t. exact Et.
  - intros record' Hp H. unfold make_item_id. rewrite Hp.
    destruct H as [H | H].
    + rewrite H. reflexivity.
    + unfold path_stem. rewrite H. reflexivity.
  - apply name_stem_extension.
  - intros p box s e n g ->. vm_compute. reflexivity.
  - intros p box s e n g ->. unfold make_item_id. simpl forallb. cbv iota.
    change (path_stem (relative_path
              (mkAssetRecord (PurePosixPath "exports/Winds.2025.PARQUET")
                 (parse_partitions (PurePosixPath "exports/Winds.2025.PARQUET")) box s e n g)))
      with "Winds.2025".
    rewrite lower_of_ascii by reflexivity. reflexivity.
Qed.

End ItemIdentifiers.

(** ** Plot classification *)

Section PlotClassification.
Import PyStr.
Context `{lib : Library}.




(** Whatever [match_variogram] accepts has one of the two shapes. *)
Lemma match_variogram_shape (name c : string) (variant : bool) :
  match_variogram name = Some (c, variant) ->
  (c = "u" \/ c = "v") /\
  exists rest,
    name = "variogram_" +:+ c +:+ (if variant then "_rkt_empirical_" else "_empirical_") +:+ rest.
Proof.
  unfold match_variogram.
  destruct (strip_prefix "variogram_" name) as [[|a s]|] eqn:E; try discriminate.
  apply strip_prefix_spec in E. subst name.
  destruct (Ascii.eqb a "u" || Ascii.eqb a "v") eqn:Ea; [|discriminate].
  assert (String a "" = "u" \/ String a "" = "v") as Hc.
  { apply orb_true_iff in Ea as [Ea | Ea]; apply Ascii.eqb_eq in Ea; subst; auto. }
  destruct (strip_prefix "_rkt" s) as [s'|] eqn:Es.
  - apply strip_prefix_spec in Es. subst s.
    destruct (startswith s' "_empirical_") eqn:E1.
    + intros [= <- <-]. split; [exact Hc|].
      apply startswith_spec in E1 as [r ->]. exists r. reflexivity.
    + destruct (startswith ("_rkt" +:+ s') "_empirical_") eqn:E2; [|discriminate].
      intros [= <- <-]. split; [exact Hc|].
      apply startswith_spec in E2 as [r Hr]. exists r. rewrite Hr. reflexivity.
  - destruct (startswith s "_empirical_") eqn:E2; [|discriminate].
    intros [= <- <-]. split; [exact Hc|].
    apply startswith_spec in E2 as [r ->]. exists r. reflexivity.
Qed.




End PlotClassification.

(** ** Dictionaries *)

Section Dictionaries.
Context {V : Type}.

Lemma dict_get_set_eq (k : string) (v : V) (d : dict V) :
  dict_get k (dict_set k v d) = Some v.
Proof.
  induction d as [|[k' v'] d IH]; simpl.
  - rewrite String.eqb_refl. reflexivity.
  - destruct (String.eqb k' k) eqn:E; simpl; rewrite E; auto.
Qed.

Lemma dict_get_set_ne (k k' : string) (v : V) (d : dict V) :
  k <> k' -> dict_get k' (dict_set k v d) = dict_get k' d.
Proof.
  intros Hne. induction d as [|[k0 v0] d IH]; simpl.
  - destruct (String.eqb_spec k k'); [contradiction | reflexivity].
  - destruct (String.eqb_spec k0 k) as [->|Hk]; simpl.
    + destruct (String.eqb_spec k k'); [contradiction | reflexivity].
    + destruct (String.eqb_spec k0 k'); auto.
Qed.

Lemma dict_get_set (k k' : string) (v : V) (d : dict V) :
  dict_get k' (dict_set k v d) = if String.eqb k k' then Some v else dict_get k' d.
Proof.
  destruct (String.eqb_spec k k') as [->|Hne].
  - apply dict_get_set_eq.
  - apply dict_get_set_ne. exact Hne.
Qed.

Lemma dict_get_elem (k : string) (v : V) (d : dict V) :
  dict_get k d = Some v -> (k, v) ∈ d.
Proof.
  induction d as [|[k' v'] d IH]; simpl; [discriminate|].
  destruct (String.eqb_spec k' k) as [->|Hne].
  - intros [= ->]. apply list_elem_of_here.
  - intros H. apply list_elem_of_further. auto.
Qed.

Lemma dict_get_none_keys (k : string) (d : dict V) :
  existsb (String.eqb k) (dict_keys d) = false -> dict_get k d = None.
Proof.
  induction d as [|[k' v'] d IH]; simpl; [reflexivity|].
  intros H. apply orb_false_iff in H as [H1 H2].
  rewrite String.eqb_sym, H1. auto.
Qed.

Lemma dict_elem_get (k : string) (v : V) (d : dict V) :
  distinct_keys (dict_keys d) = true -> (k, v) ∈ d -> dict_get k d = Some v.
Proof.
  induction d as [|[k' v'] d IH]; simpl; intros Hd Hin.
  - apply elem_of_nil in Hin. destruct Hin.
  - apply andb_true_iff in Hd as [Hk Hd]. apply negb_true_iff in Hk.
    apply elem_of_cons in Hin as [[= -> ->] | Hin].
    + rewrite String.eqb_refl. reflexivity.
    + destruct (String.eqb_spec k' k) as [->|Hne]; [|auto].
      apply IH in Hin; [|exact Hd]. rewrite (dict_get_none_keys _ _ Hk) in Hin. discriminate.
Qed.

End Dictionaries.

(** ** The override merger *)

Section OverrideMerger.

Lemma merged_value_eq (current : option json) (value : json) :
  merged_value current value =
  match current, value with
  | Some (JObj base), JObj extra => JObj (deep_merge_dict base extra)
  | _, _ => value
  end.
Proof.
  destruct value as [| | | | | |extra]; try (destruct current as [[]|]; reflexivity).
  destruct current as [[| | | | | |base]|]; try reflexivity.
  simpl. f_equal. unfold deep_merge_dict. revert base.
  induction extra as [|[k v] extra IH]; intros base; simpl; [reflexivity|].
  apply IH.
Qed.

Lemma deep_merge_dict_cons (base extra : dict json) (key : string) (value : json) :
  deep_merge_dict base ((key, value) :: extra) =
  deep_merge_dict (dict_set key (merged_value (dict_get key base) value) base) extra.
Proof. reflexivity. Qed.

(** A key the override does not mention keeps its value. *)
Lemma deep_merge_dict_get_other (base extra : dict json) (key : string) :
  dict_get key extra = None ->
  dict_get key (deep_merge_dict base extra) = dict_get key base.
Proof.
  revert base. induction extra as [|[k v] extra IH]; intros base H; [reflexivity|].
  simpl in H. destruct (String.eqb_spec k key) as [->|Hne]; [discriminate|].
  rewrite deep_merge_dict_cons, IH by exact H.
  apply dict_get_set_ne. exact Hne.
Qed.

Lemma deep_merge_dict_get (base extra : dict json) (key : string) :
  distinct_keys (dict_keys extra) = true ->
  dict_get key (deep_merge_dict base extra) =
  match dict_get key extra with
  | Some value => Some (merged_value (dict_get key base) value)
  | None => dict_get key base
  end.
Proof.
  revert base. induction extra as [|[k v] extra IH]; intros base Hd; [reflexivity|].
  simpl in Hd. apply andb_true_iff in Hd as [Hk Hd]. apply negb_true_iff in Hk.
  rewrite deep_merge_dict_cons.
  change (dict_get key ((k, v) :: extra))
    with (if String.eqb k key then Some v else dict_get key extra).
  destruct (String.eqb_spec k key) as [->|Hne].
  - rewrite deep_merge_dict_get_other by (apply dict_get_none_keys; exact Hk).
    apply dict_get_set_eq.
  - rewrite IH by exact Hd. rewrite dict_get_set_ne by exact Hne. reflexivity.
Qed.

(** C6: at a key of both trees whose two values are maps the merge
    recurses; at any other key of the override its value replaces the
    generated one, an array included; a key the override lacks keeps the
    generated value; and [{"properties": {"x": 1}}] merged into
    [{"properties": {"row_count": 10}}] gives
    [{"properties": {"row_count": 10, "x": 1}}]. *)
Theorem deep_merge_dict_spec (base extra : dict json) (key : string) :
  distinct_keys (dict_keys extra) = true ->
  (forall b e,
     dict_get key base = Some (JObj b) -> dict_get key extra = Some (JObj e) ->
     dict_get key (deep_merge_dict base extra) = Some (JObj (deep_merge_dict b e))) /\
  (forall value,
     dict_get key extra = Some value ->
     (forall b e, ~ (dict_get key base = Some (JObj b) /\ value = JObj e)) ->
     dict_get key (deep_merge_dict base extra) = Some value) /\
  (forall items,
     dict_get key extra = Some (JArr items) ->
     dict_get key (deep_merge_dict base extra) = Some (JArr items)) /\
  (dict_get key extra = None ->
     dict_get key (deep_merge_dict base extra) = dict_get key base) /\
  deep_merge_dict [("properties", JObj [("row_count", JInt 10)])]
                  [("properties", JObj [("x", JInt 1)])] =
    [("properties", JObj [("row_count", JInt 10); ("x", JInt 1)])].
Proof.
  intros Hd. split; [|split; [|split; [|split]]].
  - intros b e Hb He. rewrite deep_merge_dict_get, He, Hb by exact Hd.
    rewrite merged_value_eq. reflexivity.
  - intros value He Hn. rewrite deep_merge_dict_get, He by exact Hd.
    rewrite merged_value_eq.
    destruct (dict_get key base) as [[| | | | | |b]|]; try reflexivity.
    destruct value as [| | | | | |e]; try reflexivity.
    destruct (Hn b e). auto.
  - intros items He. rewrite deep_merge_dict_get, He by exact Hd.
    rewrite merged_value_eq. destruct (dict_get key base) as [[]|]; reflexivity.
  - apply deep_merge_dict_get_other.
  - reflexivity.
Qed.

End OverrideMerger.

(** ** Asset hrefs across an override *)

Section AssetHrefs.

Lemma dict_wf_distinct (d : dict json) :
  dict_wf d = true -> distinct_keys (dict_keys d) = true.
Proof. unfold dict_wf. simpl. intros H. apply andb_true_iff in H as [H _]. exact H. Qed.

Lemma dict_wf_member (d : dict json) (k : string) (v : json) :
  dict_wf d = true -> (k, v) ∈ d -> json_wf v = true.
Proof.
  unfold dict_wf. simpl. intros H. apply andb_true_iff in H as [_ H]. revert H.
  induction d as [|[k' v'] d IH]; intros H Hin.
  - apply elem_of_nil in Hin. destruct Hin.
  - apply andb_true_iff in H as [Hv Hd].
    apply elem_of_cons in Hin as [[= -> ->] | Hin]; auto.
Qed.

Lemma dict_wf_get (d m : dict json) (k : string) :
  dict_wf d = true -> dict_get k d = Some (JObj m) -> dict_wf m = true.
Proof.
  intros Hd Hg. apply dict_get_elem in Hg. apply (dict_wf_member d k (JObj m) Hd Hg).
Qed.

Lemma dict_set_elem {V : Type} (k k' : string) (v v' : V) (d : dict V) :
  (k', v') ∈ dict_set k v d -> (k', v') = (k, v) \/ (k', v') ∈ d.
Proof.
  induction d as [|[k0 v0] d IH]; simpl.
  - intros H. apply list_elem_of_singleton in H. auto.
  - destruct (String.eqb_spec k0 k) as [->|Hne]; intros H.
    + apply elem_of_cons in H as [H | H]; [auto|].
      right. apply list_elem_of_further. exact H.
    + apply elem_of_cons in H as [H | H].
      * right. rewrite H. apply list_elem_of_here.
      * destruct (IH H) as [? | ?]; [auto|]. right. apply list_elem_of_further. assumption.
Qed.

(** The href table of an item whose assets are dictionaries. *)
Lemma original_asset_hrefs_ok (base_dict assets : dict json) :
  dict_get "assets" base_dict = Some (JObj assets) ->
  values_are_dicts assets = true ->
  exists hrefs,
    original_asset_hrefs base_dict = Ok hrefs /\
    forall k h, (k, h) ∈ hrefs ->
      exists a, (k, JObj a) ∈ assets /\ h = default JNull (dict_get "href" a).
Proof.
  intros Ha Hv. unfold original_asset_hrefs. rewrite Ha. simpl.
  assert (forall acc : dict json,
            (forall k h, (k, h) ∈ acc ->
               exists a, (k, JObj a) ∈ assets /\ h = default JNull (dict_get "href" a)) ->
            forall rest, (forall e, e ∈ rest -> e ∈ assets) ->
            values_are_dicts rest = true ->
            exists hrefs,
              for_each
                (fun (hrefs : dict json) (entry : string * json) =>
                   match entry.2 with
                   | JObj a => Ok (dict_set entry.1 (default JNull (dict_get "href" a)) hrefs)
                   | _ => Raise "AttributeError"
                   end) rest acc = Ok hrefs /\
              forall k h, (k, h) ∈ hrefs ->
                exists a, (k, JObj a) ∈ assets /\ h = default JNull (dict_get "href" a)) as Hloop.
  { intros acc Hacc rest. revert acc Hacc.
    induction rest as [|[k v] rest IH]; intros acc Hacc Hsub Hd; simpl.
    - exists acc. auto.
    - simpl in Hd. apply andb_true_iff in Hd as [Hk Hd].
      destruct v as [| | | | | |a]; try discriminate. simpl.
      apply IH; [| |exact Hd].
      + intros k' h' Hin. apply dict_set_elem in Hin as [[= -> ->] | Hin]; [|auto].
        exists a. split; [|reflexivity]. apply Hsub. apply list_elem_of_here.
      + intros e He. apply Hsub. apply list_elem_of_further. exact He. }
  apply Hloop; auto. intros k h Hin. apply elem_of_nil in Hin. destruct Hin.
Qed.

Lemma for_each_unchanged {A S : Type} (body : S -> A -> outcome S) (l : list A) (s : S) :
  (forall x, x ∈ l -> body s x = Ok s) -> for_each body l s = Ok s.
Proof.
  induction l as [|x l IH]; intros H; simpl; [reflexivity|].
  rewrite H by apply list_elem_of_here. simpl. apply IH.
  intros y Hy. apply H. apply list_elem_of_further. exact Hy.
Qed.

Lemma deep_merge_dict_keeps_keys (base extra : dict json) (k : string) :
  dict_mem k base = true -> dict_mem k (deep_merge_dict base extra) = true.
Proof.
  revert base. induction extra as [|[k' v'] extra IH]; intros base H; [exact H|].
  rewrite deep_merge_dict_cons. apply IH. unfold dict_mem in *.
  rewrite dict_get_set. destruct (String.eqb k' k); [reflexivity | exact H].
Qed.

(** An asset that is a dictionary after the merge needs no repair: when it
    lacks an [href], so did the generated asset. *)
Lemma restore_href_noop (merged assets asset : dict json) (key : string) (href : json) :
  dict_get "assets" merged = Some (JObj assets) ->
  dict_get key assets = Some (JObj asset) ->
  dict_mem "href" asset = true \/ href = JNull ->
  restore_href merged (key, href) = Ok merged.
Proof.
  intros Ha Hk Hh. unfold restore_href. rewrite Ha. simpl.
  unfold dict_mem at 1. rewrite Hk. simpl.
  destruct (dict_mem "href" asset) eqn:E; [reflexivity|].
  destruct Hh as [Hh | ->]; [discriminate | reflexivity].
Qed.

(** C7: when the override's entry for an asset key is a map without
    [href], the merged item's asset of that key still carries the href that
    was generated. *)
Theorem override_keeps_asset_href
    (base_dict item_overrides assets_b assets_o asset_b asset_o : dict json)
    (key : string) (href : json) :
  dict_wf base_dict = true ->
  dict_wf item_overrides = true ->
  dict_get "assets" base_dict = Some (JObj assets_b) ->
  values_are_dicts assets_b = true ->
  dict_get key assets_b = Some (JObj asset_b) ->
  dict_get "href" asset_b = Some href ->
  dict_get "assets" item_overrides = Some (JObj assets_o) ->
  overridden_assets_are_dicts assets_b assets_o = true ->
  dict_get key assets_o = Some (JObj asset_o) ->
  dict_get "href" asset_o = None ->
  exists merged,
    apply_item_overrides base_dict item_overrides = Ok merged /\
    merged = deep_merge_dict base_dict item_overrides /\
    asset_href merged key = Some href.
Proof.
  intros Wb Wo Hab Hvb Hkb Hhb Hao Hvo Hko Hho.
  pose proof (dict_wf_distinct _ Wo) as Do.
  pose proof (dict_wf_distinct _ (dict_wf_get _ _ _ Wo Hao)) as Dao.
  pose proof (dict_wf_distinct _ (dict_wf_get _ _ _ Wb Hab)) as Dab.
  assert (dict_get "assets" (deep_merge_dict base_dict item_overrides) =
          Some (JObj (deep_merge_dict assets_b assets_o))) as Hm.
  { rewrite deep_merge_dict_get, Hao, Hab by exact Do. rewrite merged_value_eq. reflexivity. }
  exists (deep_merge_dict base_dict item_overrides). split; [|split; [reflexivity|]].
  - unfold apply_item_overrides.
    destruct (original_asset_hrefs_ok _ _ Hab Hvb) as (hrefs & -> & Hh). simpl.
    apply for_each_unchanged. intros [k h] Hin.
    destruct (Hh k h Hin) as (a & Ha & ->).
    pose proof (dict_elem_get _ _ _ Dab Ha) as Hga.
    assert (exists a', dict_get k (deep_merge_dict assets_b assets_o) = Some (JObj a') /\
                       (dict_mem "href" a' = true \/ default JNull (dict_get "href" a) = JNull))
      as (a' & Ha' & Hhref).
    { rewrite deep_merge_dict_get, Hga by exact Dao.
      assert (dict_mem "href" a = true \/ default JNull (dict_get "href" a) = JNull) as Hbase.
      { unfold dict_mem. destruct (dict_get "href" a); auto. }
      destruct (dict_get k assets_o) as [v|] eqn:Ev.
      - unfold overridden_assets_are_dicts in Hvo.
        rewrite forallb_forall in Hvo.
        specialize (Hvo (k, v)). simpl in Hvo.
        unfold dict_mem in Hvo at 1. rewrite Hga in Hvo. simpl in Hvo.
        assert (is_dict v = true) as Hv.
        { apply Hvo. apply list_elem_of_In. apply dict_get_elem. exact Ev. }
        destruct v as [| | | | | |ao]; try discriminate.
        rewrite merged_value_eq. exists (deep_merge_dict a ao). split; [reflexivity|].
        destruct Hbase as [Hbase | Hbase]; [|auto].
        left. apply deep_merge_dict_keeps_keys. exact Hbase.
      - exists a. auto. }
    apply (restore_href_noop _ _ _ _ _ Hm Ha' Hhref).
  - unfold asset_href. rewrite Hm.
    rewrite deep_merge_dict_get, Hko, Hkb by exact Dao. rewrite merged_value_eq.
    rewrite deep_merge_dict_get_other by exact Hho. exact Hhb.
Qed.

End AssetHrefs.

(** ** The fallback bounding-box scan *)

Section BboxScan.

Lemma num_rows_zero (pf : ParquetFile) :
  num_rows pf = O -> forall rg, rg ∈ row_groups pf -> rg = [].
Proof.
  unfold num_rows. induction (row_groups pf) as [|rg0 rgs IH]; intros H rg Hin.
  - apply elem_of_nil in Hin. destruct Hin.
  - rewrite fmap_cons in H. simpl in H. apply Nat.eq_add_0 in H as [H0 H1].
    apply elem_of_cons in Hin as [-> | Hin].
    + destruct rg0; [reflexivity | discriminate].
    + apply IH; [exact H1 | exact Hin].
Qed.

Lemma scan_empty_groups (lon_col lat_col : string) (rgs : list row_group)
    (acc : float * float * float * float) :
  (forall rg, rg ∈ rgs -> rg = []) ->
  fold_left (scan_step lon_col lat_col) rgs acc = acc.
Proof.
  induction rgs as [|rg rgs IH]; intros H; simpl; [reflexivity|].
  rewrite (H rg) by apply list_elem_of_here.
  destruct acc as [[[a b] c] d]. simpl. apply IH.
  intros rg' Hin. apply H. apply list_elem_of_further. exact Hin.
Qed.

(** C10: a file with longitude and latitude candidate columns and no row
    in any row group makes the scan return [None]; so neither the recorded
    bbox nor the collection accumulator receives the infinite sentinels. *)
Theorem scan_lon_lat_bbox_no_rows (pf : ParquetFile) (lon_col lat_col : string)
    (extent : Extent) (start end_ : option datetime) :
  List.find (in_schema pf) candidate_lon_cols = Some lon_col ->
  List.find (in_schema pf) candidate_lat_cols = Some lat_col ->
  num_rows pf = O ->
  scan_lon_lat_bbox pf = None /\
  resolve_bbox None pf = None /\
  spatial (update_collection_extent extent (resolve_bbox None pf) start end_) = spatial extent.
Proof.
  intros Hlon Hlat Hrows.
  assert (scan_lon_lat_bbox pf = None) as Hscan.
  { unfold scan_lon_lat_bbox. rewrite Hlon, Hlat.
    rewrite scan_empty_groups by (apply num_rows_zero; exact Hrows). reflexivity. }
  split; [exact Hscan|]. unfold resolve_bbox. rewrite Hscan. split; reflexivity.
Qed.

End BboxScan.

(** ** Temporal extent *)

Section TemporalExtent.
Context `{py : PyDatetime}.









Lemma normalise_utc_tz (d : datetime) : dt_tz (normalise_utc d) = utc.
Proof. unfold normalise_utc. destruct (dt_tz d); reflexivity. Qed.




End TemporalExtent.

(** ** The builder *)

Section Outcomes.

Lemma bind_ok {A B : Type} (m : outcome A) (f : A -> outcome B) (b : B) :
  (m ≫= f) = Ok b -> exists a, m = Ok a /\ f a = Ok b.
Proof. destruct m as [a| |]; simpl; intros E; try discriminate. eauto. Qed.

Lemma bind_Ok_l {A B : Type} (a : A) (f : A -> outcome B) : (Ok a ≫= f) = f a.
Proof. reflexivity. Qed.

Lemma for_each_app {A S : Type} (body : S -> A -> outcome S) (l1 l2 : list A) (s : S) :
  for_each body (l1 ++ l2) s = (for_each body l1 s ≫= for_each body l2).
Proof.
  revert s. induction l1 as [|x l1 IH]; intros s; simpl; [reflexivity|].
  destruct (body s x); simpl; auto.
Qed.

(** A property every round of a loop keeps holds when the loop is over. *)
Lemma for_each_invariant {A S : Type} (P : S -> Prop) (body : S -> A -> outcome S)
    (l : list A) (s s' : S) :
  (forall s x s', x ∈ l -> P s -> body s x = Ok s' -> P s') ->
  P s -> for_each body l s = Ok s' -> P s'.
Proof.
  revert s. induction l as [|x l IH]; intros s Hstep Hs E; simpl in E.
  - injection E as <-. exact Hs.
  - apply bind_ok in E as (s1 & E1 & E2). apply (IH s1); auto.
    + intros s0 y s0' Hy. apply Hstep. apply list_elem_of_further. exact Hy.
    + apply (Hstep s x s1); auto. apply list_elem_of_here.
Qed.

End Outcomes.

Ltac bind_inv H :=
  let x := fresh "x" in let E := fresh "E" in
  apply bind_ok in H as (x & E & H).

Section ItemIdentity.
Context `{lib : Library}.

Lemma item_id_set (key : string) (value : json) (item : Item) :
  key <> "id" -> item_id (dict_set key value item) = item_id item.
Proof. intros Hk. unfold item_id. rewrite dict_get_set_ne by exact Hk. reflexivity. Qed.

Lemma item_id_new_item (id : string) (geometry : json) (box : option bbox)
    (dt : option datetime) (properties : dict json) :
  item_id (new_item id geometry box dt properties) = JStr id.
Proof. reflexivity. Qed.

Lemma set_property_id (key : string) (value : json) (item item' : Item) :
  set_property key value item = Ok item' -> item_id item' = item_id item.
Proof.
  unfold set_property. destruct (dict_get "properties" item) as [[]|]; try discriminate.
  intros [= <-]. apply item_id_set. discriminate.
Qed.

Lemma setdefault_property_id (key : string) (value : json) (item item' : Item) :
  setdefault_property key value item = Ok item' -> item_id item' = item_id item.
Proof.
  unfold setdefault_property.
  destruct (dict_get "properties" item) as [[| | | | | |p]|]; try discriminate.
  destruct (dict_mem key p); intros [= <-]; [reflexivity|]. apply item_id_set. discriminate.
Qed.

Lemma set_datetime_id (key : string) (dt : option datetime) (item item' : Item) :
  set_datetime key dt item = Ok item' -> item_id item' = item_id item.
Proof.
  unfold set_datetime. destruct dt; [apply set_property_id|]. intros [= <-]. reflexivity.
Qed.

Lemma add_asset_id (key : string) (asset : json) (item item' : Item) :
  add_asset key asset item = Ok item' -> item_id item' = item_id item.
Proof.
  unfold add_asset. destruct (dict_get "assets" item) as [[]|]; try discriminate.
  intros [= <-]. apply item_id_set. discriminate.
Qed.

Lemma add_link_id (link : json) (item item' : Item) :
  add_link link item = Ok item' -> item_id item' = item_id item.
Proof.
  unfold add_link. destruct (dict_get "links" item) as [[]|]; try discriminate.
  intros [= <-]. apply item_id_set. discriminate.
Qed.

Lemma describe_plot_id (description : string) (item item' : Item) :
  describe_plot description item = Ok item' -> item_id item' = item_id item.
Proof.
  unfold describe_plot.
  destruct (dict_get "assets" item) as [[| | | | | |a]|]; try discriminate.
  destruct (dict_get "plot" a) as [[]|]; try discriminate; intros [= <-];
    try reflexivity. apply item_id_set. discriminate.
Qed.

Lemma attach_table_metadata_id (world : World) (rel : path) (item item' : Item) :
  attach_table_metadata world rel item = Ok item' -> item_id item' = item_id item.
Proof.
  unfold attach_table_metadata. intros E. apply set_property_id in E. rewrite E.
  apply item_id_set. discriminate.
Qed.

Lemma restore_href_id (merged merged' : dict json) (entry : string * json) :
  restore_href merged entry = Ok merged' -> item_id merged' = item_id merged.
Proof.
  unfold restore_href. destruct entry as [key href].
  intros E. bind_inv E. destruct (negb x); [injection E as <-; reflexivity|].
  destruct (default (JObj []) (dict_get "assets" merged)) as [| | | | | |m]; try discriminate.
  destruct (dict_get key m) as [asset|]; [|discriminate].
  bind_inv E. destruct (x0 : bool); [injection E as <-; reflexivity|].
  destruct href; try (injection E as <-; reflexivity);
    (destruct asset; try discriminate; injection E as <-; apply item_id_set; discriminate).
Qed.

Lemma apply_item_overrides_id (item item' overrides : dict json) :
  dict_mem "id" overrides = false ->
  apply_item_overrides item overrides = Ok item' -> item_id item' = item_id item.
Proof.
  intros Hid E. unfold apply_item_overrides in E. bind_inv E.
  apply (for_each_invariant (fun m => item_id m = item_id item)) in E; auto.
  - intros s e s' _ Hs Hr. rewrite (restore_href_id _ _ _ Hr). exact Hs.
  - unfold item_id. rewrite deep_merge_dict_get_other; [reflexivity|].
    apply dict_mem_none. exact Hid.
Qed.

Lemma with_overrides_id (args : Args) (item item' : Item) :
  overrides_keep_id args = true ->
  with_overrides args item = Ok item' -> item_id item' = item_id item.
Proof.
  unfold overrides_keep_id, with_overrides.
  destruct (item_overrides args) as [o|]; [|intros _ [= <-]; reflexivity].
  intros Hk. apply negb_true_iff in Hk.
  destruct (truthy (JObj o)); [|intros [= <-]; reflexivity].
  apply apply_item_overrides_id. exact Hk.
Qed.

Lemma for_each_property_id (f : Item -> string * string -> outcome Item)
    (props : list (string * string)) (item item' : Item) :
  (forall it kv it', f it kv = Ok it' -> item_id it' = item_id it) ->
  for_each f props item = Ok item' -> item_id item' = item_id item.
Proof.
  intros Hf E.
  apply (for_each_invariant (fun it => item_id it = item_id item)) in E; auto.
  intros s kv s' _ Hs Hr. rewrite (Hf _ _ _ Hr). exact Hs.
Qed.

Ltac id_step H lem x E :=
  apply bind_ok in H as (x & E & H); apply lem in E.

Lemma build_parquet_item_id (args : Args) (world : World) (record : AssetRecord)
    (id : string) (item : Item) :
  overrides_keep_id args = true ->
  build_parquet_item args world record id = Ok item -> item_id item = JStr id.
Proof.
  intros Hk E. unfold build_parquet_item in E.
  apply bind_ok in E as (it1 & E1 & E).
  assert (item_id it1 = JStr id) as H1.
  { destruct (truthy _); [apply set_property_id in E1; exact E1|].
    injection E1 as <-. reflexivity. }
  id_step E set_datetime_id it2 E2. id_step E set_datetime_id it3 E3.
  id_step E attach_table_metadata_id it4 E4. id_step E set_property_id it5 E5.
  apply bind_ok in E as (it6 & E6 & E).
  assert (item_id it6 = item_id it5) as H6.
  { destruct (primary_geom record) as [g|]; [|injection E6 as <-; reflexivity].
    destruct (truthy (JStr g)); [apply set_property_id in E6; exact E6|].
    injection E6 as <-. reflexivity. }
  id_step E add_asset_id it7 E7. apply with_overrides_id in E; [|exact Hk]. congruence.
Qed.

Lemma build_metadata_item_id (args : Args) (record : AssetRecord)
    (id : string) (rel : path) (item : Item) :
  overrides_keep_id args = true ->
  build_metadata_item args record id rel = Ok item -> item_id item = JStr id.
Proof.
  intros Hk E. unfold build_metadata_item in E.
  id_step E set_datetime_id it1 E1. id_step E set_datetime_id it2 E2.
  id_step E add_asset_id it3 E3.
  apply with_overrides_id in E; [|exact Hk].
  rewrite E, E3, E2, E1. reflexivity.
Qed.

Lemma build_plot_item_id (args : Args) (record : AssetRecord)
    (id : string) (rel : path) (item : Item) :
  overrides_keep_id args = true ->
  build_plot_item args record id rel = Ok item -> item_id item = JStr id.
Proof.
  intros Hk E. unfold build_plot_item in E.
  destruct (describe_plot_asset (path_name rel)) as [description props].
  apply bind_ok in E as (it1 & E1 & E).
  assert (item_id it1 = JStr id) as H1.
  { destruct (given description); [apply set_property_id in E1; exact E1|].
    injection E1 as <-. reflexivity. }
  apply bind_ok in E as (it2 & E2 & E).
  apply for_each_property_id in E2; [|intros ? ? ?; apply set_property_id].
  id_step E set_datetime_id it3 E3. id_step E set_datetime_id it4 E4.
  id_step E add_asset_id it5 E5.
  apply bind_ok in E as (it6 & E6 & E). apply with_overrides_id in E6; [|exact Hk].
  apply bind_ok in E as (it7 & E7 & E).
  assert (item_id it7 = item_id it6) as H7.
  { destruct (given description); [apply setdefault_property_id in E7; exact E7|].
    injection E7 as <-. reflexivity. }
  apply bind_ok in E as (it8 & E8 & E).
  apply for_each_property_id in E8; [|intros ? ? ?; apply setdefault_property_id].
  assert (item_id item = item_id it8) as H9.
  { destruct (given description); [apply describe_plot_id in E; exact E|].
    injection E as <-. reflexivity. }
  congruence.
Qed.

End ItemIdentity.

Section SubCatalogs.

Lemma known_true (id : string) (s : SubCatalog) : known id s = true <-> id ∈ existing_ids s.
Proof. unfold known. apply bool_decide_eq_true. Qed.

Lemma known_false (id : string) (s : SubCatalog) : known id s = false <-> id ∉ existing_ids s.
Proof. unfold known. apply bool_decide_eq_false. Qed.

Lemma sub_catalog_ok_empty : sub_catalog_ok empty_sub_catalog.
Proof.
  exists []. split; [reflexivity|]. split; [constructor|]. split; reflexivity.
Qed.

Lemma add_item_ok (item : Item) (id : string) (s : SubCatalog) :
  sub_catalog_ok s -> item_id item = JStr id -> id ∉ existing_ids s ->
  sub_catalog_ok (add_item item id s).
Proof.
  intros (ids & Hids & Hnd & Hset & Hhas) Hid Hfresh. exists (ids ++ [id]).
  simpl. unfold item_ids in *. rewrite !fmap_app, Hids. simpl. rewrite Hid.
  split; [reflexivity|]. split; [|split].
  - apply NoDup_app. split; [exact Hnd|]. split; [|apply NoDup_singleton].
    intros x Hx Hx'. apply list_elem_of_singleton in Hx'. subst x.
    apply Hfresh. rewrite Hset. apply elem_of_list_to_set. exact Hx.
  - rewrite list_to_set_snoc_L, Hset. apply union_comm_L.
  - discriminate.
Qed.

Lemma distinct_keys_NoDup (keys : list string) : distinct_keys keys = true <-> NoDup keys.
Proof.
  induction keys as [|k keys IH]; simpl.
  - split; [constructor | reflexivity].
  - rewrite andb_true_iff, negb_true_iff, IH, NoDup_cons.
    assert (existsb (String.eqb k) keys = false <-> k ∉ keys) as ->; [|reflexivity].
    rewrite <- not_true_iff_false, existsb_exists. split; intros Hn Hk; apply Hn.
    + exists k. split; [apply list_elem_of_In; exact Hk | apply String.eqb_refl].
    + destruct Hk as (x & Hx & Hxe). apply String.eqb_eq in Hxe. subst x.
      apply list_elem_of_In. exact Hx.
Qed.

Lemma string_ids_spec (items : list Item) (ids : list string) :
  string_ids items = Some ids <-> item_ids items = JStr <$> ids.
Proof.
  unfold item_ids. revert ids. induction items as [|item items IH]; intros ids.
  - simpl. split; [intros [= <-]; reflexivity|]. destruct ids; [reflexivity | discriminate].
  - change (string_ids (item :: items)) with
      (match item_id item, string_ids items with
       | JStr id, Some ids => Some (id :: ids)
       | _, _ => None
       end).
    change (item_id <$> item :: items) with (item_id item :: (item_id <$> items)).
    destruct ids as [|i ids].
    + split; [|discriminate]. destruct (item_id item); try discriminate.
      destruct (string_ids items); discriminate.
    + change (JStr <$> i :: ids) with (JStr i :: (JStr <$> ids)).
      destruct (item_id item) as [| | | |s| |]; try (split; discriminate).
      destruct (string_ids items) as [ids'|].
      * split.
        -- intros [= <- <-]. f_equal. apply IH. reflexivity.
        -- intros [= -> Hr]. apply IH in Hr. injection Hr as ->. reflexivity.
      * split; [discriminate|]. intros [= -> Hr]. apply IH in Hr. discriminate.
Qed.

Lemma distinct_ids_spec (items : list Item) :
  distinct_ids items = true <->
  exists ids : list string, item_ids items = JStr <$> ids /\ NoDup ids.
Proof.
  unfold distinct_ids. split.
  - destruct (string_ids items) as [ids|] eqn:E; [|discriminate].
    intros Hd. exists ids. split; [apply string_ids_spec; exact E|].
    apply distinct_keys_NoDup. exact Hd.
  - intros (ids & Hids & Hnd). apply string_ids_spec in Hids. rewrite Hids.
    apply distinct_keys_NoDup. exact Hnd.
Qed.

Lemma distinct_ids_of_catalog (s : SubCatalog) :
  sub_catalog_ok s -> distinct_ids (catalog_items s) = true.
Proof. intros (ids & Hids & Hnd & _). apply distinct_ids_spec. exists ids. auto. Qed.

Lemma link_current_ok (link : json) (s s' : SubCatalog) :
  link_current link s = Ok s' -> sub_catalog_ok s ->
  sub_catalog_ok s' /\ existing_ids s' = existing_ids s.
Proof.
  unfold link_current. destruct (reverse (catalog_items s)) as [|current earlier] eqn:R;
    [discriminate|].
  intros E (ids & Hids & Hnd & Hset & Hhas). bind_inv E. injection E as <-.
  apply add_link_id in E0.
  assert (catalog_items s = reverse earlier ++ [current]) as Hc.
  { rewrite <- (reverse_involutive (catalog_items s)), R. apply reverse_cons. }
  split; [|reflexivity]. exists ids. simpl. split; [|split; [exact Hnd | split; [exact Hset|]]].
  - rewrite <- Hids, Hc. unfold item_ids. rewrite !fmap_app. simpl. rewrite E0. reflexivity.
  - intros Hf. apply Hhas in Hf. rewrite Hf in Hc. destruct (reverse earlier); discriminate.
Qed.

End SubCatalogs.

Section Run.
Context `{lib : Library}.

(** *** The skip of a known asset *)

Lemma parquet_warned (record : AssetRecord) (st : State) :
  parquet (warned record st) = parquet st.
Proof. unfold warned. destruct (record_bbox record); reflexivity. Qed.

Lemma process_record_known (args : Args) (world : World) (st : State) (record : AssetRecord) :
  incremental args = true ->
  make_item_id record ∈ existing_ids (parquet st) ->
  process_record args world st record = Ok (warned record st).
Proof.
  intros Hinc Hk. unfold process_record. fold (warned record st).
  rewrite Hinc, parquet_warned. rewrite (proj2 (known_true _ _) Hk). reflexivity.
Qed.

(** *** The sub-catalogs stay in step with their sets of identifiers *)

Lemma process_metadata_ok (args : Args) (world : World) (record : AssetRecord)
    (id : string) (parquet_item : Item) (st st' : State) :
  incremental args = true -> overrides_keep_id args = true ->
  process_metadata args world record id parquet_item st = Ok st' ->
  catalogs_ok st ->
  catalogs_ok st' /\ existing_ids (parquet st') = existing_ids (parquet st).
Proof.
  intros Hinc Hk E (Hp & Hm & Hl). unfold process_metadata in E.
  destruct (metadata_prefix args); [|injection E as <-; repeat split; auto].
  rewrite Hinc in E. simpl in E.
  destruct (known _ (metadata st)) eqn:Ekn; [injection E as <-; repeat split; auto|].
  apply known_false in Ekn.
  destruct (copy_succeeds world MetadataFS _); [|injection E as <-; repeat split; auto].
  apply bind_ok in E as (it1 & E1 & E). apply build_metadata_item_id in E1; [|exact Hk].
  apply bind_ok in E as (it2 & E2 & E). apply add_link_id in E2.
  apply bind_ok in E as (p' & E3 & E). simpl in E3.
  apply link_current_ok in E3 as [Hp' Hids]; [|exact Hp].
  apply bind_ok in E as (mid & E4 & E). injection E as <-. simpl.
  rewrite E2, E1 in E4. injection E4 as <-.
  split; [|exact Hids]. split; [exact Hp'|]. split; [|exact Hl].
  simpl. apply add_item_ok; auto. congruence.
Qed.

Lemma process_plot_ok (args : Args) (world : World) (record : AssetRecord)
    (id : string) (parquet_item : Item) (st st' : State) (plot_info : PlotInfo) :
  incremental args = true -> overrides_keep_id args = true ->
  process_plot args world record id parquet_item st plot_info = Ok st' ->
  catalogs_ok st ->
  catalogs_ok st' /\ existing_ids (parquet st') = existing_ids (parquet st).
Proof.
  intros Hinc Hk E (Hp & Hm & Hl). unfold process_plot in E.
  destruct (negb (plot_is_file plot_info)); [injection E as <-; repeat split; auto|].
  destruct (negb (PyStr.endswith _ _)); [injection E as <-; repeat split; auto|].
  destruct (negb (copy_succeeds world PlotsFS _)); [injection E as <-; repeat split; auto|].
  rewrite Hinc in E. simpl in E.
  destruct (known _ (plots st)) eqn:Ekn; [injection E as <-; repeat split; auto|].
  apply known_false in Ekn.
  apply bind_ok in E as (it1 & E1 & E). apply build_plot_item_id in E1; [|exact Hk].
  apply bind_ok in E as (it2 & E2 & E). apply add_link_id in E2.
  apply bind_ok in E as (p' & E3 & E). simpl in E3.
  apply link_current_ok in E3 as [Hp' Hids]; [|exact Hp].
  apply bind_ok in E as (pid & E4 & E). injection E as <-. simpl.
  rewrite E2, E1 in E4. injection E4 as <-.
  split; [|exact Hids]. split; [exact Hp'|]. split; [exact Hm|].
  simpl. apply add_item_ok; auto. congruence.
Qed.

Lemma process_plots_ok (args : Args) (world : World) (record : AssetRecord)
    (id : string) (parquet_item : Item) (st st' : State) :
  incremental args = true -> overrides_keep_id args = true ->
  process_plots args world record id parquet_item st = Ok st' ->
  catalogs_ok st ->
  catalogs_ok st' /\ existing_ids (parquet st') = existing_ids (parquet st).
Proof.
  intros Hinc Hk E Hok. unfold process_plots in E.
  destruct (plots_prefix args); [|injection E as <-; auto].
  apply (for_each_invariant
           (fun s => catalogs_ok s /\ existing_ids (parquet s) = existing_ids (parquet st)))
    in E; auto.
  intros s info s' _ [Hs Hids] Hr.
  destruct (process_plot_ok _ _ _ _ _ _ _ _ Hinc Hk Hr Hs) as [Hs' Hids'].
  split; [exact Hs' | congruence].
Qed.

Lemma process_record_ok (args : Args) (world : World) (st st' : State) (record : AssetRecord) :
  incremental args = true -> overrides_keep_id args = true ->
  process_record args world st record = Ok st' ->
  catalogs_ok st ->
  catalogs_ok st' /\
  make_item_id record ∈ existing_ids (parquet st') /\
  existing_ids (parquet st) ⊆ existing_ids (parquet st').
Proof.
  intros Hinc Hk E Hok.
  destruct (decide (make_item_id record ∈ existing_ids (parquet st))) as [Hin | Hfresh].
  - rewrite process_record_known in E by assumption. injection E as <-.
    rewrite parquet_warned. split; [|split; [exact Hin | reflexivity]].
    destruct Hok as (Hp & Hm & Hl). unfold warned.
    destruct (record_bbox record); repeat split; auto.
  - unfold process_record in E. fold (warned record st) in E.
    rewrite Hinc, parquet_warned in E. rewrite (proj2 (known_false _ _) Hfresh) in E.
    simpl in E.
    destruct (negb (copy_succeeds world InputFS _)); [discriminate|].
    apply bind_ok in E as (item & E1 & E). apply build_parquet_item_id in E1; [|exact Hk].
    apply bind_ok in E as (st1 & E2 & E).
    match type of E2 with
    | process_metadata _ _ _ _ _ ?s = _ =>
        assert (catalogs_ok s /\
                existing_ids (parquet s) = {[make_item_id record]} ∪ existing_ids (parquet st))
          as [Hs0 Hids0]
    end.
    { destruct Hok as (Hp & Hm & Hl). split; [|].
      - split; [|split].
        + simpl. apply add_item_ok; auto.
          * destruct (truthy _); simpl; rewrite ?parquet_warned; exact Hp.
          * destruct (truthy _); simpl; rewrite ?parquet_warned; exact Hfresh.
        + simpl. destruct (truthy _); simpl; unfold warned;
            destruct (record_bbox record); exact Hm.
        + simpl. destruct (truthy _); simpl; unfold warned;
            destruct (record_bbox record); exact Hl.
      - simpl. destruct (truthy _); simpl; rewrite ?parquet_warned; reflexivity. }
    destruct (process_metadata_ok _ _ _ _ _ _ _ Hinc Hk E2 Hs0) as [Hs1 Hids1].
    destruct (process_plots_ok _ _ _ _ _ _ _ Hinc Hk E Hs1) as [Hs2 Hids2].
    split; [exact Hs2|]. rewrite Hids2, Hids1, Hids0. split.
    + apply elem_of_union_l. apply elem_of_singleton. reflexivity.
    + apply union_subseteq_r.
Qed.

Lemma process_records_ok (args : Args) (world : World) (records : list AssetRecord)
    (st st' : State) :
  incremental args = true -> overrides_keep_id args = true ->
  for_each (process_record args world) records st = Ok st' ->
  catalogs_ok st ->
  catalogs_ok st' /\
  (forall record, record ∈ records -> make_item_id record ∈ existing_ids (parquet st')) /\
  existing_ids (parquet st) ⊆ existing_ids (parquet st').
Proof.
  intros Hinc Hk. revert st. induction records as [|r records IH]; intros st E Hok; simpl in E.
  - injection E as <-. split; [exact Hok|]. split; [|reflexivity].
    intros r Hr. apply elem_of_nil in Hr. destruct Hr.
  - apply bind_ok in E as (st1 & E1 & E).
    destruct (process_record_ok _ _ _ _ _ Hinc Hk E1 Hok) as (Hok1 & Hin1 & Hsub1).
    destruct (IH _ E Hok1) as (Hok' & Hin' & Hsub').
    split; [exact Hok'|]. split; [|etransitivity; eassumption].
    intros r' Hr'. apply elem_of_cons in Hr' as [-> | Hr']; [|auto].
    apply Hsub'. exact Hin1.
Qed.

(** *** The flags of the sub-catalogs *)

Lemma has_grows_refl (st : State) : has_grows st st.
Proof. repeat split; auto. Qed.

Lemma has_grows_trans (a b c : State) : has_grows a b -> has_grows b c -> has_grows a c.
Proof. intros (? & ? & ?) (? & ? & ?). repeat split; auto. Qed.

Lemma link_current_has (link : json) (s s' : SubCatalog) :
  link_current link s = Ok s' -> has_items s' = has_items s.
Proof.
  unfold link_current. destruct (reverse (catalog_items s)); [discriminate|].
  intros E. bind_inv E. injection E as <-. reflexivity.
Qed.

Lemma process_metadata_has (args : Args) (world : World) (record : AssetRecord)
    (id : string) (parquet_item : Item) (st st' : State) :
  process_metadata args world record id parquet_item st = Ok st' -> has_grows st st'.
Proof.
  unfold process_metadata. intros E.
  destruct (metadata_prefix args); [|injection E as <-; apply has_grows_refl].
  destruct (incremental args && known _ (metadata st));
    [injection E as <-; apply has_grows_refl|].
  destruct (copy_succeeds world MetadataFS _); [|injection E as <-; repeat split; auto].
  apply bind_ok in E as (it1 & _ & E). apply bind_ok in E as (it2 & _ & E).
  apply bind_ok in E as (p' & E3 & E). apply link_current_has in E3.
  apply bind_ok in E as (mid & _ & E). injection E as <-.
  repeat split; simpl; auto. rewrite E3. auto.
Qed.

Lemma process_plot_has (args : Args) (world : World) (record : AssetRecord)
    (id : string) (parquet_item : Item) (st st' : State) (plot_info : PlotInfo) :
  process_plot args world record id parquet_item st plot_info = Ok st' -> has_grows st st'.
Proof.
  unfold process_plot. intros E.
  destruct (negb (plot_is_file plot_info)); [injection E as <-; apply has_grows_refl|].
  destruct (negb (PyStr.endswith _ _)); [injection E as <-; apply has_grows_refl|].
  destruct (negb (copy_succeeds world PlotsFS _)); [injection E as <-; repeat split; auto|].
  destruct (incremental args && known _ _); [injection E as <-; repeat split; auto|].
  apply bind_ok in E as (it1 & _ & E). apply bind_ok in E as (it2 & _ & E).
  apply bind_ok in E as (p' & E3 & E). apply link_current_has in E3.
  apply bind_ok in E as (pid & _ & E). injection E as <-.
  repeat split; simpl; auto. rewrite E3. auto.
Qed.

Lemma process_record_has (args : Args) (world : World) (st st' : State)
    (record : AssetRecord) :
  process_record args world st record = Ok st' -> has_grows st st'.
Proof.
  unfold process_record. fold (warned record st). intros E.
  assert (has_grows st (warned record st)) as Hw.
  { unfold warned. destruct (record_bbox record); repeat split; auto. }
  destruct (incremental args && known _ _); [injection E as <-; exact Hw|].
  destruct (negb (copy_succeeds world InputFS _)); [discriminate|].
  apply bind_ok in E as (item & _ & E). apply bind_ok in E as (st1 & E1 & E).
  match type of E1 with
  | process_metadata _ _ _ _ _ ?s = _ => assert (has_grows st s) as H0
  end.
  { destruct (truthy _); unfold warned; destruct (record_bbox record); repeat split; auto. }
  apply process_metadata_has in E1.
  unfold process_plots in E.
  assert (has_grows st1 st') as H2.
  { destruct (plots_prefix args); [|injection E as <-; apply has_grows_refl].
    apply (for_each_invariant (has_grows st1)) in E; [exact E| |apply has_grows_refl].
    intros s info s' _ Hs Hr. apply process_plot_has in Hr.
    apply (has_grows_trans _ _ _ Hs Hr). }
  apply (has_grows_trans _ _ _ H0). apply (has_grows_trans _ _ _ E1 H2).
Qed.

Lemma process_records_has (args : Args) (world : World) (records : list AssetRecord)
    (st st' : State) :
  for_each (process_record args world) records st = Ok st' -> has_grows st st'.
Proof.
  intros E. apply (for_each_invariant (has_grows st)) in E; [exact E| |apply has_grows_refl].
  intros s r s' _ Hs Hr. apply process_record_has in Hr. apply (has_grows_trans _ _ _ Hs Hr).
Qed.

End Run.

(** ** The run as a whole *)

Section RunFacts.
Context `{lib : Library}.

Lemma link_current_frame (link : json) (s s' : SubCatalog) :
  link_current link s = Ok s' ->
  existing_ids s' = existing_ids s /\ has_items s' = has_items s /\
  item_ids (catalog_items s') = item_ids (catalog_items s).
Proof.
  unfold link_current. destruct (reverse (catalog_items s)) as [|current earlier] eqn:R;
    [discriminate|].
  intros E. bind_inv E. injection E as <-. apply add_link_id in E0.
  assert (catalog_items s = reverse earlier ++ [current]) as Hc.
  { rewrite <- (reverse_involutive (catalog_items s)), R. apply reverse_cons. }
  simpl. split; [reflexivity|]. split; [reflexivity|].
  rewrite Hc. unfold item_ids. rewrite !fmap_app. simpl. rewrite E0. reflexivity.
Qed.

Lemma data_copies_app (l l' : list event) :
  data_copies (l ++ l') = data_copies l ++ data_copies l'.
Proof. apply omap_app. Qed.

Lemma opened_files_app (l l' : list event) :
  opened_files (l ++ l') = opened_files l ++ opened_files l'.
Proof. apply omap_app. Qed.

Lemma companions_only_refl (st : State) : companions_only st st.
Proof. repeat split. Qed.

Lemma companions_only_trans (a b c : State) :
  companions_only a b -> companions_only b c -> companions_only a c.
Proof.
  intros (? & ? & ? & ? & ? & ? & ?) (? & ? & ? & ? & ? & ? & ?).
  repeat split; congruence.
Qed.

Lemma process_metadata_companions (args : Args) (world : World) (record : AssetRecord)
    (id : string) (parquet_item : Item) (st st' : State) :
  process_metadata args world record id parquet_item st = Ok st' -> companions_only st st'.
Proof.
  unfold process_metadata. intros E.
  destruct (metadata_prefix args); [|injection E as <-; apply companions_only_refl].
  destruct (incremental args && known _ (metadata st));
    [injection E as <-; apply companions_only_refl|].
  destruct (copy_succeeds world MetadataFS _).
  - apply bind_ok in E as (it1 & _ & E). apply bind_ok in E as (it2 & _ & E).
    apply bind_ok in E as (p' & E3 & E). apply link_current_frame in E3 as (H1 & H2 & H3).
    apply bind_ok in E as (mid & _ & E). injection E as <-.
    unfold companions_only. simpl. rewrite data_copies_app, opened_files_app. simpl.
    rewrite !app_nil_r. auto 10.
  - injection E as <-. unfold companions_only. simpl.
    rewrite data_copies_app, opened_files_app. simpl. rewrite !app_nil_r. auto 10.
Qed.

Lemma process_plot_companions (args : Args) (world : World) (record : AssetRecord)
    (id : string) (parquet_item : Item) (st st' : State) (plot_info : PlotInfo) :
  process_plot args world record id parquet_item st plot_info = Ok st' ->
  companions_only st st'.
Proof.
  unfold process_plot. intros E.
  destruct (negb (plot_is_file plot_info)); [injection E as <-; apply companions_only_refl|].
  destruct (negb (PyStr.endswith _ _)); [injection E as <-; apply companions_only_refl|].
  assert (companions_only st (log (Copied PlotsFS (plot_rel plot_info)) st)) as Hlog.
  { unfold companions_only. simpl. rewrite data_copies_app, opened_files_app. simpl.
    rewrite !app_nil_r. auto 10. }
  destruct (negb (copy_succeeds world PlotsFS _)); [injection E as <-; exact Hlog|].
  destruct (incremental args && known _ _); [injection E as <-; exact Hlog|].
  apply bind_ok in E as (it1 & _ & E). apply bind_ok in E as (it2 & _ & E).
  apply bind_ok in E as (p' & E3 & E). apply link_current_frame in E3 as (H1 & H2 & H3).
  apply bind_ok in E as (pid & _ & E). injection E as <-.
  unfold companions_only. simpl. rewrite data_copies_app, opened_files_app. simpl.
  rewrite !app_nil_r. auto 10.
Qed.

Lemma process_plots_companions (args : Args) (world : World) (record : AssetRecord)
    (id : string) (parquet_item : Item) (st st' : State) :
  process_plots args world record id parquet_item st = Ok st' -> companions_only st st'.
Proof.
  unfold process_plots. intros E.
  destruct (plots_prefix args); [|injection E as <-; apply companions_only_refl].
  apply (for_each_invariant (companions_only st)) in E;
    [exact E| |apply companions_only_refl].
  intros s info s' _ Hs Hr. apply process_plot_companions in Hr.
  apply (companions_only_trans _ _ _ Hs Hr).
Qed.

(** One round of the loop over the records: the asset is passed over, or
    it is copied and opened and its item goes last into the data
    sub-catalog, before the steps for its companions. *)
Lemma process_record_cases (args : Args) (world : World) (st st' : State)
    (record : AssetRecord) :
  process_record args world st record = Ok st' ->
  (incremental args = true /\ make_item_id record ∈ existing_ids (parquet st) /\
   st' = warned record st) \/
  (incremental args && known (make_item_id record) (parquet st) = false /\
   exists item st1,
     build_parquet_item args world record (make_item_id record) = Ok item /\
     record_contribution args world record =
       Some (or_else (item_bbox item) (record_bbox record),
             or_else (item_start_datetime item) (record_start record),
             or_else (item_end_datetime item) (record_end record)) /\
     extent st1 =
       update_collection_extent (extent st)
         (or_else (item_bbox item) (record_bbox record))
         (or_else (item_start_datetime item) (record_start record))
         (or_else (item_end_datetime item) (record_end record)) /\
     parquet st1 = add_item item (make_item_id record) (parquet st) /\
     discovered_models st1 =
       match record_model world record with
       | Some model => {[model]} ∪ discovered_models st
       | None => discovered_models st
       end /\
     data_copies (trace st1) = data_copies (trace st) ++ [relative_path record] /\
     opened_files (trace st1) = opened_files (trace st) ++ [relative_path record] /\
     companions_only st1 st').
Proof.
  unfold process_record. fold (warned record st). intros E.
  rewrite parquet_warned in E.
  destruct (incremental args && known _ _) eqn:Ek.
  { injection E as <-. apply andb_true_iff in Ek as [Hi Hk]. apply known_true in Hk. auto. }
  right. split; [reflexivity|].
  destruct (negb (copy_succeeds world InputFS _)); [discriminate|].
  apply bind_ok in E as (item & E1 & E). apply bind_ok in E as (st1 & E2 & E).
  apply process_metadata_companions in E2. apply process_plots_companions in E.
  eexists item, _. split; [exact E1|].
  split; [unfold record_contribution; rewrite E1; reflexivity|].
  split; [|split; [|split; [|split; [|split; [|exact (companions_only_trans _ _ _ E2 E)]]]]].
  - simpl. unfold record_model, warned.
    destruct (truthy _), (record_bbox record); reflexivity.
  - simpl. unfold record_model.
    destruct (truthy _); simpl; rewrite parquet_warned; reflexivity.
  - simpl. unfold record_model, warned.
    destruct (truthy _), (record_bbox record); reflexivity.
  - simpl. unfold warned.
    destruct (truthy _), (record_bbox record); simpl;
      rewrite !data_copies_app; simpl; rewrite ?app_nil_r; reflexivity.
  - simpl. unfold warned.
    destruct (truthy _), (record_bbox record); simpl;
      rewrite !opened_files_app; simpl; rewrite ?app_nil_r; reflexivity.
Qed.

Lemma warned_frame (record : AssetRecord) (st : State) :
  extent (warned record st) = extent st /\
  discovered_models (warned record st) = discovered_models st /\
  data_copies (trace (warned record st)) = data_copies (trace st) /\
  opened_files (trace (warned record st)) = opened_files (trace st).
Proof.
  unfold warned. destruct (record_bbox record); simpl; [auto|].
  rewrite data_copies_app, opened_files_app. simpl. rewrite !app_nil_r. auto.
Qed.

(** The loop over the records: the assets not passed over, in order, are
    those copied and opened, and each puts one item into the data
    sub-catalog and one contribution into the extent. *)
Lemma process_records_fresh (args : Args) (world : World) (records : list AssetRecord)
    (st st' : State) :
  for_each (process_record args world) records st = Ok st' ->
  exists (fresh : list AssetRecord) (contributions : list contribution),
    sublist fresh records /\
    (incremental args = false -> fresh = records) /\
    (overrides_keep_id args = true ->
     item_ids (catalog_items (parquet st')) =
       item_ids (catalog_items (parquet st)) ++ ((fun r => JStr (make_item_id r)) <$> fresh)) /\
    data_copies (trace st') = data_copies (trace st) ++ (relative_path <$> fresh) /\
    opened_files (trace st') = opened_files (trace st) ++ (relative_path <$> fresh) /\
    Forall2 (fun r c => record_contribution args world r = Some c) fresh contributions /\
    extent st' = fold_extent (extent st) contributions /\
    discovered_models st ⊆ discovered_models st' /\
    (forall r model, r ∈ fresh -> record_model world r = Some model ->
       model ∈ discovered_models st').
Proof.
  revert st. induction records as [|r records IH]; intros st E; simpl in E.
  - injection E as <-. exists [], []. simpl. rewrite !app_nil_r.
    split; [constructor|]. split; [auto|]. do 3 (split; [reflexivity|]).
    split; [constructor|]. split; [reflexivity|]. split; [reflexivity|].
    intros r m Hr. apply elem_of_nil in Hr. destruct Hr.
  - apply bind_ok in E as (st1 & E1 & E).
    destruct (IH st1 E) as (fresh & cs & Hsub & Hall & Hids & Hcp & Hop & Hcs & Hex & Hdm & Hm).
    apply process_record_cases in E1
      as [(Hinc & Hin & ->) |
          (Hfresh & item & stp & Eb & Hc & Hext & Hpq & Hmod & Hcopy & Hopen & Hco)].
    + destruct (warned_frame r st) as (He & Hd & Hc & Ho).
      rewrite parquet_warned in Hids. rewrite He in Hex. rewrite Hd in Hdm.
      rewrite Hc in Hcp. rewrite Ho in Hop.
      exists fresh, cs. split; [apply sublist_cons; exact Hsub|].
      split; [intros Hf; congruence|]. auto 10.
    + destruct Hco as (He & Hd & _ & _ & Hi & Hc' & Ho').
      exists (r :: fresh),
        ((or_else (item_bbox item) (record_bbox r),
          or_else (item_start_datetime item) (record_start r),
          or_else (item_end_datetime item) (record_end r)) :: cs).
      split; [apply sublist_skip; exact Hsub|].
      split; [intros Hf; rewrite (Hall Hf); reflexivity|].
      split; [|split; [|split; [|split; [|split; [|split]]]]].
      * intros Hk. apply build_parquet_item_id in Eb; [|exact Hk].
        rewrite (Hids Hk), Hi, Hpq. simpl. unfold item_ids. rewrite fmap_app. simpl.
        rewrite Eb, <- app_assoc. reflexivity.
      * rewrite Hcp, Hc', Hcopy, fmap_cons, <- app_assoc. reflexivity.
      * rewrite Hop, Ho', Hopen, fmap_cons, <- app_assoc. reflexivity.
      * constructor; [exact Hc | exact Hcs].
      * rewrite Hex, He, Hext. reflexivity.
      * etransitivity; [|exact Hdm]. rewrite Hd, Hmod.
        destruct (record_model world r); [apply union_subseteq_r | reflexivity].
      * intros r' m Hr' Hrm. apply elem_of_cons in Hr' as [-> | Hr']; [|eauto].
        apply Hdm. rewrite Hd, Hmod, Hrm. apply elem_of_union_l, elem_of_singleton.
        reflexivity.
Qed.

Lemma add_item_catalogued (item : Item) (id : string) (s : SubCatalog) :
  item_id item = JStr id -> ids_catalogued s -> ids_catalogued (add_item item id s).
Proof.
  intros Hid Hs id' Hin. simpl in *. split; [|reflexivity].
  unfold item_ids. rewrite fmap_app. apply elem_of_app.
  apply elem_of_union in Hin as [Hin | Hin].
  - right. apply elem_of_singleton in Hin. subst id'. simpl. rewrite Hid.
    apply list_elem_of_here.
  - left. apply Hs. exact Hin.
Qed.

Lemma id_string_ok (id : json) (s : string) : id_string id = Ok s -> id = JStr s.
Proof. destruct id; try discriminate. intros [= <-]. reflexivity. Qed.

(** The loading of the data items of an earlier run. *)
Lemma register_parquet_loop (items : list Item) (st st' : State) :
  for_each register_parquet items st = Ok st' ->
  catalog_items (parquet st') = catalog_items (parquet st) ++ items /\
  trace st' = trace st /\
  extent st' = fold_extent (extent st) (item_contribution <$> items) /\
  discovered_models st ⊆ discovered_models st' /\
  (ids_catalogued (parquet st) -> ids_catalogued (parquet st')).
Proof.
  revert st. induction items as [|item items IH]; intros st E; simpl in E.
  - injection E as <-. simpl. rewrite app_nil_r. auto.
  - apply bind_ok in E as (st1 & E1 & E). destruct (IH st1 E) as (Hc & Ht & He & Hd & Hi).
    unfold register_parquet in E1. apply bind_ok in E1 as (id & Eid & E1).
    apply id_string_ok in Eid.
    assert (parquet st1 = add_item item id (parquet st) /\ trace st1 = trace st /\
            extent st1 = update_collection_extent (extent st) (item_bbox item)
                           (item_start_datetime item) (item_end_datetime item) /\
            discovered_models st ⊆ discovered_models st1) as (Hp1 & Ht1 & He1 & Hd1).
    { destruct (dict_get "properties" item) as [[| | | | | |p]|];
        try (injection E1 as <-; simpl; auto).
      destruct (truthy _); injection E1 as <-; simpl; repeat split; auto.
      apply union_subseteq_r. }
    rewrite Hc, Ht, He, Hp1, Ht1, He1. simpl. rewrite <- app_assoc.
    split; [reflexivity|]. split; [reflexivity|]. split; [reflexivity|].
    split; [etransitivity; eassumption|].
    intros Hs. apply Hi. rewrite Hp1. apply add_item_catalogued; assumption.
Qed.

Lemma register_companions_loop (step : State -> Item -> outcome State)
    (items : list Item) (st st' : State) :
  step = register_metadata \/ step = register_plot ->
  for_each step items st = Ok st' ->
  parquet st' = parquet st /\ trace st' = trace st /\ extent st' = extent st /\
  discovered_models st' = discovered_models st.
Proof.
  intros Hstep E.
  apply (for_each_invariant
           (fun s => parquet s = parquet st /\ trace s = trace st /\ extent s = extent st /\
                     discovered_models s = discovered_models st)) in E; auto.
  intros s item s' _ (H1 & H2 & H3 & H4) Hr.
  destruct Hstep as [-> | ->]; unfold register_metadata, register_plot in Hr;
    apply bind_ok in Hr as (id & _ & Hr); injection Hr as <-; simpl; auto.
Qed.

Lemma initial_state_loaded (args : Args) (prior : Store) (st0 : State) :
  initial_state args prior = Ok st0 ->
  catalog_items (parquet st0) = loaded_items args prior /\
  trace st0 = [] /\
  extent st0 = fold_extent (fresh_extent (temporal_start args) (temporal_end args))
                           (item_contribution <$> loaded_items args prior) /\
  (incremental args = true -> stored_source_models prior ⊆ discovered_models st0) /\
  ids_catalogued (parquet st0).
Proof.
  unfold initial_state, loaded_items. destruct (incremental args).
  - intros E. apply bind_ok in E as (st1 & E1 & E). apply bind_ok in E as (st2 & E2 & E).
    apply register_parquet_loop in E1 as (Hc & Ht & He & Hd & Hi).
    apply register_companions_loop in E2 as (Hp2 & Ht2 & He2 & Hd2); [|auto].
    apply register_companions_loop in E as (Hp3 & Ht3 & He3 & Hd3); [|auto].
    rewrite Hp3, Hp2, Ht3, Ht2, He3, He2, Hd3, Hd2, Hc, Ht, He. simpl.
    split; [reflexivity|]. split; [reflexivity|]. split; [reflexivity|].
    split; [intros _; exact Hd|]. apply Hi. intros id Hin. simpl in Hin.
    apply not_elem_of_empty in Hin. destruct Hin.
  - intros [= <-]. simpl. split; [reflexivity|]. split; [reflexivity|].
    split; [reflexivity|]. split; [discriminate|]. intros id Hin. simpl in Hin.
    apply not_elem_of_empty in Hin. destruct Hin.
Qed.

(** The parts of a run that returns. *)
Lemma build_items_and_collection_ok (args : Args) (world : World) (prior : Store)
    (st : State) (store : Store) :
  build_items_and_collection args world prior = Ok (st, store) ->
  discovered world <> [] /\
  store = persist st prior /\
  exists st0,
    initial_state args prior = Ok st0 /\
    for_each (process_record args world) (discovered world) st0 = Ok st.
Proof.
  unfold build_items_and_collection.
  destruct (negb (input_is_directory world)); [discriminate|].
  destruct (discovered world) as [|r records] eqn:Ed; [discriminate|].
  intros E. apply bind_ok in E as (st0 & E0 & E). apply bind_ok in E as (st1 & E1 & E).
  injection E as <- <-. split; [discriminate|]. split; [reflexivity|]. eauto.
Qed.

Lemma process_records_catalogued (args : Args) (world : World) (records : list AssetRecord)
    (st st' : State) :
  overrides_keep_id args = true ->
  for_each (process_record args world) records st = Ok st' ->
  ids_catalogued (parquet st) ->
  ids_catalogued (parquet st') /\
  (forall record, record ∈ records -> make_item_id record ∈ existing_ids (parquet st')) /\
  existing_ids (parquet st) ⊆ existing_ids (parquet st').
Proof.
  intros Hk. revert st. induction records as [|r records IH]; intros st E Hs; simpl in E.
  - injection E as <-. split; [exact Hs|]. split; [|reflexivity].
    intros r Hr. apply elem_of_nil in Hr. destruct Hr.
  - apply bind_ok in E as (st1 & E1 & E).
    assert (ids_catalogued (parquet st1) /\ make_item_id r ∈ existing_ids (parquet st1) /\
            existing_ids (parquet st) ⊆ existing_ids (parquet st1)) as (Hs1 & Hin1 & Hsub1).
    { apply process_record_cases in E1
        as [(Hinc & Hin & ->) | (_ & item & stp & Eb & _ & _ & Hpq & _ & _ & _ & Hco)].
      - rewrite parquet_warned. auto.
      - destruct Hco as (_ & _ & Hi1 & Hi2 & Hi3 & _).
        apply build_parquet_item_id in Eb; [|exact Hk].
        assert (ids_catalogued (parquet stp)) as Hsp
          by (rewrite Hpq; apply add_item_catalogued; assumption).
        split; [|split].
        + intros id Hin. rewrite Hi1 in Hin. rewrite Hi2, Hi3. apply Hsp. exact Hin.
        + rewrite Hi1, Hpq. simpl. apply elem_of_union_l, elem_of_singleton. reflexivity.
        + rewrite Hi1, Hpq. simpl. apply union_subseteq_r. }
    destruct (IH st1 E Hs1) as (Hs' & Hin' & Hsub').
    split; [exact Hs'|]. split; [|etransitivity; eassumption].
    intros r' Hr'. apply elem_of_cons in Hr' as [-> | Hr']; [|auto].
    apply Hsub'. exact Hin1.
Qed.

Lemma interval_widens_trans (a b c : option datetime * option datetime) :
  interval_widens a b -> interval_widens b c -> interval_widens a c.
Proof.
  intros [H1 H2] [H3 H4]. split; intros t Ht.
  - destruct (H1 t Ht) as (t1 & Ht1 & Hle1). destruct (H3 t1 Ht1) as (t2 & Ht2 & Hle2).
    exists t2. split; [exact Ht2 | lia].
  - destruct (H2 t Ht) as (t1 & Ht1 & Hle1). destruct (H4 t1 Ht1) as (t2 & Ht2 & Hle2).
    exists t2. split; [exact Ht2 | lia].
Qed.

Lemma fold_extent_widens (e : Extent) (contributions : list contribution) :
  interval_widens (temporal e) (temporal (fold_extent e contributions)).
Proof.
  revert e. induction contributions as [|c cs IH]; intros e; simpl.
  - split; intros t Ht; exists t; (split; [exact Ht | lia]).
  - eapply interval_widens_trans; [apply update_widens | apply IH].
Qed.

End RunFacts.

Section Reruns.
Context `{lib : Library}.

(** *** Loading the prior state *)

Lemma load_loop (step : State -> Item -> outcome State) (proj : State -> SubCatalog)
    (frame : State -> State -> Prop) :
  (forall st, frame st st) ->
  (forall a b c, frame a b -> frame b c -> frame a c) ->
  (forall st item id, item_id item = JStr id ->
     exists st', step st item = Ok st' /\ proj st' = add_item item id (proj st) /\ frame st st') ->
  forall items ids st,
    item_ids items = JStr <$> ids -> NoDup ids ->
    (forall id, id ∈ ids -> id ∉ existing_ids (proj st)) ->
    sub_catalog_ok (proj st) ->
    (has_items (proj st) = true -> catalog_items (proj st) <> []) ->
    exists st',
      for_each step items st = Ok st' /\ sub_catalog_ok (proj st') /\
      catalog_items (proj st') = catalog_items (proj st) ++ items /\ frame st st' /\
      (has_items (proj st') = true -> catalog_items (proj st') <> []).
Proof.
  intros Hrefl Htrans Hstep. unfold item_ids.
  induction items as [|item items IH]; intros ids st Hids Hnd Hfresh Hok Hne.
  - exists st. simpl. rewrite app_nil_r. auto.
  - destruct ids as [|id ids]; [discriminate|].
    change (item_id item :: (item_id <$> items) = JStr id :: (JStr <$> ids)) in Hids.
    injection Hids as Hid Hids. apply NoDup_cons in Hnd as [Hnid Hnd].
    destruct (Hstep st item id Hid) as (st1 & E1 & Hp1 & Hf1).
    destruct (IH ids st1 Hids Hnd) as (st' & E' & Hok' & Hc' & Hf' & Hne').
    + intros i Hi. rewrite Hp1. simpl. intros Hin.
      apply elem_of_union in Hin as [Hin | Hin].
      * apply elem_of_singleton in Hin. subst i. contradiction.
      * apply (Hfresh i); [apply list_elem_of_further; exact Hi | exact Hin].
    + rewrite Hp1. apply add_item_ok; auto. apply Hfresh. apply list_elem_of_here.
    + rewrite Hp1. simpl. intros _. destruct (catalog_items (proj st)); discriminate.
    + exists st'. simpl. rewrite E1. simpl. split; [exact E'|]. split; [exact Hok'|].
      split; [|split; [eapply Htrans; eassumption | exact Hne']].
      rewrite Hc', Hp1. simpl. rewrite <- app_assoc. reflexivity.
Qed.

Lemma initial_state_ok (args : Args) (store : Store) :
  incremental args = true -> store_wf store = true ->
  exists st,
    initial_state args store = Ok st /\ catalogs_ok st /\
    catalog_items (parquet st) = load_existing_items (stored_parquet store) /\
    catalog_items (metadata st) = load_existing_items (stored_metadata store) /\
    catalog_items (plots st) = load_existing_items (stored_plots store) /\
    trace st = [] /\
    (has_items (parquet st) = true -> catalog_items (parquet st) <> []) /\
    (has_items (metadata st) = true -> catalog_items (metadata st) <> []) /\
    (has_items (plots st) = true -> catalog_items (plots st) <> []).
Proof.
  intros Hinc Hwf. unfold store_wf in Hwf.
  apply andb_true_iff in Hwf as [Hwf Hl]. apply andb_true_iff in Hwf as [Hp Hm].
  apply distinct_ids_spec in Hp as (idp & Hidp & Hndp).
  apply distinct_ids_spec in Hm as (idm & Hidm & Hndm).
  apply distinct_ids_spec in Hl as (idl & Hidl & Hndl).
  unfold initial_state. rewrite Hinc.
  set (st0 := mkState _ _ _ _ _ _).
  destruct (load_loop register_parquet parquet same_but_parquet) with
    (items := load_existing_items (stored_parquet store)) (ids := idp) (st := st0)
    as (st1 & E1 & Hok1 & Hc1 & (Hm1 & Hl1 & Ht1) & Hn1).
  { intros st. repeat split. }
  { intros a b c (? & ? & ?) (? & ? & ?). repeat split; congruence. }
  { intros st item id Hid. unfold register_parquet. rewrite Hid. simpl.
    destruct (dict_get "properties" item) as [[| | | | | |p]|];
      try (eexists; split; [reflexivity|]; split; [reflexivity | repeat split]).
    destruct (truthy _); eexists; (split; [reflexivity|]); split; try reflexivity;
      repeat split. }
  { exact Hidp. }
  { exact Hndp. }
  { intros id _. apply not_elem_of_empty. }
  { apply sub_catalog_ok_empty. }
  { unfold st0. simpl. discriminate. }
  rewrite E1. simpl.
  destruct (load_loop register_metadata metadata same_but_metadata) with
    (items := load_existing_items (stored_metadata store)) (ids := idm) (st := st1)
    as (st2 & E2 & Hok2 & Hc2 & (Hp2 & Hl2 & Ht2) & Hn2).
  { intros st. repeat split. }
  { intros a b c (? & ? & ?) (? & ? & ?). repeat split; congruence. }
  { intros st item id Hid. unfold register_metadata. rewrite Hid. simpl.
    eexists. split; [reflexivity|]. split; [reflexivity | repeat split]. }
  { exact Hidm. }
  { exact Hndm. }
  { intros id _. rewrite Hm1. apply not_elem_of_empty. }
  { rewrite Hm1. apply sub_catalog_ok_empty. }
  { rewrite Hm1. discriminate. }
  rewrite E2. simpl.
  destruct (load_loop register_plot plots same_but_plots) with
    (items := load_existing_items (stored_plots store)) (ids := idl) (st := st2)
    as (st3 & E3 & Hok3 & Hc3 & (Hp3 & Hm3 & Ht3) & Hn3).
  { intros st. repeat split. }
  { intros a b c (? & ? & ?) (? & ? & ?). repeat split; congruence. }
  { intros st item id Hid. unfold register_plot. rewrite Hid. simpl.
    eexists. split; [reflexivity|]. split; [reflexivity | repeat split]. }
  { exact Hidl. }
  { exact Hndl. }
  { intros id _. rewrite Hl2, Hl1. apply not_elem_of_empty. }
  { rewrite Hl2, Hl1. apply sub_catalog_ok_empty. }
  { rewrite Hl2, Hl1. discriminate. }
  exists st3. split; [exact E3|].
  split; [|split; [|split; [|split; [|split; [|split; [|split]]]]]].
  - split; [|split]; [rewrite Hp3, Hp2 | rewrite Hm3 | ]; assumption.
  - rewrite Hp3, Hp2, Hc1. reflexivity.
  - rewrite Hm3, Hc2, Hm1. reflexivity.
  - rewrite Hc3, Hl2, Hl1. reflexivity.
  - rewrite Ht3, Ht2, Ht1. reflexivity.
  - rewrite Hp3, Hp2. exact Hn1.
  - rewrite Hm3. exact Hn2.
  - exact Hn3.
Qed.

Lemma fmap_JStr_inj (a b : list string) : JStr <$> a = JStr <$> b -> a = b.
Proof.
  revert b. induction a as [|x a IH]; intros [|y b]; try discriminate; [reflexivity|].
  change (JStr x :: (JStr <$> a) = JStr y :: (JStr <$> b) -> x :: a = y :: b).
  intros [= -> Hr]. f_equal. apply IH. exact Hr.
Qed.

(** *** A run over known assets *)

Lemma process_records_known (args : Args) (world : World) (records : list AssetRecord)
    (st : State) :
  incremental args = true ->
  (forall record, record ∈ records -> make_item_id record ∈ existing_ids (parquet st)) ->
  exists st',
    for_each (process_record args world) records st = Ok st' /\
    parquet st' = parquet st /\ metadata st' = metadata st /\ plots st' = plots st /\
    (forallb is_warning (trace st) = true -> forallb is_warning (trace st') = true).
Proof.
  intros Hinc. revert st. induction records as [|r records IH]; intros st Hk.
  - exists st. simpl. auto.
  - simpl. rewrite process_record_known; auto; [|apply Hk; apply list_elem_of_here].
    simpl. destruct (IH (warned r st)) as (st' & E & Hp & Hm & Hl & Ht).
    + intros r' Hr'. rewrite parquet_warned. apply Hk. apply list_elem_of_further. exact Hr'.
    + exists st'. split; [exact E|]. rewrite Hp, Hm, Hl, parquet_warned.
      unfold warned in *. destruct (record_bbox r); simpl in *; repeat split; auto.
      intros Hw. apply Ht. rewrite forallb_app, Hw. reflexivity.
Qed.

(** *** Identifiers that are strings *)

(** The loading loops put every item with a string for identifier into
    its sub-catalog. *)
Lemma register_loop (step : State -> Item -> outcome State) (proj : State -> SubCatalog)
    (frame : State -> State -> Prop) :
  (forall st, frame st st) ->
  (forall a b c, frame a b -> frame b c -> frame a c) ->
  (forall st item id, item_id item = JStr id ->
     exists st', step st item = Ok st' /\ proj st' = add_item item id (proj st) /\ frame st st') ->
  forall items ids st,
    item_ids items = JStr <$> ids ->
    exists st',
      for_each step items st = Ok st' /\
      catalog_items (proj st') = catalog_items (proj st) ++ items /\
      existing_ids (proj st') = list_to_set ids ∪ existing_ids (proj st) /\
      frame st st'.
Proof.
  intros Hrefl Htrans Hstep. unfold item_ids.
  induction items as [|item items IH]; intros ids st Hids.
  - destruct ids; [|discriminate]. exists st. simpl. rewrite app_nil_r.
    split; [reflexivity|]. split; [reflexivity|]. split; [|apply Hrefl].
    rewrite union_empty_l_L. reflexivity.
  - destruct ids as [|id ids]; [discriminate|].
    change (item_id item :: (item_id <$> items) = JStr id :: (JStr <$> ids)) in Hids.
    injection Hids as Hid Hids.
    destruct (Hstep st item id Hid) as (st1 & E1 & Hp1 & Hf1).
    destruct (IH ids st1 Hids) as (st' & E' & Hc' & Hin' & Hf').
    exists st'. simpl. rewrite E1. simpl. split; [exact E'|].
    split; [rewrite Hc', Hp1; simpl; rewrite <- app_assoc; reflexivity|].
    split; [|eapply Htrans; eassumption].
    rewrite Hin', Hp1. simpl. rewrite union_assoc_L. f_equal. apply union_comm_L.
Qed.

Lemma register_parquet_step (st : State) (item : Item) (id : string) :
  item_id item = JStr id ->
  exists st', register_parquet st item = Ok st' /\
              parquet st' = add_item item id (parquet st) /\ same_but_parquet st st'.
Proof.
  intros Hid. unfold register_parquet. rewrite Hid. simpl.
  destruct (dict_get "properties" item) as [[| | | | | |p]|];
    try (eexists; split; [reflexivity|]; split; [reflexivity | repeat split]).
  destruct (truthy _); eexists; (split; [reflexivity|]); split; try reflexivity;
    repeat split.
Qed.

Lemma register_metadata_step (st : State) (item : Item) (id : string) :
  item_id item = JStr id ->
  exists st', register_metadata st item = Ok st' /\
              metadata st' = add_item item id (metadata st) /\ same_but_metadata st st'.
Proof.
  intros Hid. unfold register_metadata. rewrite Hid. simpl.
  eexists. split; [reflexivity|]. split; [reflexivity | repeat split].
Qed.

Lemma register_plot_step (st : State) (item : Item) (id : string) :
  item_id item = JStr id ->
  exists st', register_plot st item = Ok st' /\
              plots st' = add_item item id (plots st) /\ same_but_plots st st'.
Proof.
  intros Hid. unfold register_plot. rewrite Hid. simpl.
  eexists. split; [reflexivity|]. split; [reflexivity | repeat split].
Qed.

(** The start of an incremental run over catalogs whose items have
    strings for identifiers: every item is loaded and every identifier
    known. *)
Lemma initial_state_of_strings (args : Args) (found : Store) (idp idm idl : list string) :
  incremental args = true ->
  item_ids (load_existing_items (stored_parquet found)) = JStr <$> idp ->
  item_ids (load_existing_items (stored_metadata found)) = JStr <$> idm ->
  item_ids (load_existing_items (stored_plots found)) = JStr <$> idl ->
  exists st,
    initial_state args found = Ok st /\
    catalog_items (parquet st) = load_existing_items (stored_parquet found) /\
    catalog_items (metadata st) = load_existing_items (stored_metadata found) /\
    catalog_items (plots st) = load_existing_items (stored_plots found) /\
    existing_ids (parquet st) = list_to_set idp /\
    trace st = [].
Proof.
  intros Hinc Hp Hm Hl. unfold initial_state. rewrite Hinc.
  set (st0 := mkState _ _ _ _ _ _).
  destruct (register_loop register_parquet parquet same_but_parquet) with
    (items := load_existing_items (stored_parquet found)) (ids := idp) (st := st0)
    as (st1 & E1 & Hc1 & Hi1 & (Hm1 & Hl1 & Ht1)).
  { intros st. repeat split. }
  { intros a b c (? & ? & ?) (? & ? & ?). repeat split; congruence. }
  { apply register_parquet_step. }
  { exact Hp. }
  rewrite E1. simpl.
  destruct (register_loop register_metadata metadata same_but_metadata) with
    (items := load_existing_items (stored_metadata found)) (ids := idm) (st := st1)
    as (st2 & E2 & Hc2 & Hi2 & (Hp2 & Hl2 & Ht2)).
  { intros st. repeat split. }
  { intros a b c (? & ? & ?) (? & ? & ?). repeat split; congruence. }
  { apply register_metadata_step. }
  { exact Hm. }
  rewrite E2. simpl.
  destruct (register_loop register_plot plots same_but_plots) with
    (items := load_existing_items (stored_plots found)) (ids := idl) (st := st2)
    as (st3 & E3 & Hc3 & Hi3 & (Hp3 & Hm3 & Ht3)).
  { intros st. repeat split. }
  { intros a b c (? & ? & ?) (? & ? & ?). repeat split; congruence. }
  { apply register_plot_step. }
  { exact Hl. }
  exists st3. split; [exact E3|].
  split; [rewrite Hp3, Hp2, Hc1; reflexivity|].
  split; [rewrite Hm3, Hc2, Hm1; reflexivity|].
  split; [rewrite Hc3, Hl2, Hl1; reflexivity|].
  split; [rewrite Hp3, Hp2, Hi1; simpl; rewrite union_empty_r_L; reflexivity|].
  rewrite Ht3, Ht2, Ht1. reflexivity.
Qed.

(** Whatever is loaded has a string for identifier. *)
Lemma registered_strings (step : State -> Item -> outcome State) (items : list Item)
    (st st' : State) :
  (forall s item s', step s item = Ok s' -> exists id, item_id item = JStr id) ->
  for_each step items st = Ok st' -> exists ids, item_ids items = JStr <$> ids.
Proof.
  intros Hstep. revert st. induction items as [|item items IH]; intros st E; simpl in E.
  - exists []. reflexivity.
  - apply bind_ok in E as (s1 & E1 & E). destruct (Hstep _ _ _ E1) as [id Hid].
    destruct (IH s1 E) as [ids Hids]. exists (id :: ids).
    change (item_ids (item :: items)) with (item_id item :: item_ids items).
    rewrite Hid, Hids. reflexivity.
Qed.

Lemma add_item_strings (item : Item) (id : string) (s : SubCatalog) :
  item_id item = JStr id ->
  (exists ids, item_ids (catalog_items s) = JStr <$> ids) ->
  exists ids, item_ids (catalog_items (add_item item id s)) = JStr <$> ids.
Proof.
  intros Hid [ids Hids]. exists (ids ++ [id]). simpl. unfold item_ids in *.
  rewrite !fmap_app, Hids. simpl. rewrite Hid. reflexivity.
Qed.

Lemma register_loops_strings (st0 st : State) (found : Store) :
  (st1 ← for_each register_parquet (load_existing_items (stored_parquet found)) st0;
   st2 ← for_each register_metadata (load_existing_items (stored_metadata found)) st1;
   for_each register_plot (load_existing_items (stored_plots found)) st2) = Ok st ->
  companion_strings st0 -> companion_strings st.
Proof.
  intros E H0. apply bind_ok in E as (st1 & E1 & E). apply bind_ok in E as (st2 & E2 & E).
  apply (for_each_invariant companion_strings) in E1; [|clear E1|exact H0].
  2:{ intros s item s' _ Hs Hr. unfold register_parquet in Hr.
      apply bind_ok in Hr as (id & _ & Hr).
      destruct (dict_get "properties" item) as [[| | | | | |p]|];
        try (injection Hr as <-; exact Hs).
      destruct (truthy _); injection Hr as <-; exact Hs. }
  apply (for_each_invariant companion_strings) in E2; [|clear E2|exact E1].
  2:{ intros s item s' _ [Hm Hl] Hr. unfold register_metadata in Hr.
      apply bind_ok in Hr as (id & Eid & Hr). apply id_string_ok in Eid.
      injection Hr as <-. split; [|exact Hl].
      apply (add_item_strings item id (metadata s) Eid Hm). }
  apply (for_each_invariant companion_strings) in E; [exact E| |exact E2].
  intros s item s' _ [Hm Hl] Hr. unfold register_plot in Hr.
  apply bind_ok in Hr as (id & Eid & Hr). apply id_string_ok in Eid.
  injection Hr as <-. split; [exact Hm|].
  apply (add_item_strings item id (plots s) Eid Hl).
Qed.

Lemma initial_state_strings (args : Args) (prior : Store) (st0 : State) :
  initial_state args prior = Ok st0 ->
  companion_strings st0 /\ exists ids, item_ids (parquet_catalog st0) = JStr <$> ids.
Proof.
  intros E. assert (companion_strings
                      (mkState (fresh_extent (temporal_start args) (temporal_end args))
                         empty_sub_catalog empty_sub_catalog empty_sub_catalog
                         (if incremental args then stored_source_models prior else ∅) []))
    as H0 by (split; exists []; reflexivity).
  split.
  - unfold initial_state in E. destruct (incremental args).
    + apply (register_loops_strings _ _ _ E H0).
    + injection E as <-. exact H0.
  - destruct (initial_state_loaded _ _ _ E) as (Hc & _). rewrite Hc.
    unfold initial_state, loaded_items in *. destruct (incremental args);
      [|exists []; reflexivity].
    apply bind_ok in E as (st1 & E1 & _).
    apply (registered_strings register_parquet _ _ _) in E1; [exact E1|].
    intros s item s' Hr. unfold register_parquet in Hr.
    apply bind_ok in Hr as (id & Eid & _). apply id_string_ok in Eid. eauto.
Qed.

Lemma process_metadata_strings (args : Args) (world : World) (record : AssetRecord)
    (id : string) (parquet_item : Item) (st st' : State) :
  process_metadata args world record id parquet_item st = Ok st' ->
  companion_strings st -> companion_strings st'.
Proof.
  unfold process_metadata. intros E Hs.
  destruct (metadata_prefix args); [|injection E as <-; exact Hs].
  destruct (incremental args && known _ (metadata st)); [injection E as <-; exact Hs|].
  destruct (copy_succeeds world MetadataFS _); [|injection E as <-; exact Hs].
  apply bind_ok in E as (it1 & _ & E). apply bind_ok in E as (it2 & _ & E).
  apply bind_ok in E as (p' & _ & E). apply bind_ok in E as (mid & Eid & E).
  apply id_string_ok in Eid. injection E as <-. destruct Hs as [Hm Hl].
  split; [|exact Hl]. apply (add_item_strings it2 mid _ Eid Hm).
Qed.

Lemma process_plot_strings (args : Args) (world : World) (record : AssetRecord)
    (id : string) (parquet_item : Item) (st st' : State) (plot_info : PlotInfo) :
  process_plot args world record id parquet_item st plot_info = Ok st' ->
  companion_strings st -> companion_strings st'.
Proof.
  unfold process_plot. intros E Hs.
  destruct (negb (plot_is_file plot_info)); [injection E as <-; exact Hs|].
  destruct (negb (PyStr.endswith _ _)); [injection E as <-; exact Hs|].
  destruct (negb (copy_succeeds world PlotsFS _)); [injection E as <-; exact Hs|].
  destruct (incremental args && known _ _); [injection E as <-; exact Hs|].
  apply bind_ok in E as (it1 & _ & E). apply bind_ok in E as (it2 & _ & E).
  apply bind_ok in E as (p' & _ & E). apply bind_ok in E as (pid & Eid & E).
  apply id_string_ok in Eid. injection E as <-. destruct Hs as [Hm Hl].
  split; [exact Hm|]. apply (add_item_strings it2 pid _ Eid Hl).
Qed.

Lemma process_records_strings (args : Args) (world : World) (records : list AssetRecord)
    (st st' : State) :
  for_each (process_record args world) records st = Ok st' ->
  companion_strings st -> companion_strings st'.
Proof.
  intros E Hs. apply (for_each_invariant companion_strings) in E; [exact E| |exact Hs].
  clear. intros s record s' _ Hs Hr. unfold process_record in Hr. fold (warned record s) in Hr.
  assert (companion_strings (warned record s)) as Hw
    by (unfold warned; destruct (record_bbox record); exact Hs).
  destruct (incremental args && known _ _); [injection Hr as <-; exact Hw|].
  destruct (negb (copy_succeeds world InputFS _)); [discriminate|].
  apply bind_ok in Hr as (item & _ & Hr). apply bind_ok in Hr as (s1 & E1 & Hr).
  apply process_metadata_strings in E1.
  - unfold process_plots in Hr. destruct (plots_prefix args); [|injection Hr as <-; exact E1].
    apply (for_each_invariant companion_strings) in Hr; [exact Hr| |exact E1].
    intros s0 info s0' _ Hs0 Hp. apply (process_plot_strings _ _ _ _ _ _ _ _ Hp Hs0).
  - destruct (truthy _); unfold warned; destruct (record_bbox record); exact Hs.
Qed.

Lemma distinct_ids_same (items items' : list Item) :
  item_ids items = item_ids items' -> distinct_ids items = distinct_ids items'.
Proof.
  intros H. destruct (distinct_ids items') eqn:E'.
  - apply distinct_ids_spec in E' as (ids & Hids & Hnd). apply distinct_ids_spec.
    exists ids. rewrite H. auto.
  - destruct (distinct_ids items) eqn:E; [|reflexivity].
    apply distinct_ids_spec in E as (ids & Hids & Hnd).
    rewrite <- E'. symmetry. apply distinct_ids_spec. exists ids. rewrite <- H. auto.
Qed.

(** C1 (as amended): after a run with the incremental flag that returns,
    a second such run over the same root, which finds the catalogs of the
    first under the identifiers they were saved with, returns too; it
    finds every asset known and passes it over, so that it copies nothing
    and opens no parquet file in the loop; its sub-catalogs are the items
    it has loaded, with the identifiers the first run left, in their
    order, and no identifier twice when the output directory the first
    run started from held none twice; and an asset whose id is in the
    known data-id set is passed over before anything is copied, derived
    or linked, the state being touched by the warning about a missing
    bbox at most.  The override document, if there is one, does not set
    the identifier of the items. *)
Theorem incremental_rerun_idempotent (args : Args) (world : World)
    (store0 store1 found : Store) (st1 : State) :
  incremental args = true ->
  overrides_keep_id args = true ->
  build_items_and_collection args world store0 = Ok (st1, store1) ->
  reads_back st1 found ->
  (exists st2 store2,
     build_items_and_collection args world found = Ok (st2, store2) /\
     parquet_catalog st2 = load_existing_items (stored_parquet found) /\
     metadata_catalog st2 = load_existing_items (stored_metadata found) /\
     plots_catalog st2 = load_existing_items (stored_plots found) /\
     item_ids (parquet_catalog st2) = item_ids (parquet_catalog st1) /\
     item_ids (metadata_catalog st2) = item_ids (metadata_catalog st1) /\
     item_ids (plots_catalog st2) = item_ids (plots_catalog st1) /\
     (store_wf store0 = true ->
      distinct_ids (parquet_catalog st2) = true /\
      distinct_ids (metadata_catalog st2) = true /\
      distinct_ids (plots_catalog st2) = true) /\
     forallb is_warning (trace st2) = true) /\
  (forall st record,
     make_item_id record ∈ existing_parquet_ids st ->
     process_record args world st record = Ok (warned record st) /\
     (warned record st = st \/ warned record st = log (Warned (relative_path record)) st)).
Proof.
  intros Hinc Hk E (Hrp & Hrm & Hrl). split.
  2:{ intros st record Hin. split; [apply process_record_known; assumption|].
      unfold warned. destruct (record_bbox record); auto. }
  pose proof E as E'.
  apply build_items_and_collection_ok in E' as (Hne & _ & st0 & E0 & E1).
  (* the identifiers the first run leaves are strings *)
  destruct (initial_state_strings _ _ _ E0) as (Hcs0 & idp0 & Hidp0).
  destruct (process_records_strings _ _ _ _ _ E1 Hcs0) as ((idm & Hidm) & (idl & Hidl)).
  destruct (process_records_fresh _ _ _ _ _ E1) as (fresh & _ & _ & _ & Hids1 & _).
  specialize (Hids1 Hk).
  assert (item_ids (parquet_catalog st1) = JStr <$> (idp0 ++ (make_item_id <$> fresh)))
    as Hidp.
  { rewrite Hids1, Hidp0, fmap_app, <- list_fmap_compose. reflexivity. }
  (* every discovered asset is among them *)
  destruct (initial_state_loaded _ _ _ E0) as (_ & _ & _ & _ & Hcat0).
  destruct (process_records_catalogued _ _ _ _ _ Hk E1 Hcat0) as (Hcat1 & Hin1 & _).
  (* the second run loads them *)
  destruct (initial_state_of_strings args found (idp0 ++ (make_item_id <$> fresh)) idm idl Hinc)
    as (s0 & Es0 & Hcp & Hcm & Hcl & Hex & Htr).
  { rewrite Hrp. exact Hidp. }
  { rewrite Hrm. exact Hidm. }
  { rewrite Hrl. exact Hidl. }
  destruct (process_records_known args world (discovered world) s0 Hinc)
    as (st2 & E2 & Hp2 & Hm2 & Hl2 & Ht2).
  { intros r Hr. rewrite Hex. apply elem_of_list_to_set.
    destruct (Hcat1 _ (Hin1 r Hr)) as [Hj _]. rewrite Hidp in Hj.
    apply list_elem_of_fmap in Hj as (i & [= ->] & Hi). exact Hi. }
  exists st2, (persist st2 found).
  split.
  { unfold build_items_and_collection in *.
    destruct (negb (input_is_directory world)); [discriminate|].
    destruct (discovered world) as [|r records]; [contradiction|].
    rewrite Es0, bind_Ok_l, E2. reflexivity. }
  rewrite Hp2, Hm2, Hl2, Hcp, Hcm, Hcl.
  do 3 (split; [reflexivity|]).
  split; [exact Hrp|]. split; [exact Hrm|]. split; [exact Hrl|].
  split; [|apply Ht2; rewrite Htr; reflexivity].
  intros Hwf.
  destruct (initial_state_ok args store0 Hinc Hwf) as (st0' & E0' & Hok0 & _).
  rewrite E0 in E0'. injection E0' as <-.
  destruct (process_records_ok _ _ _ _ _ Hinc Hk E1 Hok0) as ((Hp & Hm & Hl) & _).
  apply distinct_ids_of_catalog in Hp, Hm, Hl.
  rewrite (distinct_ids_same _ _ Hrp), (distinct_ids_same _ _ Hrm),
    (distinct_ids_same _ _ Hrl). auto.
Qed.

End Reruns.

(** *** Copy failures *)

Section CopyFailures.
Context `{lib : Library}.

Lemma for_each_exit {A S : Type} (body : S -> A -> outcome S) (before after : list A)
    (x : A) (s0 s : S) (msg : string) :
  for_each body before s0 = Ok s -> body s x = Exit msg ->
  for_each body (before ++ x :: after) s0 = Exit msg.
Proof.
  intros Hb Hx. rewrite for_each_app, Hb, bind_Ok_l. simpl. rewrite Hx. reflexivity.
Qed.

(** C5 (as amended): when the bytes of a data parquet file that is being
    processed cannot be copied, the whole run exits; when the bytes of a
    metadata sidecar or of a plot image cannot be copied, that companion is
    left out and the run goes on. *)
Theorem copy_failure_is_fatal_for_data_only (args : Args) (world : World) :
  (forall prior before record after st0 st,
     input_is_directory world = true ->
     discovered world = before ++ record :: after ->
     initial_state args prior = Ok st0 ->
     for_each (process_record args world) before st0 = Ok st ->
     incremental args && known (make_item_id record) (parquet st) = false ->
     copy_succeeds world InputFS (relative_path record) = false ->
     exists msg, build_items_and_collection args world prior = Exit msg) /\
  (forall record id parquet_item st,
     copy_succeeds world MetadataFS (path_parent (relative_path record) ++ ["metadata.json"])
       = false ->
     exists st',
       process_metadata args world record id parquet_item st = Ok st' /\
       parquet st' = parquet st /\ metadata st' = metadata st /\ plots st' = plots st) /\
  (forall record id parquet_item st plot_info,
     copy_succeeds world PlotsFS (plot_rel plot_info) = false ->
     exists st',
       process_plot args world record id parquet_item st plot_info = Ok st' /\
       parquet st' = parquet st /\ metadata st' = metadata st /\ plots st' = plots st).
Proof.
  split; [|split].
  - intros prior before record after st0 st Hdir Hrec Hinit Hbefore Hnew Hcopy.
    exists "Failed to copy the asset into the assets directory.".
    unfold build_items_and_collection. rewrite Hdir. simpl negb. cbv iota.
    destruct (discovered world) as [|r0 rs] eqn:Ed.
    { destruct before; discriminate. }
    rewrite Hrec, Hinit, bind_Ok_l.
    rewrite (for_each_exit _ before after record st0 st
               "Failed to copy the asset into the assets directory." Hbefore);
      [reflexivity|].
    unfold process_record. fold (warned record st). rewrite parquet_warned, Hnew.
    simpl. rewrite Hcopy. reflexivity.
  - intros record id parquet_item st Hcopy. unfold process_metadata.
    destruct (metadata_prefix args); [|exists st; auto].
    destruct (incremental args && known _ (metadata st)); [exists st; auto|].
    rewrite Hcopy. eexists. split; [reflexivity|]. auto.
  - intros record id parquet_item st plot_info Hcopy. unfold process_plot.
    destruct (negb (plot_is_file plot_info)); [exists st; auto|].
    destruct (negb (PyStr.endswith _ _)); [exists st; auto|].
    rewrite Hcopy. simpl. eexists. split; [reflexivity|]. auto.
Qed.

End CopyFailures.

(** *** Plot items *)

Section PlotItems.
Import PyStr.
Context `{lib : Library}.




End PlotItems.

(** ** The theorems at concrete inputs *)

Section Instances.
Import PyFloat.
Local Open Scope string_scope.

(** C1 at the example root: the second run finds the data item of the
    first under its identifier, with another href, and leaves the data
    sub-catalog at that. *)
Lemma incremental_rerun_idempotent_witness :
  build_items_and_collection (H := example_library) example_args example_world empty_store
    = Ok (example_state, example_store) /\
  reads_back example_state example_found_store /\
  exists st2 store2,
    build_items_and_collection (H := example_library) example_args example_world
      example_found_store = Ok (st2, store2) /\
    item_ids (parquet_catalog st2) = item_ids (parquet_catalog example_state) /\
    distinct_ids (parquet_catalog st2) = true /\
    forallb is_warning (trace st2) = true.
Proof.
  assert (build_items_and_collection (H := example_library) example_args example_world
            empty_store = Ok (example_state, example_store)) as E
    by (vm_compute; reflexivity).
  assert (reads_back example_state example_found_store) as Hr
    by (repeat split; vm_compute; reflexivity).
  split; [exact E|]. split; [exact Hr|].
  destruct (incremental_rerun_idempotent (lib := example_library) example_args example_world
              empty_store example_store example_found_store example_state
              eq_refl eq_refl E Hr)
    as [(st2 & store2 & E2 & _ & _ & _ & Hi & _ & _ & Hd & Hw) _].
  exists st2, store2. split; [exact E2|]. split; [exact Hi|].
  split; [apply (Hd eq_refl) | exact Hw].
Defined.

(** C1 as stated fails in two ways.  With an override document that sets
    the identifier of the items, the first run leaves the data item under
    that identifier, the second run does not find the identifier it
    derives from the path among the known ones, copies the file again and
    puts a second item under the same identifier into the catalog.  And
    without any override, from an output directory whose data catalog
    lists two items under one identifier, both runs carry the two along. *)
Lemma incremental_rerun_duplicates_counterexample :
  (exists st1 store1 st2 store2,
     build_items_and_collection (H := example_library) id_override_args copyable_world
       empty_store = Ok (st1, store1) /\
     reads_back st1 store1 /\
     build_items_and_collection (H := example_library) id_override_args copyable_world
       store1 = Ok (st2, store2) /\
     item_ids (parquet_catalog st1) = [JStr "fixed"] /\
     item_ids (parquet_catalog st2) = [JStr "fixed"; JStr "fixed"] /\
     distinct_ids (parquet_catalog st2) = false /\
     data_copies (trace st2)
       = [["year=2025"; "month=01"; "day=02"; "hour=03"; "data.parquet"]]) /\
  (exists st1 store1 st2 store2,
     build_items_and_collection (H := example_library)
       (mkArgs true false false None None None) copyable_world repeated_id_store
       = Ok (st1, store1) /\
     reads_back st1 store1 /\
     build_items_and_collection (H := example_library)
       (mkArgs true false false None None None) copyable_world store1 = Ok (st2, store2) /\
     item_ids (parquet_catalog st2)
       = [JStr "20240101T00"; JStr "20240101T00"; JStr "20250102T03"] /\
     distinct_ids (parquet_catalog st2) = false /\
     data_copies (trace st2) = []).
Proof.
  split; eexists _, _, _, _; (split; [vm_compute; reflexivity|]);
    (split; [repeat split; vm_compute; reflexivity|]);
    (split; [vm_compute; reflexivity|]); repeat split; vm_compute; reflexivity.
Defined.

(** C2 at the boxes [0,0,1,1] and [1,1,2,2] of the specification. *)
Lemma extent_accumulator_union_monotone_witness :
  spatial two_boxes_folded = box 0 0 2 2 /\
  is_union_of (spatial two_boxes_folded) [box 0 0 1 1; box 1 1 2 2] /\
  bbox_contains (spatial two_boxes_folded) (spatial one_box_folded).
Proof.
  split; [reflexivity|].
  destruct (extent_accumulator_union_monotone None None
              [(Some (box 0 0 1 1), None, None)] (Some (box 1 1 2 2), None, None))
    as (_ & _ & Hu & Hc & _).
  - intros b Hb. simpl in Hb.
    apply elem_of_cons in Hb as [-> | Hb]; [repeat split|].
    apply elem_of_cons in Hb as [-> | Hb]; [repeat split|].
    apply elem_of_nil in Hb. destruct Hb.
  - split; [apply Hu | apply Hc]; discriminate.
Defined.

(** C2 as stated fails at a bbox with a NaN first coordinate: the next
    bbox replaces the accumulator, whose min-y rises from 0 to 5. *)
Lemma extent_accumulator_nan_counterexample :
  spatial nan_box_folded = nan_box /\
  spatial nan_box_then_box_folded = box 5 5 6 6 /\
  le (miny (spatial nan_box_then_box_folded)) (miny (spatial nan_box_folded)) = false /\
  ~ bbox_contains (spatial nan_box_then_box_folded) (spatial nan_box_folded) /\
  ~ is_union_of (spatial nan_box_then_box_folded) [nan_box; box 5 5 6 6].
Proof.
  split; [reflexivity|]. split; [reflexivity|]. split; [reflexivity|]. split.
  - intros (_ & Hy & _). vm_compute in Hy. discriminate.
  - intros (_ & (_ & Hy) & _). specialize (Hy (miny nan_box)).
    assert (miny nan_box ∈ miny <$> [nan_box; box 5 5 6 6]) as Hin by apply list_elem_of_here.
    apply Hy in Hin. vm_compute in Hin. discriminate.
Defined.

(** C3 at the path of the specification, and at a file outside the
    partition layout: the dot of [Winds.2025] has become a hyphen. *)
Lemma make_item_id_spec_witness :
  make_item_id (H := PyStr.ascii_only) example_record
    = "2025" +:+ "01" +:+ "02" +:+ "T" +:+ "03" /\
  String.get 5 (make_item_id (H := PyStr.ascii_only) example_loose_record) = Some "-"%char.
Proof.
  split.
  - apply (proj1 (make_item_id_spec (uni := PyStr.ascii_only) example_record)); reflexivity.
  - destruct (proj1 (proj2 (make_item_id_spec (uni := PyStr.ascii_only)
                              example_loose_record)))
      as (_ & Hascii & _); [left; reflexivity|].
    destruct (Hascii eq_refl) as [_ Hget]. apply (Hget 5%nat "."%char). reflexivity.
Defined.



(** C5 at a root whose data file cannot be copied: the run exits. *)
Lemma copy_failure_is_fatal_for_data_only_witness :
  exists msg,
    build_items_and_collection (H := example_library)
      (mkArgs false true true None None None) unreadable_world empty_store = Exit msg.
Proof.
  apply (proj1 (copy_failure_is_fatal_for_data_only (lib := example_library)
                  (mkArgs false true true None None None) unreadable_world)
           empty_store [] example_record []
           (mkState (fresh_extent None None) empty_sub_catalog empty_sub_catalog
                    empty_sub_catalog ∅ [])
           (mkState (fresh_extent None None) empty_sub_catalog empty_sub_catalog
                    empty_sub_catalog ∅ []));
    reflexivity.
Defined.

(** C5 as stated fails at [example_world]: the copies of the metadata
    sidecar and of the plot fail, and the run ends with the data item
    cataloged and no companion. *)
Lemma copy_failure_companion_counterexample :
  copy_succeeds example_world MetadataFS
    ["year=2025"; "month=01"; "day=02"; "hour=03"; "metadata.json"] = false /\
  copy_succeeds example_world PlotsFS
    ["year=2025"; "month=01"; "day=02"; "hour=03"; "grid_points.png"] = false /\
  build_items_and_collection (H := example_library) example_args example_world empty_store
    = Ok (example_state, example_store) /\
  trace example_state =
    [Copied InputFS ["year=2025"; "month=01"; "day=02"; "hour=03"; "data.parquet"];
     OpenedParquet ["year=2025"; "month=01"; "day=02"; "hour=03"; "data.parquet"];
     Copied MetadataFS ["year=2025"; "month=01"; "day=02"; "hour=03"; "metadata.json"];
     Copied PlotsFS ["year=2025"; "month=01"; "day=02"; "hour=03"; "grid_points.png"]] /\
  item_ids (parquet_catalog example_state) = [JStr "20250102T03"] /\
  metadata_catalog example_state = [] /\
  plots_catalog example_state = [].
Proof. repeat split; vm_compute; reflexivity. Defined.

(** C6 at the documents of the specification. *)
Lemma deep_merge_dict_spec_witness :
  dict_get "properties"
    (deep_merge_dict [("properties", JObj [("row_count", JInt 10)])]
                     [("properties", JObj [("x", JInt 1)])]) =
  Some (JObj (deep_merge_dict [("row_count", JInt 10)] [("x", JInt 1)])).
Proof.
  apply (proj1 (deep_merge_dict_spec [("properties", JObj [("row_count", JInt 10)])]
                  [("properties", JObj [("x", JInt 1)])] "properties" eq_refl));
    reflexivity.
Defined.

(** C7 at an override of the title of the data asset. *)
Lemma override_keeps_asset_href_witness :
  exists merged,
    apply_item_overrides example_item example_overrides = Ok merged /\
    merged = deep_merge_dict example_item example_overrides /\
    asset_href merged "data" = Some (JStr "../../../assets/parquet/data.parquet").
Proof.
  apply (override_keeps_asset_href example_item example_overrides
           [("data", JObj [("href", JStr "../../../assets/parquet/data.parquet");
                           ("title", JStr "Interpolated winds GeoParquet")])]
           [("data", JObj [("title", JStr "Winds")])]
           [("href", JStr "../../../assets/parquet/data.parquet");
            ("title", JStr "Interpolated winds GeoParquet")]
           [("title", JStr "Winds")] "data");
    reflexivity.
Defined.


(** C9 at the segment [year=2025]. *)
Lemma parse_partitions_entries_witness :
  is_partition_segment "year=2025" = true /\
  parse_partitions (["out"] ++ ["year=2025"])%list = dict_set "year" "2025" (parse_partitions ["out"]).
Proof.
  apply (proj1 (proj2 (parse_partitions_entries ["out"] "year=2025")) "year" "2025").
  split; [reflexivity|]. split; [discriminate | reflexivity].
Defined.

(** C9 as stated fails at [a=b=c], which has two [=] and yields a pair,
    and at [=x], which has exactly one [=] and yields none. *)
Lemma parse_partitions_counterexample :
  PyStr.count_char "=" "a=b=c" = 2%nat /\
  parse_partitions ["a=b=c"] = [("a", "b=c")] /\
  PyStr.count_char "=" "=x" = 1%nat /\
  parse_partitions ["=x"] = [].
Proof. repeat split; reflexivity. Defined.

(** C10 at a file with [x] and [y] columns and no row. *)
Lemma scan_lon_lat_bbox_no_rows_witness :
  scan_lon_lat_bbox example_empty_file = None /\
  resolve_bbox None example_empty_file = None /\
  spatial (update_collection_extent (fresh_extent None None)
             (resolve_bbox None example_empty_file) None None) = placeholder_bbox.
Proof.
  apply (scan_lon_lat_bbox_no_rows example_empty_file "x" "y" (fresh_extent None None)
           None None); reflexivity.
Defined.

End Instances.

(** * Further properties of the code *)

(** ** Datetimes *)

Section Normalisation.
Context `{py : PyDatetime}.

Lemma normalise_utc_instant (d : datetime) : dt_instant (normalise_utc d) = dt_instant d.
Proof.
  destruct d as [w [o|]];
    unfold normalise_utc, astimezone_utc, replace_tzinfo_utc, dt_instant, utc; simpl; lia.
Qed.

(** What [Bounded.normalise_utc] does with a datetime. *)
Lemma bounded_normalise_utc_cases (d : datetime) :
  (dt_tz d = None /\ Bounded.normalise_utc d = Ok (mkDatetime (dt_wall d) utc)) \/
  (dt_tz d <> None /\ in_calendar (dt_instant d) = true /\
   Bounded.normalise_utc d = Ok (mkDatetime (dt_instant d) utc)) \/
  (dt_tz d <> None /\ in_calendar (dt_instant d) = false /\
   Bounded.normalise_utc d = Raise "OverflowError").
Proof.
  unfold Bounded.normalise_utc, Bounded.astimezone_utc.
  destruct (dt_tz d) as [o|]; [|left; auto].
  destruct (in_calendar (dt_instant d)); right; [left | right];
    (split; [discriminate | auto]).
Qed.

(** Where [Bounded.normalise_utc] returns, it returns what
    [normalise_utc] gives. *)
Lemma bounded_normalise_utc_agrees (d d' : datetime) :
  Bounded.normalise_utc d = Ok d' -> d' = normalise_utc d.
Proof.
  unfold Bounded.normalise_utc, Bounded.astimezone_utc, normalise_utc.
  destruct (dt_tz d); [|intros [= <-]; reflexivity].
  destruct (in_calendar _); [intros [= <-]; reflexivity | discriminate].
Qed.

(** X1: [ensure_utc] keeps [None]; a naive datetime gets the UTC zone and
    keeps its wall clock; an aware one is moved to UTC, which is an
    [OverflowError] exactly when the instant it denotes lies outside the
    years 1 to 9999; what is returned is in UTC and denotes the instant of
    the argument, and [ensure_utc] returns it unchanged when it is applied
    to it again. *)
Theorem ensure_utc_idempotent (dt : option datetime) :
  (dt = None -> Bounded.ensure_utc dt = Ok None) /\
  (forall d, dt = Some d -> dt_tz d = None ->
     Bounded.ensure_utc dt = Ok (Some (mkDatetime (dt_wall d) utc))) /\
  (forall d o, dt = Some d -> dt_tz d = Some o ->
     (in_calendar (dt_wall d - o) = true ->
      Bounded.ensure_utc dt = Ok (Some (mkDatetime (dt_wall d - o) utc))) /\
     (in_calendar (dt_wall d - o) = false ->
      Bounded.ensure_utc dt = Raise "OverflowError")) /\
  (forall r, Bounded.ensure_utc dt = Ok r ->
     r = ensure_utc dt /\
     (r = None <-> dt = None) /\
     (forall d d', dt = Some d -> r = Some d' ->
        dt_tz d' = utc /\ dt_instant d' = dt_instant d) /\
     ((forall d, dt = Some d -> in_calendar (dt_wall d) = true) ->
      Bounded.ensure_utc r = Ok r)).
Proof.
  split; [intros ->; reflexivity|].
  split.
  { intros d -> Hn. unfold Bounded.ensure_utc, Bounded.normalise_utc. rewrite Hn.
    reflexivity. }
  split.
  { intros d o -> Ho. unfold Bounded.ensure_utc, Bounded.normalise_utc,
      Bounded.astimezone_utc, dt_instant. rewrite Ho. simpl.
    split; intros ->; reflexivity. }
  intros r E. destruct dt as [d|]; simpl in E; [|injection E as <-].
  2:{ split; [reflexivity|]. split; [tauto|]. split; [discriminate|].
      intros _. reflexivity. }
  apply bind_ok in E as (d' & E & Er). injection Er as <-.
  pose proof (bounded_normalise_utc_agrees _ _ E) as Hd'.
  split; [simpl; rewrite Hd'; reflexivity|].
  split; [split; discriminate|].
  split.
  { intros d0 d0' [= <-] [= <-]. rewrite Hd'.
    split; [apply normalise_utc_tz | apply normalise_utc_instant]. }
  intros Hv. specialize (Hv d eq_refl). simpl.
  assert (Bounded.normalise_utc d' = Ok d') as ->; [|reflexivity].
  destruct (bounded_normalise_utc_cases d) as [[Hn E'] | [(Hn & Hc & E') | (_ & _ & E')]];
    rewrite E in E'; try discriminate; injection E' as ->;
    unfold Bounded.normalise_utc, Bounded.astimezone_utc, dt_instant, utc; simpl;
    rewrite Z.sub_0_r.
  - rewrite Hv. reflexivity.
  - unfold dt_instant in Hc. rewrite Hc. reflexivity.
Qed.

Lemma ensure_utc_idempotent_witness :
  Bounded.ensure_utc (Some example_first_hour) = Raise "OverflowError" /\
  Bounded.ensure_utc (Some (mkDatetime 7200 (Some 3600))) = Ok (Some (mkDatetime 3600 utc)).
Proof.
  split.
  - apply (proj2 (proj1 (proj2 (proj2 (ensure_utc_idempotent (Some example_first_hour))))
                    example_first_hour microseconds_per_hour eq_refl eq_refl)).
    reflexivity.
  - apply (proj1 (proj1 (proj2 (proj2 (ensure_utc_idempotent
                                          (Some (mkDatetime 7200 (Some 3600))))))
                    (mkDatetime 7200 (Some 3600)) 3600 eq_refl eq_refl)).
    reflexivity.
Defined.

Lemma substring_app_r (x y : string) (n m : nat) :
  substring (String.length x + n) m (x +:+ y) = substring n m y.
Proof. induction x as [|c x IH]; simpl; [reflexivity | exact IH]. Qed.

Lemma substring_all (s : string) : substring 0 (String.length s) s = s.
Proof. induction s as [|c s IH]; simpl; [reflexivity | rewrite IH; reflexivity]. Qed.

Lemma endswith_app (x p : string) : PyStr.endswith (x +:+ p) p = true.
Proof.
  unfold PyStr.endswith. rewrite length_append.
  replace (String.length x + String.length p - String.length p)%nat
    with (String.length x + 0)%nat by lia.
  rewrite substring_app_r, substring_all, String.eqb_refl, andb_true_r.
  apply Nat.leb_le. lia.
Qed.

Lemma endswith_last (x p : string) (c d : ascii) :
  c <> d -> PyStr.endswith (x +:+ p +:+ String c EmptyString) (String d EmptyString) = false.
Proof.
  intros Hcd. unfold PyStr.endswith. rewrite !length_append. simpl String.length.
  replace (String.length x + (String.length p + 1) - 1)%nat
    with (String.length x + (String.length p + 0))%nat by lia.
  rewrite substring_app_r, substring_app_r. simpl.
  apply andb_false_intro2. destruct (Ascii.eqb_spec c d); [contradiction | reflexivity].
Qed.

(** What [Bounded.parse_datetime] makes of the datetime [fromisoformat]
    reads. *)
Lemma bounded_normalise_utc_reading (d0 : datetime) :
  (forall d, Bounded.normalise_utc d0 = Ok d ->
     dt_tz d = utc /\ dt_instant d = dt_instant d0 /\
     (dt_tz d0 = None -> dt_wall d = dt_wall d0)) /\
  (dt_tz d0 = None \/ in_calendar (dt_instant d0) = true ->
   exists d, Bounded.normalise_utc d0 = Ok d) /\
  (dt_tz d0 <> None -> in_calendar (dt_instant d0) = false ->
   Bounded.normalise_utc d0 = Raise "OverflowError").
Proof.
  split; [|split].
  - intros d E. apply bounded_normalise_utc_agrees in E. subst d.
    split; [apply normalise_utc_tz|]. split; [apply normalise_utc_instant|].
    intros Hn. unfold normalise_utc. rewrite Hn. reflexivity.
  - destruct (bounded_normalise_utc_cases d0) as [[Hn E] | [(Hn & Hc & E) | (Hn & Hc & E)]];
      [eauto | eauto|].
    intros [H | H]; [contradiction | congruence].
  - intros Hn Hc.
    destruct (bounded_normalise_utc_cases d0) as [[Hn' E] | [(_ & Hc' & E) | (_ & _ & E)]];
      [contradiction | congruence | exact E].
Qed.

(** X2: [parse_datetime] reads a trailing [Z] as the offset [+00:00]: the
    string handed to [fromisoformat] is the argument with [+00:00] in
    place of the [Z], and the argument itself when it does not end in
    [Z]; a string [fromisoformat] refuses is a [ValueError]; of the
    datetime it reads, what is returned is in UTC and denotes its instant,
    a naive reading keeping its wall clock; nothing is returned, and an
    [OverflowError] raised, exactly for an aware reading whose instant is
    outside the years 1 to 9999. *)
Theorem parse_datetime_zulu (value : string) :
  (forall s, value = s +:+ "Z" ->
     Bounded.parse_datetime value = Bounded.parse_datetime (s +:+ "+00:00") /\
     (fromisoformat (s +:+ "+00:00") = None ->
      Bounded.parse_datetime value = Raise "ValueError") /\
     forall d0, fromisoformat (s +:+ "+00:00") = Some d0 ->
       (forall d, Bounded.parse_datetime value = Ok d ->
          dt_tz d = utc /\ dt_instant d = dt_instant d0 /\
          (dt_tz d0 = None -> dt_wall d = dt_wall d0)) /\
       (dt_tz d0 = None \/ in_calendar (dt_instant d0) = true ->
        exists d, Bounded.parse_datetime value = Ok d) /\
       (dt_tz d0 <> None -> in_calendar (dt_instant d0) = false ->
        Bounded.parse_datetime value = Raise "OverflowError")) /\
  (PyStr.endswith value "Z" = false ->
     (fromisoformat value = None -> Bounded.parse_datetime value = Raise "ValueError") /\
     forall d0, fromisoformat value = Some d0 ->
       (forall d, Bounded.parse_datetime value = Ok d ->
          dt_tz d = utc /\ dt_instant d = dt_instant d0 /\
          (dt_tz d0 = None -> dt_wall d = dt_wall d0)) /\
       (dt_tz d0 = None \/ in_calendar (dt_instant d0) = true ->
        exists d, Bounded.parse_datetime value = Ok d) /\
       (dt_tz d0 <> None -> in_calendar (dt_instant d0) = false ->
        Bounded.parse_datetime value = Raise "OverflowError")) /\
  (forall d, Bounded.parse_datetime value = Ok d -> parse_datetime value = Some d).
Proof.
  split; [|split].
  - intros s ->.
    assert (Bounded.parse_datetime (s +:+ "Z")
            = match fromisoformat (s +:+ "+00:00") with
              | Some dt => Bounded.normalise_utc dt
              | None => Raise "ValueError"
              end) as E1.
    { unfold Bounded.parse_datetime. rewrite endswith_app, length_append.
      simpl String.length.
      replace (String.length s + 1 - 1)%nat with (String.length s) by lia.
      rewrite substring_prefix. reflexivity. }
    split.
    { rewrite E1. unfold Bounded.parse_datetime.
      change (s +:+ "+00:00") with (s +:+ "+00:0" +:+ "0").
      rewrite (endswith_last s "+00:0" "0" "Z") by discriminate. reflexivity. }
    rewrite E1. split; [intros ->; reflexivity|].
    intros d0 ->. apply bounded_normalise_utc_reading.
  - intros Hz. unfold Bounded.parse_datetime. rewrite Hz.
    split; [intros ->; reflexivity|].
    intros d0 ->. apply bounded_normalise_utc_reading.
  - intros d. unfold Bounded.parse_datetime, parse_datetime.
    destruct (fromisoformat _) as [d0|]; [|discriminate].
    intros E. apply bounded_normalise_utc_agrees in E. rewrite E. reflexivity.
Qed.

End Normalisation.

Lemma parse_datetime_zulu_witness :
  Bounded.parse_datetime (H := example_edge_clock) "0001-01-01T00:00:00+01:00"
    = Raise "OverflowError" /\
  exists d, Bounded.parse_datetime (H := example_edge_clock) "0001-01-01T00:00:00Z" = Ok d.
Proof.
  split.
  - apply (proj2 (proj2 (proj2 (proj1 (proj2 (parse_datetime_zulu (py := example_edge_clock)
                                                 "0001-01-01T00:00:00+01:00"))
                                        eq_refl)
                                 example_first_hour eq_refl)));
      [discriminate | reflexivity].
  - apply (proj1 (proj2 (proj2 (proj2 (proj1 (parse_datetime_zulu (py := example_edge_clock)
                                                "0001-01-01T00:00:00Z")
                                         "0001-01-01T00:00:00" eq_refl))
                                 (mkDatetime min_wall utc) eq_refl))).
    right. reflexivity.
Defined.

(** ** Timestamp bounds *)

Section TimestampShape.
Context `{py : PyDatetime}.






End TimestampShape.


(** ** The bounding box of the scan *)

Section ScanBounds.
Import PyFloat FloatOrder.

Lemma np_min2_min (a b : float) :
  is_nan a = false -> is_nan b = false -> np_min2 a b = min a b.
Proof. intros Ha Hb. unfold np_min2, min. rewrite Ha, Hb. reflexivity. Qed.

Lemma np_max2_max (a b : float) :
  is_nan a = false -> is_nan b = false -> np_max2 a b = max a b.
Proof. intros Ha Hb. unfold np_max2, max. rewrite Ha, Hb. reflexivity. Qed.

Lemma np_min_spec (x : float) (xs : list float) :
  (forall v, v ∈ x :: xs -> is_nan v = false) ->
  is_nan (np_min x xs) = false /\ forall v, v ∈ x :: xs -> le (np_min x xs) v = true.
Proof.
  unfold np_min. revert x. induction xs as [|y ys IH]; intros x Hn; simpl.
  - split; [apply Hn, list_elem_of_here|]. intros v Hv.
    apply list_elem_of_singleton in Hv. subst. apply le_refl, Hn, list_elem_of_here.
  - assert (is_nan x = false) as Hx by apply Hn, list_elem_of_here.
    assert (is_nan y = false) as Hy by apply Hn, list_elem_of_further, list_elem_of_here.
    rewrite np_min2_min by assumption.
    destruct (IH (min x y)) as [Hm Hle].
    { intros v Hv. apply elem_of_cons in Hv as [-> | Hv]; [apply min_nan; assumption|].
      apply Hn. do 2 apply list_elem_of_further. exact Hv. }
    split; [exact Hm|]. intros v Hv.
    pose proof (Hle (min x y) (list_elem_of_here _ _)) as H0.
    assert (is_nan (min x y) = false) as Hxy by (apply min_nan; assumption).
    apply elem_of_cons in Hv as [-> | Hv].
    { apply (le_trans _ (min x y)); auto. apply min_le_l; assumption. }
    apply elem_of_cons in Hv as [-> | Hv].
    { apply (le_trans _ (min x y)); auto. apply min_le_r; assumption. }
    apply Hle. apply list_elem_of_further. exact Hv.
Qed.

Lemma np_max_spec (x : float) (xs : list float) :
  (forall v, v ∈ x :: xs -> is_nan v = false) ->
  is_nan (np_max x xs) = false /\ forall v, v ∈ x :: xs -> le v (np_max x xs) = true.
Proof.
  unfold np_max. revert x. induction xs as [|y ys IH]; intros x Hn; simpl.
  - split; [apply Hn, list_elem_of_here|]. intros v Hv.
    apply list_elem_of_singleton in Hv. subst. apply le_refl, Hn, list_elem_of_here.
  - assert (is_nan x = false) as Hx by apply Hn, list_elem_of_here.
    assert (is_nan y = false) as Hy by apply Hn, list_elem_of_further, list_elem_of_here.
    rewrite np_max2_max by assumption.
    destruct (IH (max x y)) as [Hm Hle].
    { intros v Hv. apply elem_of_cons in Hv as [-> | Hv]; [apply max_nan; assumption|].
      apply Hn. do 2 apply list_elem_of_further. exact Hv. }
    split; [exact Hm|]. intros v Hv.
    pose proof (Hle (max x y) (list_elem_of_here _ _)) as H0.
    assert (is_nan (max x y) = false) as Hxy by (apply max_nan; assumption).
    assert (is_nan v = false) as Hv' by (apply Hn; exact Hv).
    apply elem_of_cons in Hv as [-> | Hv].
    { apply (le_trans _ (max x y)); auto. apply max_ge_l; assumption. }
    apply elem_of_cons in Hv as [-> | Hv].
    { apply (le_trans _ (max x y)); auto. apply max_ge_r; assumption. }
    apply Hle. apply list_elem_of_further. exact Hv.
Qed.

Lemma number_at_numpy (col : string) (rg : row_group) (row : dict cell) (x : float) :
  row ∈ rg -> number_at col row = Some x -> x ∈ to_numpy (rg_column col rg).
Proof.
  intros Hrow Hx. unfold to_numpy, rg_column. rewrite <- list_fmap_compose.
  apply list_elem_of_fmap. exists row. split; [|exact Hrow].
  unfold number_at in Hx. simpl.
  destruct (dict_get col row) as [[| | |f|]|]; try discriminate. simpl.
  destruct (is_nan f); [discriminate|]. injection Hx as <-. reflexivity.
Qed.

Lemma numeric_numpy (col : string) (rg : row_group) (v : float) :
  numeric col rg -> v ∈ to_numpy (rg_column col rg) -> is_nan v = false.
Proof.
  intros Hn Hv. unfold to_numpy, rg_column in Hv. rewrite <- list_fmap_compose in Hv.
  apply list_elem_of_fmap in Hv as (row & -> & Hrow).
  destruct (Hn row Hrow) as [x Hx]. unfold number_at in Hx. simpl.
  destruct (dict_get col row) as [[| | |f|]|]; try discriminate. simpl.
  destruct (is_nan f); [discriminate | reflexivity].
Qed.

Lemma number_at_nan (col : string) (row : dict cell) (x : float) :
  number_at col row = Some x -> is_nan x = false.
Proof.
  unfold number_at. destruct (dict_get col row) as [[| | |f|]|]; try discriminate.
  destruct (is_nan f) eqn:E; [discriminate|]. intros [= <-]. exact E.
Qed.

Lemma scan_step_inv (lon_col lat_col : string) (acc : float * float * float * float)
    (seen : list row_group) (rg : row_group) :
  numeric lon_col rg -> numeric lat_col rg ->
  scan_inv lon_col lat_col acc seen ->
  scan_inv lon_col lat_col (scan_step lon_col lat_col acc rg) (seen ++ [rg]).
Proof.
  intros Hlon Hlat. destruct acc as [[[a b] c] d]. intros [(Ha & Hb & Hc & Hd) Hseen].
  unfold scan_step.
  destruct (to_numpy (rg_column lon_col rg)) as [|lon lons] eqn:Elon.
  { destruct rg as [|row rows]; [|discriminate]. split; [auto|].
    intros rg row x y Hrg. apply elem_of_app in Hrg as [Hrg | Hrg]; [eauto|].
    apply list_elem_of_singleton in Hrg. subst. intros Hrow.
    apply elem_of_nil in Hrow. destruct Hrow. }
  destruct (to_numpy (rg_column lat_col rg)) as [|lat lats] eqn:Elat.
  { destruct rg as [|row rows]; discriminate. }
  destruct (np_min_spec lon lons) as [Hn1 Hm1].
  { intros v Hv. apply (numeric_numpy lon_col rg); [exact Hlon | rewrite Elon; exact Hv]. }
  destruct (np_max_spec lon lons) as [Hn2 Hm2].
  { intros v Hv. apply (numeric_numpy lon_col rg); [exact Hlon | rewrite Elon; exact Hv]. }
  destruct (np_min_spec lat lats) as [Hn3 Hm3].
  { intros v Hv. apply (numeric_numpy lat_col rg); [exact Hlat | rewrite Elat; exact Hv]. }
  destruct (np_max_spec lat lats) as [Hn4 Hm4].
  { intros v Hv. apply (numeric_numpy lat_col rg); [exact Hlat | rewrite Elat; exact Hv]. }
  split.
  { repeat split; (apply min_nan || apply max_nan); assumption. }
  intros rg' row x y Hrg Hrow Hx Hy.
  pose proof (number_at_nan _ _ _ Hx) as Hxn. pose proof (number_at_nan _ _ _ Hy) as Hyn.
  apply elem_of_app in Hrg as [Hrg | Hrg].
  - destruct (Hseen rg' row x y Hrg Hrow Hx Hy) as (H1 & H2 & H3 & H4).
    repeat split.
    + apply (le_trans _ a); auto using min_nan, min_le_l.
    + apply (le_trans _ c); auto using max_nan, max_ge_l.
    + apply (le_trans _ b); auto using min_nan, min_le_l.
    + apply (le_trans _ d); auto using max_nan, max_ge_l.
  - apply list_elem_of_singleton in Hrg. subst rg'.
    pose proof (number_at_numpy _ _ _ _ Hrow Hx) as Hxin. rewrite Elon in Hxin.
    pose proof (number_at_numpy _ _ _ _ Hrow Hy) as Hyin. rewrite Elat in Hyin.
    repeat split.
    + apply (le_trans _ (np_min lon lons)); auto using min_nan, min_le_r.
    + apply (le_trans _ (np_max lon lons)); auto using max_nan, max_ge_r.
    + apply (le_trans _ (np_min lat lats)); auto using min_nan, min_le_r.
    + apply (le_trans _ (np_max lat lats)); auto using max_nan, max_ge_r.
Qed.

Lemma scan_fold_inv (lon_col lat_col : string) (rgs seen : list row_group)
    (acc : float * float * float * float) :
  (forall rg, rg ∈ rgs -> numeric lon_col rg /\ numeric lat_col rg) ->
  scan_inv lon_col lat_col acc seen ->
  scan_inv lon_col lat_col (fold_left (scan_step lon_col lat_col) rgs acc) (seen ++ rgs).
Proof.
  revert seen acc. induction rgs as [|rg rgs IH]; intros seen acc Hn Hinv; simpl.
  - rewrite app_nil_r. exact Hinv.
  - replace (seen ++ rg :: rgs) with ((seen ++ [rg]) ++ rgs) by (rewrite <- app_assoc; reflexivity).
    apply IH.
    + intros rg' Hrg'. apply Hn. apply list_elem_of_further. exact Hrg'.
    + destruct (Hn rg (list_elem_of_here _ _)). apply scan_step_inv; assumption.
Qed.

Lemma below_finite_not_inf (a x : float) :
  is_nan a = false -> is_nan x = false ->
  le a x = true -> lt x inf = true -> eq a inf = false.
Proof.
  intros Ha Hx Hle Hlt. destruct (eq a inf) eqn:E; [|reflexivity].
  assert (a = inf) as ->.
  { unfold eq, SFeqb in E. destruct a as [s|[]| |s m e]; simpl in E; try discriminate;
      try reflexivity; destruct s; discriminate. }
  apply le_spec in Hle; auto. apply lt_spec in Hlt; auto.
  unfold lex_le, lex_lt in *. simpl in *. lia.
Qed.

(** X4: over a file whose rows all hold longitudes and latitudes that are
    numbers, the box the scan returns is free of NaN and bounds every row;
    and the scan does return a box as soon as one row has a longitude and a
    latitude below infinity. *)
Theorem scan_lon_lat_bbox_bounds (pf : ParquetFile) (lon_col lat_col : string) :
  List.find (in_schema pf) candidate_lon_cols = Some lon_col ->
  List.find (in_schema pf) candidate_lat_cols = Some lat_col ->
  (forall rg row, rg ∈ row_groups pf -> row ∈ rg ->
     is_Some (number_at lon_col row) /\ is_Some (number_at lat_col row)) ->
  (forall b, scan_lon_lat_bbox pf = Some b ->
     proper_bbox b /\
     forall rg row x y, rg ∈ row_groups pf -> row ∈ rg ->
       number_at lon_col row = Some x -> number_at lat_col row = Some y ->
       le (minx b) x = true /\ le x (maxx b) = true /\
       le (miny b) y = true /\ le y (maxy b) = true) /\
  (forall rg row x y, rg ∈ row_groups pf -> row ∈ rg ->
     number_at lon_col row = Some x -> number_at lat_col row = Some y ->
     lt x inf = true -> lt y inf = true ->
     exists b, scan_lon_lat_bbox pf = Some b).
Proof.
  intros Hlon Hlat Hnum.
  pose proof (scan_fold_inv lon_col lat_col (row_groups pf) []
                (inf, inf, neg_inf, neg_inf)) as Hinv.
  unfold scan_lon_lat_bbox. rewrite Hlon, Hlat.
  destruct (fold_left _ _ _) as [[[a b] c] d].
  simpl app in Hinv. destruct Hinv as [(Ha & Hb & Hc & Hd) Hrows].
  { intros rg Hrg. split; intros row Hrow; apply (Hnum rg row Hrg Hrow). }
  { split; [repeat split; reflexivity|]. intros rg row x y Hrg.
    apply elem_of_nil in Hrg. destruct Hrg. }
  split.
  - intros box. destruct (eq a inf || eq b inf); [discriminate|]. intros [= <-].
    split; [repeat split; assumption|]. exact Hrows.
  - intros rg row x y Hrg Hrow Hx Hy Hxf Hyf.
    destruct (Hrows rg row x y Hrg Hrow Hx Hy) as (H1 & _ & H3 & _).
    rewrite (below_finite_not_inf a x), (below_finite_not_inf b y);
      eauto using number_at_nan.
Qed.

End ScanBounds.

Lemma scan_lon_lat_bbox_bounds_witness :
  scan_lon_lat_bbox example_points_file = Some (box 1 4 3 5) /\
  PyFloat.le (minx (box 1 4 3 5)) (PyFloat.of_Z 3) = true.
Proof.
  assert (scan_lon_lat_bbox example_points_file = Some (box 1 4 3 5)) as E by reflexivity.
  split; [exact E|].
  assert (forall rg row, rg ∈ row_groups example_points_file -> row ∈ rg ->
            is_Some (number_at "x" row) /\ is_Some (number_at "y" row)) as Hnum.
  { intros rg row Hrg Hrow.
    repeat (apply elem_of_cons in Hrg as [-> | Hrg];
            [apply list_elem_of_singleton in Hrow; subst; split; eexists; reflexivity|]).
    apply elem_of_nil in Hrg. destruct Hrg. }
  destruct (proj1 (scan_lon_lat_bbox_bounds example_points_file "x" "y" eq_refl eq_refl Hnum)
              _ E) as [_ Hb].
  apply (Hb [ [("x", CFloat (PyFloat.of_Z 3)); ("y", CFloat (PyFloat.of_Z 4))] ]
            [("x", CFloat (PyFloat.of_Z 3)); ("y", CFloat (PyFloat.of_Z 4))]
            (PyFloat.of_Z 3) (PyFloat.of_Z 4)).
  - apply list_elem_of_further, list_elem_of_here.
  - apply list_elem_of_here.
  - reflexivity.
  - reflexivity.
Defined.

(** ** The override merger, once more *)

Section MergerAlgebra.

(** Induction over JSON documents, through arrays and objects. *)
Lemma json_nested_ind (P : json -> Prop) :
  P JNull -> (forall b, P (JBool b)) -> (forall z, P (JInt z)) ->
  (forall f, P (JFloat f)) -> (forall s, P (JStr s)) ->
  (forall items, Forall P items -> P (JArr items)) ->
  (forall members, Forall (fun kv : string * json => P kv.2) members -> P (JObj members)) ->
  forall v, P v.
Proof.
  intros Hnull Hbool Hint Hfloat Hstr Harr Hobj. fix IH 1.
  intros [ |b|z|f|s|items|members].
  - exact Hnull.
  - apply Hbool.
  - apply Hint.
  - apply Hfloat.
  - apply Hstr.
  - apply Harr. revert items. fix IHl 1.
    intros [|x items]; constructor; [apply IH | apply IHl].
  - apply Hobj. revert members. fix IHm 1.
    intros [|[k x] members]; constructor; [apply IH | apply IHm].
Qed.

Lemma dict_set_same {V : Type} (k : string) (v : V) (d : dict V) :
  dict_get k d = Some v -> dict_set k v d = d.
Proof.
  induction d as [|[k' v'] d IH]; simpl; [discriminate|].
  destruct (String.eqb_spec k' k) as [->|Hne].
  - intros [= ->]. reflexivity.
  - intros H. rewrite IH by exact H. reflexivity.
Qed.

(** A merge every round of which leaves the result as it is. *)
Lemma deep_merge_dict_fixed (result extra : dict json) :
  (forall k v, (k, v) ∈ extra ->
     dict_set k (merged_value (dict_get k result) v) result = result) ->
  deep_merge_dict result extra = result.
Proof.
  induction extra as [|[k v] extra IH]; intros H; [reflexivity|].
  rewrite deep_merge_dict_cons, (H k v) by apply list_elem_of_here.
  apply IH. intros k' v' Hin. apply H. apply list_elem_of_further. exact Hin.
Qed.

Lemma merged_value_again (value : json) :
  json_wf value = true ->
  (forall current,
     merged_value (Some (merged_value current value)) value = merged_value current value) /\
  merged_value (Some value) value = value.
Proof.
  induction value as [ |b|z|f|s|items _|members IH] using json_nested_ind;
    intros Hwf; try (split; [intros [[]|]|]; reflexivity).
  assert (deep_merge_dict members members = members) as Hself.
  { apply deep_merge_dict_fixed. intros k v Hin.
    rewrite (dict_elem_get k v members) by (auto using dict_wf_distinct).
    rewrite Forall_forall in IH.
    destruct (IH (k, v) Hin (dict_wf_member members k v Hwf Hin)) as [_ IH2].
    simpl in IH2. rewrite IH2.
    apply dict_set_same. apply dict_elem_get; auto using dict_wf_distinct. }
  split; [|rewrite merged_value_eq, Hself; reflexivity].
  intros current. rewrite (merged_value_eq current).
  destruct current as [[| | | | | |base]|]; try (rewrite merged_value_eq, Hself; reflexivity).
  rewrite merged_value_eq. f_equal.
  apply deep_merge_dict_fixed. intros k v Hin.
  apply dict_set_same.
  rewrite deep_merge_dict_get by (auto using dict_wf_distinct).
  rewrite (dict_elem_get k v members) by (auto using dict_wf_distinct).
  rewrite Forall_forall in IH.
  destruct (IH (k, v) Hin (dict_wf_member members k v Hwf Hin)) as [IH1 _].
  simpl in IH1. rewrite IH1. reflexivity.
Qed.

(** X5: merging an override a second time changes nothing; an override
    merged into itself is unchanged, and so is a dictionary an empty
    override is merged into. *)
Theorem deep_merge_dict_idempotent (base extra : dict json) :
  dict_wf extra = true ->
  deep_merge_dict (deep_merge_dict base extra) extra = deep_merge_dict base extra /\
  deep_merge_dict extra extra = extra /\
  deep_merge_dict base [] = base.
Proof.
  intros Hwf. destruct (merged_value_again (JObj extra) Hwf) as [Hagain Hself].
  split; [|split; [|reflexivity]].
  - specialize (Hagain (Some (JObj base))). rewrite !merged_value_eq in Hagain.
    injection Hagain as Hagain. exact Hagain.
  - rewrite merged_value_eq in Hself. injection Hself as Hself. exact Hself.
Qed.

Lemma dict_keys_set {V : Type} (k : string) (v : V) (d : dict V) :
  dict_keys (dict_set k v d) = if dict_mem k d then dict_keys d else dict_keys d ++ [k].
Proof.
  unfold dict_mem, dict_keys. induction d as [|[k' v'] d IH]; [reflexivity|].
  simpl dict_set. simpl dict_get.
  destruct (String.eqb_spec k' k) as [->|Hne]; [reflexivity|].
  rewrite !fmap_cons, IH. destruct (dict_get k d); reflexivity.
Qed.

Lemma dict_mem_set {V : Type} (k k' : string) (v : V) (d : dict V) :
  dict_mem k' (dict_set k v d) = String.eqb k k' || dict_mem k' d.
Proof. unfold dict_mem. rewrite dict_get_set. destruct (String.eqb k k'); reflexivity. Qed.

(** X6: the merged dictionary lists the keys of the generated one first, in
    their order, and after them the keys only the override has, in the
    order of the override. *)
Theorem deep_merge_dict_key_order (base extra : dict json) :
  distinct_keys (dict_keys extra) = true ->
  dict_keys (deep_merge_dict base extra) =
  dict_keys base ++ List.filter (fun k => negb (dict_mem k base)) (dict_keys extra).
Proof.
  revert base. induction extra as [|[k v] extra IH]; intros base Hd.
  - simpl. rewrite app_nil_r. reflexivity.
  - simpl in Hd. apply andb_true_iff in Hd as [Hk Hd]. apply negb_true_iff in Hk.
    rewrite deep_merge_dict_cons, IH by exact Hd. rewrite dict_keys_set.
    assert (List.filter (fun k0 => negb (dict_mem k0 (dict_set k (merged_value (dict_get k base) v) base)))
              (dict_keys extra)
            = List.filter (fun k0 => negb (dict_mem k0 base)) (dict_keys extra)) as ->.
    { apply filter_ext_in. intros k0 Hin. rewrite dict_mem_set.
      destruct (String.eqb_spec k k0) as [<-|Hne]; [|reflexivity].
      exfalso. apply not_true_iff_false in Hk. apply Hk. apply existsb_exists.
      exists k. split; [exact Hin | apply String.eqb_refl]. }
    simpl. destruct (dict_mem k base); simpl; [reflexivity|].
    rewrite <- app_assoc. reflexivity.
Qed.

End MergerAlgebra.

Lemma deep_merge_dict_idempotent_witness :
  deep_merge_dict (deep_merge_dict example_item example_nested_overrides)
                  example_nested_overrides
    = deep_merge_dict example_item example_nested_overrides.
Proof.
  apply (proj1 (deep_merge_dict_idempotent example_item example_nested_overrides eq_refl)).
Defined.

Lemma deep_merge_dict_key_order_witness :
  dict_keys (deep_merge_dict example_item example_nested_overrides)
    = ["id"; "assets"; "properties"].
Proof.
  rewrite (deep_merge_dict_key_order example_item example_nested_overrides eq_refl).
  reflexivity.
Defined.
(** ** Identifiers from file names *)

Section FileNameIdentifiers.
Import PyStr.
Context `{uni : Unicode}.

Lemma lower_ascii_idem (c : ascii) : lower_ascii (lower_ascii c) = lower_ascii c.
Proof. destruct c as [[] [] [] [] [] [] [] []]; reflexivity. Qed.

Lemma lower_ascii_dot (c : ascii) : Ascii.eqb (lower_ascii c) "." = Ascii.eqb c ".".
Proof. destruct c as [[] [] [] [] [] [] [] []]; reflexivity. Qed.

Lemma lower_ascii_isascii (c : ascii) :
  (nat_of_ascii (lower_ascii c) <? 128)%nat = (nat_of_ascii c <? 128)%nat.
Proof. destruct c as [[] [] [] [] [] [] [] []]; reflexivity. Qed.

Lemma ascii_lower_idem (s : string) : ascii_lower (ascii_lower s) = ascii_lower s.
Proof.
  induction s as [|c s IH]; simpl; [reflexivity|]. rewrite lower_ascii_idem, IH. reflexivity.
Qed.

Lemma ascii_lower_isascii (s : string) : isascii (ascii_lower s) = isascii s.
Proof.
  induction s as [|c s IH]; simpl; [reflexivity|]. rewrite lower_ascii_isascii, IH.
  reflexivity.
Qed.

Lemma ascii_lower_keeps_dots (s : string) :
  contains_char "." (ascii_lower s) = contains_char "." s.
Proof.
  induction s as [|c s IH]; simpl; [reflexivity|]. rewrite lower_ascii_dot, IH. reflexivity.
Qed.

Lemma replace_char_gone (a b : ascii) (s : string) :
  a <> b -> contains_char a (replace_char a b s) = false.
Proof.
  intros Hab. induction s as [|c s IH]; simpl; [reflexivity|]. rewrite IH, orb_false_r.
  destruct (Ascii.eqb_spec c a) as [->|Hc].
  - destruct (Ascii.eqb_spec b a); [congruence | reflexivity].
  - destruct (Ascii.eqb_spec c a); [contradiction | reflexivity].
Qed.

(** X7: the identifier of an asset that lacks one of the four partition
    coordinates and whose file name has a stem of ASCII characters is made
    of ASCII characters, none of them a dot or a capital letter: to
    lower-case it again changes nothing. *)
Theorem make_item_id_file_name_shape (record : AssetRecord) :
  forallb (fun k => dict_mem k (partitions record)) ["year"; "month"; "day"; "hour"] = false ->
  isascii (path_stem (relative_path record)) = true ->
  isascii (make_item_id record) = true /\
  contains_char "." (make_item_id record) = false /\
  ascii_lower (make_item_id record) = make_item_id record /\
  lower (make_item_id record) = make_item_id record.
Proof.
  intros Hk Ha.
  assert (isascii (replace_char "." "-" (path_stem (relative_path record))) = true) as Hr
    by (apply isascii_replace_char; [apply Nat.ltb_lt; reflexivity | exact Ha]).
  assert (make_item_id record
          = ascii_lower (replace_char "." "-" (path_stem (relative_path record)))) as ->.
  { unfold make_item_id. rewrite Hk. apply lower_of_ascii. exact Hr. }
  assert (isascii (ascii_lower (replace_char "." "-" (path_stem (relative_path record))))
          = true) as Hi by (rewrite ascii_lower_isascii; exact Hr).
  split; [exact Hi|]. split; [|split].
  - rewrite ascii_lower_keeps_dots. apply replace_char_gone. discriminate.
  - apply ascii_lower_idem.
  - rewrite (lower_of_ascii _ Hi). apply ascii_lower_idem.
Qed.

End FileNameIdentifiers.

Lemma make_item_id_file_name_shape_witness :
  make_item_id (H := PyStr.ascii_only) example_loose_record = "winds-2025" /\
  PyStr.contains_char "." (make_item_id (H := PyStr.ascii_only) example_loose_record) = false.
Proof.
  split; [reflexivity|].
  apply (make_item_id_file_name_shape (uni := PyStr.ascii_only) example_loose_record);
    reflexivity.
Defined.

(** ** Plot classification, once more *)

Section PlotClassificationCases.
Import PyStr.
Context `{uni : Unicode}.

(** The shapes of what the classifier returns. *)
Lemma describe_plot_asset_cases (filename : string) :
  describe_plot_asset filename
    = (Some grid_mesh_description, [("plot_type", "grid-mesh")]) \/
  (exists c, (c = "u" \/ c = "v") /\
     describe_plot_asset filename
       = (Some (regression_kriging_description c),
          [("plot_type", "variogram"); ("plot_component", c);
           ("plot_variant", "regression-kriging")])) \/
  (exists c, (c = "u" \/ c = "v") /\
     describe_plot_asset filename
       = (Some (ordinary_kriging_description c),
          [("plot_type", "variogram"); ("plot_component", c);
           ("plot_variant", "ordinary-kriging")])) \/
  describe_plot_asset filename = (None, []).
Proof.
  unfold describe_plot_asset. destruct (startswith _ _); [left; reflexivity|].
  destruct (match_variogram _) as [[c variant]|] eqn:E; [|right; right; right; reflexivity].
  apply match_variogram_shape in E as [Hc _].
  destruct variant; right; [left | right; left]; exists c; (split; [exact Hc|]);
    destruct Hc as [-> | ->]; reflexivity.
Qed.

Lemma describe_plot_asset_given (filename description : string) (props : dict string) :
  describe_plot_asset filename = (Some description, props) ->
  given (Some description) = Some description.
Proof.
  destruct (describe_plot_asset_cases filename) as [E | [(c & _ & E) | [(c & _ & E) | E]]];
    rewrite E; intros [= <- <-]; reflexivity.
Qed.

(** X8: two file names of ASCII characters that differ in the case of
    their letters only are classified alike; a name that starts with
    [grid_points], in whatever case and whatever follows, is a grid mesh;
    and a description is given exactly when properties are, the plot type
    among them. *)
Theorem describe_plot_asset_ignores_case (filename : string) :
  (forall other, isascii filename = true -> isascii other = true ->
     ascii_lower other = ascii_lower filename ->
     describe_plot_asset other = describe_plot_asset filename) /\
  (forall p rest, filename = p +:+ rest -> isascii p = true ->
     ascii_lower p = "grid_points" ->
     describe_plot_asset filename
       = (Some grid_mesh_description, [("plot_type", "grid-mesh")])) /\
  (fst (describe_plot_asset filename) = None <-> snd (describe_plot_asset filename) = []) /\
  (forall description, fst (describe_plot_asset filename) = Some description ->
     description <> EmptyString /\
     exists plot_type, dict_get "plot_type" (snd (describe_plot_asset filename)) = Some plot_type).
Proof.
  split; [|split; [|split]].
  - intros other Ha Ho H. unfold describe_plot_asset.
    rewrite (lower_of_ascii _ Ha), (lower_of_ascii _ Ho), H. reflexivity.
  - intros p rest -> Ha Hp. unfold describe_plot_asset.
    destruct (lower_ascii_prefix p rest Ha) as (t & E & _). rewrite E, Hp.
    rewrite (proj2 (startswith_spec _ _)) by (exists t; reflexivity). reflexivity.
  - unfold describe_plot_asset. destruct (startswith _ _); simpl.
    { split; discriminate. }
    destruct (match_variogram _) as [[c []]|]; simpl; split; try discriminate; reflexivity.
  - intros description. unfold describe_plot_asset. destruct (startswith _ _); simpl.
    { intros [= <-]. split; [discriminate | eexists; reflexivity]. }
    destruct (match_variogram _) as [[c []]|]; simpl; try discriminate;
      intros [= <-]; (split; [discriminate | eexists; reflexivity]).
Qed.

End PlotClassificationCases.

Lemma describe_plot_asset_ignores_case_witness :
  describe_plot_asset (H := PyStr.ascii_only) "Grid_Points_2025.PNG"
    = (Some grid_mesh_description, [("plot_type", "grid-mesh")]).
Proof.
  apply (proj1 (proj2 (describe_plot_asset_ignores_case (uni := PyStr.ascii_only)
                         "Grid_Points_2025.PNG")) "Grid_Points" "_2025.PNG");
    reflexivity.
Defined.

(** ** Plot items under an override *)

Section PlotItemOverrides.
Context `{lib : Library}.

Lemma item_property_set_property (key k : string) (value : json) (item item' : Item) :
  set_property key value item = Ok item' ->
  item_property k item' = if String.eqb key k then Some value else item_property k item.
Proof.
  unfold set_property, item_property.
  destruct (dict_get "properties" item) as [[| | | | | |properties]|]; try discriminate.
  intros [= <-]. rewrite dict_get_set_eq. apply dict_get_set.
Qed.

Lemma setdefault_property_present (key : string) (value : json) (item item' : Item) :
  setdefault_property key value item = Ok item' ->
  is_Some (item_property key item') /\
  forall k, is_Some (item_property k item) -> is_Some (item_property k item').
Proof.
  unfold setdefault_property, item_property.
  destruct (dict_get "properties" item) as [[| | | | | |properties]|] eqn:E; try discriminate.
  destruct (dict_mem key properties) eqn:Em; intros [= <-].
  - rewrite E. split; [|auto]. apply dict_mem_get in Em as [v ->]. eexists. reflexivity.
  - rewrite dict_get_set_eq. split.
    + rewrite dict_get_set_eq. eexists. reflexivity.
    + intros k. rewrite dict_get_set. destruct (String.eqb key k); [eexists; reflexivity | auto].
Qed.

Lemma setdefault_properties_present (props : dict string) (item item' : Item) :
  for_each (fun item (kv : string * string) => setdefault_property kv.1 (JStr kv.2) item)
           props item = Ok item' ->
  (forall k v, (k, v) ∈ props -> is_Some (item_property k item')) /\
  forall k, is_Some (item_property k item) -> is_Some (item_property k item').
Proof.
  revert item. induction props as [|[k0 v0] props IH]; intros item H; simpl in H.
  - injection H as <-. split; [|auto]. intros k v Hin. apply elem_of_nil in Hin. destruct Hin.
  - apply bind_ok in H as (item1 & E1 & E2).
    apply setdefault_property_present in E1 as [Hk Hkeep]. simpl in Hk.
    destruct (IH item1 E2) as [Hall Hkeep']. split.
    + intros k v Hin. apply elem_of_cons in Hin as [[= -> ->] | Hin]; eauto.
    + auto.
Qed.

Lemma describe_plot_spec (description : string) (item item' : Item) :
  describe_plot description item = Ok item' ->
  (forall k, item_property k item' = item_property k item) /\
  forall assets asset,
    dict_get "assets" item' = Some (JObj assets) -> dict_get "plot" assets = Some asset ->
    exists a, asset = JObj a /\ dict_get "description" a = Some (JStr description).
Proof.
  unfold describe_plot.
  destruct (dict_get "assets" item) as [[| | | | | |assets]|] eqn:Ea; try discriminate.
  destruct (dict_get "plot" assets) as [[| | | | | |asset]|] eqn:Ep; try discriminate;
    intros [= <-].
  - split.
    + intros k. unfold item_property. rewrite dict_get_set_ne by discriminate. reflexivity.
    + intros assets' asset'. rewrite dict_get_set_eq. intros [= <-].
      rewrite dict_get_set_eq. intros [= <-]. eexists. split; [reflexivity|].
      apply dict_get_set_eq.
  - split; [reflexivity|]. intros assets' asset'. rewrite Ea. intros [= <-].
    rewrite Ep. discriminate.
Qed.

(** The last three steps of [build_plot_item] for a described plot. *)
Lemma build_plot_item_tail (args : Args) (record : AssetRecord)
    (id : string) (rel : path) (item : Item) (description : string) (props : dict string) :
  describe_plot_asset (path_name rel) = (Some description, props) ->
  build_plot_item args record id rel = Ok item ->
  exists merged described classified,
    setdefault_property "plot_description" (JStr description) merged = Ok described /\
    for_each (fun item (kv : string * string) => setdefault_property kv.1 (JStr kv.2) item)
             props described = Ok classified /\
    describe_plot description classified = Ok item.
Proof.
  intros Hd Hb. pose proof (describe_plot_asset_given _ _ _ Hd) as Hg.
  unfold build_plot_item in Hb. rewrite Hd, Hg in Hb.
  do 6 (bind_inv Hb). apply bind_ok in Hb as (described & E5 & Hb).
  apply bind_ok in Hb as (classified & E6 & Hb).
  exists x4, described, classified. auto.
Qed.

(** X9: the plot item of a file the classifier describes carries a plot
    description and every classification property, whatever the item
    override holds, and the description of its plot asset is the one of the
    classifier; without an override the properties have the values of the
    classifier. *)
Theorem build_plot_item_keeps_classification (args : Args) (record : AssetRecord)
    (id : string) (rel : path) (item : Item) (description : string) (props : dict string) :
  describe_plot_asset (path_name rel) = (Some description, props) ->
  build_plot_item args record id rel = Ok item ->
  is_Some (item_property "plot_description" item) /\
  (forall k v, (k, v) ∈ props -> is_Some (item_property k item)) /\
  (forall assets asset,
     dict_get "assets" item = Some (JObj assets) -> dict_get "plot" assets = Some asset ->
     exists a, asset = JObj a /\ dict_get "description" a = Some (JStr description)) /\
  (item_overrides args = None ->
     item_property "plot_description" item = Some (JStr description) /\
     forall k v, dict_get k props = Some v -> item_property k item = Some (JStr v)).
Proof.
  intros Hd Hb.
  destruct (build_plot_item_tail _ _ _ _ _ _ _ Hd Hb) as (merged & described & classified & E5 & E6 & E7).
  apply describe_plot_spec in E7 as [Hp Ha].
  apply setdefault_properties_present in E6 as [Hall Hkeep].
  apply setdefault_property_present in E5 as [Hk _].
  split; [|split; [|split]].
  - rewrite Hp. apply Hkeep. exact Hk.
  - intros k v Hin. rewrite Hp. apply (Hall k v Hin).
  - exact Ha.
  - intros Ho. revert Hb. unfold build_plot_item, with_overrides. rewrite Ho.
    unfold record_datetime, record_geometry.
    destruct (describe_plot_asset_cases (path_name rel))
      as [E | [(c & Hc & E) | [(c & Hc & E) | E]]];
      rewrite E in Hd; [| | |discriminate Hd];
      injection Hd as Hd1 Hd2; subst description props; rewrite E;
      try (destruct Hc as [-> | ->]);
      destruct (record_start record), (record_end record), (record_bbox record);
      intros [= <-]; (split; [reflexivity|]);
      intros k v Hkv; apply dict_get_elem in Hkv;
      repeat (apply elem_of_cons in Hkv as [[= -> ->] | Hkv]; [reflexivity|]);
      apply elem_of_nil in Hkv; destruct Hkv.
Qed.

End PlotItemOverrides.

Lemma build_plot_item_keeps_classification_witness :
  exists item,
    example_plot_item = Ok item /\
    is_Some (item_property "plot_component" item) /\
    item_property "plot_type" item = Some (JStr "custom").
Proof.
  destruct example_plot_item as [item| |] eqn:E; try (vm_compute in E; discriminate E).
  exists item. split; [reflexivity|]. split.
  - apply (proj1 (proj2 (build_plot_item_keeps_classification (lib := example_library)
                           example_plot_args example_record
                           "20250102T03-plot-variogram_u_empirical_a"
                           (PurePosixPath
                              "year=2025/month=01/day=02/hour=03/variogram_u_empirical_a.png")
                           item (ordinary_kriging_description "u")
                           [("plot_type", "variogram"); ("plot_component", "u");
                            ("plot_variant", "ordinary-kriging")]%string eq_refl E))
             "plot_component"%string "u"%string).
    apply list_elem_of_further, list_elem_of_here.
  - vm_compute in E. injection E as <-. reflexivity.
Defined.

Section RunTheorems.
Context `{lib : Library}.

(** X10: an incremental run that starts from stored sub-catalogs whose
    items have distinct string identifiers leaves such sub-catalogs behind:
    the three sub-catalogs it builds and the three it stores have distinct
    identifiers, so the next incremental run starts from the same footing. *)
Theorem incremental_run_keeps_ids_distinct (args : Args) (world : World)
    (prior store : Store) (st : State) :
  incremental args = true ->
  overrides_keep_id args = true ->
  store_wf prior = true ->
  build_items_and_collection args world prior = Ok (st, store) ->
  distinct_ids (parquet_catalog st) = true /\
  distinct_ids (metadata_catalog st) = true /\
  distinct_ids (plots_catalog st) = true /\
  store_wf store = true.
Proof.
  intros Hinc Hk Hwf E.
  apply build_items_and_collection_ok in E as (_ & -> & st0 & E0 & E).
  destruct (initial_state_ok args prior Hinc Hwf) as (st0' & E0' & Hok0 & _).
  rewrite E0 in E0'. injection E0' as <-.
  destruct (process_records_ok _ _ _ _ _ Hinc Hk E Hok0) as ((Hp & Hm & Hl) & _).
  apply distinct_ids_of_catalog in Hp, Hm, Hl.
  split; [exact Hp|]. split; [exact Hm|]. split; [exact Hl|].
  unfold store_wf in *. simpl.
  apply andb_true_iff in Hwf as [Hwf Hl0]. apply andb_true_iff in Hwf as [Hp0 Hm0].
  destruct (has_items (parquet st)), (has_items (metadata st)), (has_items (plots st));
    simpl; rewrite ?Hp, ?Hm, ?Hl, ?Hp0, ?Hm0, ?Hl0; reflexivity.
Qed.

(** X11: after a run that returns, in either mode, every discovered asset
    has its identifier among the known data identifiers and an item with
    that identifier in the data sub-catalog, and the data sub-catalog is
    the one the run stores. *)
Theorem discovered_assets_are_catalogued (args : Args) (world : World)
    (prior store : Store) (st : State) :
  overrides_keep_id args = true ->
  build_items_and_collection args world prior = Ok (st, store) ->
  stored_parquet store = Some (parquet_catalog st) /\
  forall record, record ∈ discovered world ->
    make_item_id record ∈ existing_parquet_ids st /\
    JStr (make_item_id record) ∈ item_ids (parquet_catalog st).
Proof.
  intros Hk E. apply build_items_and_collection_ok in E as (Hne & -> & st0 & E0 & E).
  apply initial_state_loaded in E0 as (_ & _ & _ & _ & Hs0).
  destruct (process_records_catalogued _ _ _ _ _ Hk E Hs0) as (Hs & Hin & _).
  split.
  - destruct (discovered world) as [|r records]; [contradiction|].
    destruct (Hs _ (Hin r (list_elem_of_here _ _))) as [_ Hhas].
    simpl. rewrite Hhas. reflexivity.
  - intros record Hr. split; [apply Hin; exact Hr|]. apply Hs, Hin. exact Hr.
Qed.

(** X12: the loop of a run that returns copies the data file and opens
    the parquet file of exactly the assets it does not pass over, once
    each and in the order of discovery (discovery has opened every file
    before the loop starts); without [--incremental] nothing is loaded and
    no asset is passed over; and when the override document does not set
    the identifier of the items, the data sub-catalog holds the loaded
    items followed by one item for each such asset, under the identifier
    made for it. *)
Theorem data_catalog_follows_copies (args : Args) (world : World)
    (prior store : Store) (st : State) :
  build_items_and_collection args world prior = Ok (st, store) ->
  exists fresh : list AssetRecord,
    sublist fresh (discovered world) /\
    (incremental args = false -> fresh = discovered world /\ loaded_items args prior = []) /\
    data_copies (trace st) = relative_path <$> fresh /\
    opened_files (trace st) = relative_path <$> fresh /\
    (overrides_keep_id args = true ->
     item_ids (parquet_catalog st) =
       item_ids (loaded_items args prior) ++ ((fun r => JStr (make_item_id r)) <$> fresh)).
Proof.
  intros E. apply build_items_and_collection_ok in E as (_ & _ & st0 & E0 & E).
  apply initial_state_loaded in E0 as (Hc0 & Ht0 & _).
  apply process_records_fresh in E
    as (fresh & cs & Hsub & Hall & Hids & Hcp & Hop & _).
  exists fresh. split; [exact Hsub|]. split; [|split; [|split]].
  - intros Hf. split; [apply Hall; exact Hf|]. unfold loaded_items. rewrite Hf. reflexivity.
  - rewrite Hcp, Ht0. reflexivity.
  - rewrite Hop, Ht0. reflexivity.
  - intros Hk. rewrite (Hids Hk), Hc0. reflexivity.
Qed.

(** X13: in a call without collection overrides, the temporal extent of
    the collection a run builds covers the interval given on the command
    line: its start is at or before [--temporal-start] and its end at or
    after [--temporal-end], whatever the items hold. *)
Theorem run_interval_covers_overrides (args : Args) (world : World)
    (prior store : Store) (st : State) :
  build_items_and_collection args world prior = Ok (st, store) ->
  (forall t, temporal_start args = Some t ->
     exists t', (temporal (extent st)).1 = Some t' /\ dt_instant t' <= dt_instant t) /\
  (forall t, temporal_end args = Some t ->
     exists t', (temporal (extent st)).2 = Some t' /\ dt_instant t <= dt_instant t').
Proof.
  intros E. apply build_items_and_collection_ok in E as (_ & _ & st0 & E0 & E).
  apply initial_state_loaded in E0 as (_ & _ & He0 & _).
  apply process_records_fresh in E as (fresh & cs & _ & _ & _ & _ & _ & _ & He & _).
  rewrite He, He0.
  pose proof (interval_widens_trans _ _ _
                (fold_extent_widens (fresh_extent (temporal_start args) (temporal_end args))
                                    (item_contribution <$> loaded_items args prior))
                (fold_extent_widens _ cs)) as Hw.
  exact Hw.
Qed.

(** X14: in a call without collection overrides, an incremental run
    stores every source model that was stored before, and every run stores
    the source model of each asset its loop does not pass over, which
    without [--incremental] is every discovered asset, when the
    [source_model] column of the asset names one. *)
Theorem source_models_accumulate (args : Args) (world : World)
    (prior store : Store) (st : State) :
  build_items_and_collection args world prior = Ok (st, store) ->
  (incremental args = true -> stored_source_models prior ⊆ stored_source_models store) /\
  exists fresh : list AssetRecord,
    sublist fresh (discovered world) /\
    (incremental args = false -> fresh = discovered world) /\
    data_copies (trace st) = relative_path <$> fresh /\
    forall record model, record ∈ fresh ->
      record_model world record = Some model -> model ∈ stored_source_models store.
Proof.
  intros E. apply build_items_and_collection_ok in E as (_ & -> & st0 & E0 & E).
  apply initial_state_loaded in E0 as (_ & Ht0 & _ & Hd0 & _).
  apply process_records_fresh in E
    as (fresh & cs & Hsub & Hall & _ & Hcp & _ & _ & _ & Hd & Hm).
  split.
  - intros Hinc. simpl. etransitivity; [apply Hd0; exact Hinc | exact Hd].
  - exists fresh. split; [exact Hsub|]. split; [exact Hall|].
    split; [rewrite Hcp, Ht0; reflexivity|].
    intros record model Hr Hrm. simpl. apply (Hm record model Hr Hrm).
Qed.

(** X15: in a call without collection overrides, the extent of the
    collection a run builds is the extent accumulator, started from the
    bounds of the command line, folded over the loaded data items and then
    over the data items of the assets not passed over, in order; metadata
    and plot items add nothing to it. *)
Theorem run_extent_is_fold (args : Args) (world : World)
    (prior store : Store) (st : State) :
  build_items_and_collection args world prior = Ok (st, store) ->
  exists (fresh : list AssetRecord) (contributions : list contribution),
    sublist fresh (discovered world) /\
    (incremental args = false -> fresh = discovered world) /\
    Forall2 (fun r c => record_contribution args world r = Some c) fresh contributions /\
    extent st =
      fold_extent (fresh_extent (temporal_start args) (temporal_end args))
                  ((item_contribution <$> loaded_items args prior) ++ contributions).
Proof.
  intros E. apply build_items_and_collection_ok in E as (_ & _ & st0 & E0 & E).
  apply initial_state_loaded in E0 as (_ & _ & He0 & _).
  apply process_records_fresh in E as (fresh & cs & Hsub & Hall & _ & _ & _ & Hcs & He & _).
  exists fresh, cs. split; [exact Hsub|]. split; [exact Hall|]. split; [exact Hcs|].
  rewrite He, He0. unfold fold_extent. rewrite fold_left_app. reflexivity.
Qed.

End RunTheorems.

Section RunInstances.
Local Open Scope string_scope.

Lemma example_scratch_run_ok :
  build_items_and_collection (H := example_library) example_scratch_args example_two_world
    empty_store = Ok (example_scratch_state, example_scratch_store).
Proof. vm_compute. reflexivity. Defined.

Lemma incremental_run_keeps_ids_distinct_witness :
  build_items_and_collection (H := example_library) example_args example_world empty_store
    = Ok (example_state, example_store) /\
  store_wf example_store = true.
Proof.
  assert (build_items_and_collection (H := example_library) example_args example_world
            empty_store = Ok (example_state, example_store)) as E
    by (vm_compute; reflexivity).
  split; [exact E|].
  apply (incremental_run_keeps_ids_distinct (lib := example_library) example_args
           example_world empty_store example_store example_state eq_refl eq_refl eq_refl E).
Defined.

Lemma discovered_assets_are_catalogued_witness :
  JStr "20250102T04" ∈ item_ids (parquet_catalog example_scratch_state).
Proof.
  apply (proj2 (discovered_assets_are_catalogued (lib := example_library)
                  example_scratch_args example_two_world empty_store example_scratch_store
                  example_scratch_state eq_refl example_scratch_run_ok)
               example_second_record).
  apply list_elem_of_further, list_elem_of_here.
Defined.

Lemma data_catalog_follows_copies_witness :
  exists fresh : list AssetRecord,
    fresh = [example_record; example_second_record] /\
    data_copies (trace example_scratch_state) = relative_path <$> fresh.
Proof.
  destruct (data_catalog_follows_copies (lib := example_library)
              example_scratch_args example_two_world empty_store example_scratch_store
              example_scratch_state example_scratch_run_ok)
    as (fresh & _ & Hall & Hcp & _).
  exists fresh. split; [apply (Hall eq_refl) | exact Hcp].
Defined.

Lemma run_interval_covers_overrides_witness :
  exists t', (temporal (extent example_scratch_state)).1 = Some t' /\
             dt_instant t' <= dt_instant (mkDatetime 1800000000 utc).
Proof.
  apply (proj1 (run_interval_covers_overrides (lib := example_library)
                  example_scratch_args example_two_world empty_store example_scratch_store
                  example_scratch_state example_scratch_run_ok)).
  reflexivity.
Defined.

Lemma source_models_accumulate_witness :
  "wrf" ∈ stored_source_models example_scratch_store.
Proof.
  destruct (proj2 (source_models_accumulate (lib := example_library)
                     example_scratch_args example_two_world empty_store
                     example_scratch_store example_scratch_state example_scratch_run_ok))
    as (fresh & _ & Hall & _ & Hm).
  apply (Hm example_record "wrf").
  - rewrite (Hall eq_refl). apply list_elem_of_here.
  - reflexivity.
Defined.

Lemma run_extent_is_fold_witness :
  exists contributions : list contribution,
    length contributions = 2%nat /\
    extent example_scratch_state =
      fold_extent (fresh_extent (Some (mkDatetime 1800000000 utc)) None) contributions.
Proof.
  destruct (run_extent_is_fold (lib := example_library)
              example_scratch_args example_two_world empty_store example_scratch_store
              example_scratch_state example_scratch_run_ok)
    as (fresh & cs & _ & Hall & Hcs & He).
  exists cs. split; [|exact He].
  rewrite <- (Forall2_length _ _ _ Hcs), (Hall eq_refl). reflexivity.
Defined.

End RunInstances.

(** ** Paths *)

Section PathFacts.
Import PyStr PyStrMore.

Lemma split_cons (c : ascii) (s : string) : exists x xs, split c s = x :: xs.
Proof.
  induction s as [|a s (x & xs & IH)]; simpl; [eauto|].
  destruct (Ascii.eqb a c); [eauto|]. rewrite IH. eauto.
Qed.

Lemma split_app (c : ascii) (x y : string) :
  split c (x +:+ String c y) = split c x ++ split c y.
Proof.
  induction x as [|a x IH]; simpl.
  - rewrite Ascii.eqb_refl. reflexivity.
  - destruct (Ascii.eqb a c); [rewrite IH; reflexivity|].
    rewrite IH. destruct (split_cons c x) as (h & t & ->). reflexivity.
Qed.

Lemma split_no_sep (c : ascii) (s : string) :
  contains_char c s = false -> split c s = [s].
Proof.
  induction s as [|a s IH]; simpl; [reflexivity|].
  intros H. apply orb_false_iff in H as [Ha Hs]. rewrite Ha, (IH Hs). reflexivity.
Qed.

Lemma split_pieces (c : ascii) (s x : string) :
  x ∈ split c s -> contains_char c x = false.
Proof.
  revert x. induction s as [|a s IH]; simpl; intros x Hx.
  - apply list_elem_of_singleton in Hx. subst. reflexivity.
  - destruct (Ascii.eqb a c) eqn:Ea.
    + apply elem_of_cons in Hx as [-> | Hx]; [reflexivity | auto].
    + destruct (split_cons c s) as (h & t & Hs). rewrite Hs in Hx, IH.
      apply elem_of_cons in Hx as [-> | Hx].
      * simpl. rewrite Ea. apply IH. apply list_elem_of_here.
      * apply IH. apply list_elem_of_further. exact Hx.
Qed.

(** The parts of a path concatenate over a slash. *)
Lemma parts_app (x y : string) :
  PurePosixPath (x +:+ String "/" y) = PurePosixPath x ++ PurePosixPath y.
Proof. unfold PurePosixPath. rewrite split_app. apply List.filter_app. Qed.

Lemma parts_nil : PurePosixPath "" = [].
Proof. reflexivity. Qed.

(** A part of a path is a path of one part. *)
Lemma parts_of_part (s x : string) : x ∈ PurePosixPath s -> PurePosixPath x = [x].
Proof.
  unfold PurePosixPath. intros Hx. apply list_elem_of_In, filter_In in Hx as [Hx Hf].
  apply list_elem_of_In, split_pieces in Hx.
  rewrite (split_no_sep _ _ Hx). simpl. rewrite Hf. reflexivity.
Qed.

Lemma rstrip_char_tail (s : string) :
  exists t, s = rstrip_char "/" s +:+ t /\ rstrip_char "/" t = "".
Proof.
  induction s as [|a s (t & Hs & Ht)]; simpl; [exists ""; auto|].
  destruct (rstrip_char "/" s) as [|b r] eqn:E.
  - destruct (Ascii.eqb_spec a "/") as [->|Ha].
    + exists (String "/" s). split; [reflexivity|]. simpl. rewrite E. reflexivity.
    + exists s. split; [reflexivity|]. exact E.
  - exists t. split; [|exact Ht]. simpl. simpl in Hs. rewrite <- Hs. reflexivity.
Qed.

Lemma parts_slashes (t : string) :
  rstrip_char "/" t = "" -> forall x, PurePosixPath (x +:+ t) = PurePosixPath x.
Proof.
  induction t as [|a t IH]; intros Ht x; [rewrite append_nil_r; reflexivity|].
  simpl in Ht. destruct (rstrip_char "/" t) eqn:E; [|discriminate].
  destruct (Ascii.eqb_spec a "/") as [->|Ha]; [|discriminate].
  pose proof (IH eq_refl "") as H0. simpl in H0.
  rewrite parts_app, H0, parts_nil, app_nil_r. reflexivity.
Qed.

Lemma parts_rstrip (s : string) : PurePosixPath (rstrip_char "/" s) = PurePosixPath s.
Proof.
  destruct (rstrip_char_tail s) as (t & Hs & Ht).
  rewrite Hs at 2. symmetry. apply parts_slashes. exact Ht.
Qed.

Lemma leading_slashes_app (b z : string) :
  rstrip_char "/" b <> "" -> leading_slashes (b +:+ z) = leading_slashes b.
Proof.
  induction b as [|a b IH]; simpl; [contradiction|].
  destruct (Ascii.eqb_spec a "/") as [->|Ha]; [|reflexivity].
  intros H. rewrite IH; [reflexivity|]. intros E. rewrite E in H. contradiction.
Qed.

Lemma splitroot_app (b z : string) :
  rstrip_char "/" b <> "" -> splitroot (b +:+ z) = splitroot b.
Proof. intros H. unfold splitroot. rewrite leading_slashes_app by exact H. reflexivity. Qed.

Lemma rstrip_char_idem (s : string) :
  rstrip_char "/" (rstrip_char "/" s) = rstrip_char "/" s.
Proof.
  induction s as [|a s IH]; simpl; [reflexivity|].
  destruct (rstrip_char "/" s) as [|b r] eqn:E.
  - destruct (Ascii.eqb_spec a "/") as [->|Ha]; [reflexivity|].
    simpl. destruct (Ascii.eqb_spec a "/"); [contradiction | reflexivity].
  - simpl. simpl in IH. rewrite IH. reflexivity.
Qed.

Lemma rstrip_char_snoc (s : string) :
  rstrip_char "/" (s +:+ "/") = rstrip_char "/" s.
Proof.
  induction s as [|a s IH]; simpl; [reflexivity|]. rewrite IH. reflexivity.
Qed.

Lemma strip_parts_app (p l : list string) : strip_parts p (p ++ l) = Some l.
Proof.
  induction p as [|a p IH]; simpl; [reflexivity|]. rewrite String.eqb_refl. exact IH.
Qed.

Lemma strip_parts_spec (p l rest : list string) :
  strip_parts p l = Some rest -> l = p ++ rest.
Proof.
  revert l. induction p as [|a p IH]; intros l; simpl; [intros [= ->]; reflexivity|].
  destruct l as [|b l]; [discriminate|].
  destruct (String.eqb_spec a b) as [->|]; [|discriminate].
  intros H. rewrite (IH l H). reflexivity.
Qed.

(** X16: a file listed below a base that has a part comes back from
    [relative_from_base] as its relative path below the base, whether the
    name it is listed under repeats the trailing slashes of the base or
    not, and whatever slashes and dots it has of its own. *)
Theorem relative_from_base_below (base rel : string) :
  rstrip_char "/" base <> "" ->
  relative_from_base (rstrip_char "/" base +:+ "/" +:+ rel) base
    = mkPurePath "" (PurePosixPath rel) /\
  relative_from_base (base +:+ "/" +:+ rel) base = mkPurePath "" (PurePosixPath rel).
Proof.
  intros Hb.
  assert (forall z, PurePosixPath z = PurePosixPath rel ->
            relative_from_base (rstrip_char "/" base +:+ "/" +:+ z) base
              = mkPurePath "" (PurePosixPath rel)) as H.
  { intros z Hz. unfold relative_from_base, relative_to, pure_path. simpl.
    destruct (rstrip_char_tail base) as (t & Hs & Ht).
    assert (rstrip_char "/" (rstrip_char "/" base) <> "") as Hb'
      by (rewrite rstrip_char_idem; exact Hb).
    assert (splitroot base = splitroot (rstrip_char "/" base)) as ->
      by (rewrite Hs at 1; apply splitroot_app; exact Hb').
    rewrite splitroot_app by exact Hb'. rewrite String.eqb_refl.
    rewrite parts_app, parts_rstrip, strip_parts_app, Hz. reflexivity. }
  split; [apply H; reflexivity|].
  destruct (rstrip_char_tail base) as (t & Hs & Ht).
  rewrite Hs at 1. rewrite append_assoc.
  destruct t as [|a t].
  - simpl. apply H. reflexivity.
  - simpl in Ht. destruct (rstrip_char "/" t) eqn:E; [|discriminate].
    destruct (Ascii.eqb_spec a "/") as [->|]; [|discriminate].
    apply (H (t +:+ "/" +:+ rel)).
    pose proof (parts_slashes t E "") as H0. simpl in H0.
    change (t +:+ "/" +:+ rel) with (t +:+ String "/" rel).
    rewrite parts_app, H0, parts_nil. reflexivity.
Qed.

Lemma relative_from_base_below_witness :
  relative_from_base "/data/plots/year=2025//a.png" "/data/plots/"
    = mkPurePath "" ["year=2025"; "a.png"].
Proof.
  assert (PyStrMore.rstrip_char "/" "/data/plots/" <> "") as Hb by discriminate.
  exact (proj1 (relative_from_base_below "/data/plots/" "year=2025//a.png" Hb)).
Defined.

(** X17: the path [relative_from_base] returns never has a part of its
    own making: its parts are the last parts of the full path, in every
    branch, the fall-back to the bare file name included. *)
Theorem relative_from_base_suffix (full_path base : string) :
  exists front, PurePosixPath full_path
                = front ++ path_tail (relative_from_base full_path base).
Proof.
  unfold relative_from_base, relative_to, pure_path. simpl.
  destruct (String.eqb _ _);
    [destruct (strip_parts (PurePosixPath base) (PurePosixPath full_path)) as [rest|] eqn:E|].
  - apply strip_parts_spec in E. simpl. eauto.
  - destruct (strip_prefix _ full_path) as [rest|] eqn:Ep; simpl.
    + apply strip_prefix_spec in Ep. rewrite Ep, append_assoc. simpl. rewrite parts_app. eauto.
    + unfold pure_name. simpl.
      destruct (PurePosixPath full_path) as [|x l] eqn:Ef using rev_ind;
        [exists []; reflexivity|].
      rewrite last_last. exists l. f_equal. symmetry. apply (parts_of_part full_path).
      rewrite Ef. apply elem_of_app. right. apply list_elem_of_here.
  - destruct (strip_prefix _ full_path) as [rest|] eqn:Ep; simpl.
    + apply strip_prefix_spec in Ep. rewrite Ep, append_assoc. simpl. rewrite parts_app. eauto.
    + unfold pure_name. simpl.
      destruct (PurePosixPath full_path) as [|x l] eqn:Ef using rev_ind;
        [exists []; reflexivity|].
      rewrite last_last. exists l. f_equal. symmetry. apply (parts_of_part full_path).
      rewrite Ef. apply elem_of_app. right. apply list_elem_of_here.
Qed.

Lemma prefix_app (sub p q : string) :
  String.prefix sub p = true -> String.prefix sub (p +:+ q) = true.
Proof.
  revert p. induction sub as [|a sub IH]; intros p;
    [intros _; destruct (p +:+ q); reflexivity|].
  destruct p as [|b p]; simpl; [discriminate|].
  destruct (ascii_dec a b); [apply IH | discriminate].
Qed.

Lemma contains_cons (sub : string) (b : ascii) (p : string) :
  contains sub (String b p) = String.prefix sub (String b p) || contains sub p.
Proof.
  unfold contains. cbn [String.index].
  destruct (String.prefix sub (String b p)); [reflexivity|].
  destruct (String.index 0 sub p); reflexivity.
Qed.

Lemma contains_app_l (sub p q : string) :
  contains sub p = true -> contains sub (p +:+ q) = true.
Proof.
  induction p as [|b p IH].
  - unfold contains. simpl. destruct sub; [|discriminate]. intros _.
    destruct q; reflexivity.
  - simpl append. rewrite !contains_cons. intros H. apply orb_true_iff in H as [H | H].
    + apply (prefix_app _ _ q) in H.
      change (String b p +:+ q) with (String b (p +:+ q)) in H. rewrite H. reflexivity.
    + rewrite (IH H). apply orb_true_r.
Qed.

(** X18: a slash at the end of the prefix does not change the href
    [build_href] composes: for a prefix with [://] the slashes at its end
    are dropped before the path is appended, and a local prefix that is not
    made of slashes only is read as the same path with and without it. *)
Theorem build_href_trailing_slash (prefix : string) (relative : PurePath) :
  (contains "://" prefix = true ->
     build_href (Some prefix) relative
       = Some (rstrip_char "/" prefix +:+ "/" +:+ pure_str relative) /\
     build_href (Some (prefix +:+ "/")) relative = build_href (Some prefix) relative) /\
  (contains "://" (prefix +:+ "/") = false -> rstrip_char "/" prefix <> "" ->
     build_href (Some (prefix +:+ "/")) relative = build_href (Some prefix) relative).
Proof.
  split.
  - intros H. unfold build_href. rewrite H, (contains_app_l _ _ "/" H), rstrip_char_snoc.
    split; reflexivity.
  - intros H Hp. unfold build_href. rewrite H.
    destruct (contains "://" prefix) eqn:E.
    { rewrite (contains_app_l _ _ "/" E) in H. discriminate. }
    unfold pure_path. rewrite splitroot_app by exact Hp.
    rewrite parts_app, parts_nil, app_nil_r. reflexivity.
Qed.

Lemma build_href_trailing_slash_witness :
  build_href (Some "s3://bucket/winds/") (pure_path "year=2025/data.parquet")
    = Some "s3://bucket/winds/year=2025/data.parquet".
Proof.
  change "s3://bucket/winds/" with ("s3://bucket/winds" +:+ "/").
  rewrite (proj2 (proj1 (build_href_trailing_slash "s3://bucket/winds"
                           (pure_path "year=2025/data.parquet")) eq_refl)).
  reflexivity.
Defined.

End PathFacts.

(** ** Datetimes from partition coordinates *)

Section Calendar.

Lemma days_before_year_step (year : Z) :
  days_before_year (year + 1) = days_before_year year + (if is_leap year then 366 else 365).
Proof.
  unfold days_before_year, is_leap.
  replace (year + 1 - 1) with year by lia.
  destruct (Z.eqb_spec (year mod 4) 0), (Z.eqb_spec (year mod 100) 0),
           (Z.eqb_spec (year mod 400) 0); simpl;
    Z.div_mod_to_equations; lia.
Qed.

Lemma days_before_year_mono (year year' : Z) :
  year <= year' -> days_before_year year <= days_before_year year'.
Proof. unfold days_before_year. intros H. Z.div_mod_to_equations. lia. Qed.

Lemma month_cases (month : Z) :
  1 <= month <= 12 ->
  month = 1 \/ month = 2 \/ month = 3 \/ month = 4 \/ month = 5 \/ month = 6 \/
  month = 7 \/ month = 8 \/ month = 9 \/ month = 10 \/ month = 11 \/ month = 12.
Proof. lia. Qed.

Ltac by_month H :=
  apply month_cases in H;
  repeat (destruct H as [H | H]); subst.

(** A day of a year lies within the year, and only the 31st of December
    is its last day. *)
Lemma day_of_year_bound (year month day : Z) :
  1 <= month <= 12 -> 1 <= day <= days_in_month year month ->
  1 <= days_before_month year month + day <= (if is_leap year then 366 else 365) /\
  (days_before_month year month + day = (if is_leap year then 366 else 365) ->
   month = 12 /\ day = 31).
Proof.
  intros Hm. by_month Hm; unfold days_before_month, days_in_month; simpl;
    destruct (is_leap year); simpl; lia.
Qed.

(** The months of a year follow one another. *)
Lemma month_order (year month month' : Z) :
  1 <= month <= 12 -> 1 <= month' <= 12 -> month < month' ->
  days_before_month year month + days_in_month year month <= days_before_month year month'.
Proof.
  intros Hm Hm' Hlt. by_month Hm; by_month Hm'; try lia;
    unfold days_before_month, days_in_month; simpl; destruct (is_leap year); simpl; lia.
Qed.

(** The ordinals of days follow the order of (year, month, day). *)
Lemma ymd2ord_order (year month day year' month' day' : Z) :
  1 <= month <= 12 -> 1 <= day <= days_in_month year month ->
  1 <= month' <= 12 -> 1 <= day' <= days_in_month year' month' ->
  year < year' \/ (year = year' /\ (month < month' \/ (month = month' /\ day < day'))) ->
  ymd2ord year month day < ymd2ord year' month' day'.
Proof.
  intros Hm Hd Hm' Hd' Hlt. unfold ymd2ord.
  destruct (day_of_year_bound year month day Hm Hd) as [Hb _].
  destruct (day_of_year_bound year' month' day' Hm' Hd') as [Hb' _].
  destruct Hlt as [Hy | [-> [Hmm | [-> Hdd]]]].
  - pose proof (days_before_year_step year) as Hs.
    pose proof (days_before_year_mono (year + 1) year' ltac:(lia)) as Hmono.
    destruct (is_leap year); lia.
  - pose proof (month_order year' month month' Hm Hm' Hmm). lia.
  - lia.
Qed.

Lemma ymd2ord_max (year month day : Z) :
  1 <= year <= 9999 -> 1 <= month <= 12 -> 1 <= day <= days_in_month year month ->
  ymd2ord year month day <= max_ordinal /\
  (ymd2ord year month day = max_ordinal -> year = 9999 /\ month = 12 /\ day = 31).
Proof.
  intros Hy Hm Hd.
  destruct (Z.eq_dec year 9999) as [-> | Hne].
  - destruct (day_of_year_bound 9999 month day Hm Hd) as [Hb Hlast].
    unfold ymd2ord, max_ordinal.
    change (days_before_year 9999) with 3651694. change (is_leap 9999) with false in *.
    split; [lia|]. intros E. split; [reflexivity|]. apply Hlast. lia.
  - assert (bound : ymd2ord year month day < ymd2ord 9999 1 1).
    { apply ymd2ord_order; try assumption; try lia.
      - change (days_in_month 9999 1) with 31. lia. }
    change (ymd2ord 9999 1 1) with 3651695 in bound. unfold max_ordinal. lia.
Qed.

End Calendar.

Section PartitionDatetimes.
Context `{int : PyInt}.

Lemma ordinal_constants :
  epoch_ordinal = ymd2ord 1970 1 1 /\ max_ordinal = ymd2ord 9999 12 31.
Proof. split; reflexivity. Qed.

(** The readings [datetime] accepts. *)
Lemma datetime_utc_ok (year month day hour : Z) (dt : datetime) :
  datetime_utc year month day hour = Ok dt ->
  1 <= year <= 9999 /\ 1 <= month <= 12 /\ 1 <= day <= days_in_month year month /\
  0 <= hour <= 23 /\
  dt = mkDatetime (((ymd2ord year month day - epoch_ordinal) * 24 + hour)
                   * microseconds_per_hour) utc.
Proof.
  unfold datetime_utc.
  destruct (negb (forallb c_int _)); [discriminate|].
  destruct (Z.leb_spec 1 year), (Z.leb_spec year 9999); simpl; try discriminate.
  destruct (Z.leb_spec 1 month), (Z.leb_spec month 12); simpl; try discriminate.
  destruct (Z.leb_spec 1 day), (Z.leb_spec day (days_in_month year month)); simpl;
    try discriminate.
  destruct (Z.leb_spec 0 hour), (Z.leb_spec hour 23); simpl; try discriminate.
  intros [= <-]. repeat split; assumption.
Qed.

Lemma days_in_month_bound (year month : Z) : 28 <= days_in_month year month <= 31.
Proof.
  unfold days_in_month. destruct (month =? 2); [destruct (is_leap year); lia|].
  destruct (_ || _); lia.
Qed.

Lemma datetime_utc_accepts (year month day hour : Z) :
  1 <= year <= 9999 -> 1 <= month <= 12 -> 1 <= day <= days_in_month year month ->
  0 <= hour <= 23 ->
  datetime_utc year month day hour
    = Ok (mkDatetime (((ymd2ord year month day - epoch_ordinal) * 24 + hour)
                      * microseconds_per_hour) utc).
Proof.
  intros Hy Hm Hd Hh. unfold datetime_utc.
  pose proof (days_in_month_bound year month) as Hb.
  assert (forallb c_int [year; month; day; hour] = true) as ->.
  { unfold c_int. simpl. repeat (apply andb_true_iff; split); try reflexivity;
      apply Z.leb_le; lia. }
  simpl.
  rewrite (proj2 (Z.leb_le 1 year)), (proj2 (Z.leb_le year 9999)) by lia.
  rewrite (proj2 (Z.leb_le 1 month)), (proj2 (Z.leb_le month 12)) by lia.
  rewrite (proj2 (Z.leb_le 1 day)), (proj2 (Z.leb_le day _)) by lia.
  rewrite (proj2 (Z.leb_le 0 hour)), (proj2 (Z.leb_le hour 23)) by lia.
  reflexivity.
Qed.

Lemma datetime_utc_rejects (year month day hour : Z) :
  year < 1 \/ 9999 < year \/ month < 1 \/ 12 < month \/
  day < 1 \/ days_in_month year month < day \/ hour < 0 \/ 23 < hour ->
  exists e, datetime_utc year month day hour = Raise e.
Proof.
  intros H. destruct (datetime_utc year month day hour) as [dt|msg|e] eqn:E.
  - apply datetime_utc_ok in E. lia.
  - unfold datetime_utc in E.
    repeat match type of E with (if ?c then _ else _) = _ => destruct c end; discriminate.
  - eauto.
Qed.

(** What [partition_datetime] returns: both bounds or neither, the bounds
    UTC datetimes on the hour and one hour apart. *)
Lemma partition_datetime_bounds (partitions : dict string)
    (start end_ : option datetime) :
  partition_datetime partitions = Ok (start, end_) ->
  (start = None /\ end_ = None) \/
  exists s e, start = Some s /\ end_ = Some e /\ dt_tz s = utc /\ dt_tz e = utc /\
              dt_wall e = dt_wall s + microseconds_per_hour /\
              dt_wall s mod microseconds_per_hour = 0.
Proof.
  unfold partition_datetime.
  destruct (dict_get "year" partitions) as [ytext|]; [|intros [= <- <-]; auto].
  destruct (py_int ytext) as [year|]; [|intros [= <- <-]; auto].
  destruct (partition_int partitions "month" 1) as [month|]; [|intros [= <- <-]; auto].
  destruct (partition_int partitions "day" 1) as [day|]; [|intros [= <- <-]; auto].
  destruct (partition_int partitions "hour" 0) as [hour|]; [|intros [= <- <-]; auto].
  intros E. apply bind_ok in E as (s & Es & E). apply bind_ok in E as (e & Ee & E).
  injection E as <- <-. right. exists s, e.
  apply datetime_utc_ok in Es as (_ & _ & _ & _ & ->).
  unfold plus_one_hour in Ee. simpl in Ee. destruct (_ <? _); [|discriminate].
  injection Ee as <-. simpl. repeat split; try reflexivity.
  apply Z.mod_mul. unfold microseconds_per_hour. lia.
Qed.

(** X19: [partition_datetime] gives no datetime when the [year] coordinate
    is missing or when [int] rejects the text of a coordinate that is
    given; what it returns is both bounds or neither, and its bounds are
    UTC datetimes on the hour, exactly one hour apart. *)
Theorem partition_datetime_shape (partitions : dict string) :
  (dict_get "year" partitions = None -> partition_datetime partitions = Ok (None, None)) /\
  (forall key text, key ∈ ["year"; "month"; "day"; "hour"] ->
     dict_get key partitions = Some text -> py_int text = None ->
     partition_datetime partitions = Ok (None, None)) /\
  (forall start end_, partition_datetime partitions = Ok (start, end_) ->
     (start = None /\ end_ = None) \/
     exists s e, start = Some s /\ end_ = Some e /\ dt_tz s = utc /\ dt_tz e = utc /\
                 dt_wall e = dt_wall s + microseconds_per_hour /\
                 dt_wall s mod microseconds_per_hour = 0).
Proof.
  split; [|split].
  - intros Hy. unfold partition_datetime. rewrite Hy. reflexivity.
  - intros key text Hkey Hget Hint. unfold partition_datetime, partition_int.
    destruct (dict_get "year" partitions) as [ytext|] eqn:Ey; [|reflexivity].
    assert (forall (a b c d : option Z),
              a = None \/ b = None \/ c = None \/ d = None ->
              match a, b, c, d with
              | Some year, Some month, Some day, Some hour =>
                  start ← datetime_utc year month day hour;
                  end_ ← plus_one_hour start;
                  Ok (Some start, Some end_)
              | _, _, _, _ => Ok (None, None)
              end = Ok (None, None)) as Hnone.
    { intros [a|] [b|] [c|] [d|] [H | [H | [H | H]]]; try discriminate H; reflexivity. }
    apply Hnone.
    repeat (apply elem_of_cons in Hkey as [-> | Hkey]).
    + rewrite Ey in Hget. injection Hget as ->. auto.
    + rewrite Hget. auto.
    + rewrite Hget. auto.
    + rewrite Hget. auto.
    + apply elem_of_nil in Hkey. destruct Hkey.
  - intros start end_. apply partition_datetime_bounds.
Qed.

(** X20: when every coordinate is read as a number, [partition_datetime]
    returns the hour they name if they name an hour of the calendar other
    than the last hour of the year 9999; otherwise the exception of
    [datetime] or of the addition escapes it, the [except] clause catching
    only what [int] and the lookup of [year] raise. *)
Theorem partition_datetime_range (partitions : dict string) (text : string)
    (year month day hour : Z) :
  dict_get "year" partitions = Some text -> py_int text = Some year ->
  partition_int partitions "month" 1 = Some month ->
  partition_int partitions "day" 1 = Some day ->
  partition_int partitions "hour" 0 = Some hour ->
  (1 <= year <= 9999 -> 1 <= month <= 12 -> 1 <= day <= days_in_month year month ->
   0 <= hour <= 23 -> ~ (year = 9999 /\ month = 12 /\ day = 31 /\ hour = 23) ->
   exists s e,
     partition_datetime partitions = Ok (Some s, Some e) /\
     datetime_utc year month day hour = Ok s /\
     dt_wall s = ((ymd2ord year month day - epoch_ordinal) * 24 + hour)
                 * microseconds_per_hour) /\
  (year < 1 \/ 9999 < year \/ month < 1 \/ 12 < month \/
   day < 1 \/ days_in_month year month < day \/ hour < 0 \/ 23 < hour \/
   (year = 9999 /\ month = 12 /\ day = 31 /\ hour = 23) ->
   exists e, partition_datetime partitions = Raise e).
Proof.
  intros Hy Hint Hm Hd Hh. unfold partition_datetime. rewrite Hy, Hint, Hm, Hd, Hh.
  split.
  - intros Ry Rm Rd Rh Hlast.
    rewrite (datetime_utc_accepts year month day hour Ry Rm Rd Rh). simpl.
    destruct (ymd2ord_max year month day Ry Rm Rd) as [Hmax Heq].
    unfold plus_one_hour. simpl.
    assert ((((ymd2ord year month day - epoch_ordinal) * 24 + hour) * microseconds_per_hour
             + microseconds_per_hour
             <? (max_ordinal + 1 - epoch_ordinal) * 24 * microseconds_per_hour) = true) as ->.
    { apply Z.ltb_lt. unfold microseconds_per_hour.
      destruct (Z.eq_dec (ymd2ord year month day) max_ordinal) as [E | Hne].
      - apply Heq in E as (-> & -> & ->). assert (hour <= 22) by lia. lia.
      - lia. }
    eexists _, _. repeat split.
  - intros Hout.
    destruct (Z.eq_dec year 9999) as [-> | Hne9];
      [destruct (Z.eq_dec month 12) as [-> | Hne12];
       [destruct (Z.eq_dec day 31) as [-> | Hne31];
        [destruct (Z.eq_dec hour 23) as [-> | Hne23]|]|]|].
    + exists "OverflowError"%string. reflexivity.
    + destruct (datetime_utc_rejects 9999 12 31 hour) as [e ->]; [lia | eauto].
    + destruct (datetime_utc_rejects 9999 12 day hour) as [e ->]; [lia | eauto].
    + destruct (datetime_utc_rejects 9999 month day hour) as [e ->]; [lia | eauto].
    + destruct (datetime_utc_rejects year month day hour) as [e ->]; [lia | eauto].
Qed.

(** X21: the hours of two partitions follow the order of their
    coordinates: when (year, month, day, hour) comes before
    (year', month', day', hour'), the hour that starts at the first ends at
    or before the start of the second, so the intervals of distinct
    partitions do not overlap. *)
Theorem partition_hours_chronological (year month day hour year' month' day' hour' : Z)
    (s e s' : datetime) :
  datetime_utc year month day hour = Ok s -> plus_one_hour s = Ok e ->
  datetime_utc year' month' day' hour' = Ok s' ->
  year < year' \/
  (year = year' /\ (month < month' \/
                    (month = month' /\ (day < day' \/ (day = day' /\ hour < hour'))))) ->
  dt_instant e <= dt_instant s'.
Proof.
  intros Es Ee Es' Hlt.
  apply datetime_utc_ok in Es as (Ry & Rm & Rd & Rh & ->).
  apply datetime_utc_ok in Es' as (Ry' & Rm' & Rd' & Rh' & ->).
  unfold plus_one_hour in Ee. simpl in Ee. destruct (_ <? _); [|discriminate].
  injection Ee as <-. unfold dt_instant, utc, microseconds_per_hour. simpl.
  assert (ymd2ord year month day < ymd2ord year' month' day' \/
          (ymd2ord year month day = ymd2ord year' month' day' /\ hour < hour')) as H.
  { destruct Hlt as [H | [-> [H | [-> [H | [-> H]]]]]].
    - left. apply ymd2ord_order; auto.
    - left. apply ymd2ord_order; auto.
    - left. apply ymd2ord_order; auto.
    - right. auto. }
  destruct H as [H | [-> H]]; lia.
Qed.

End PartitionDatetimes.

Lemma partition_datetime_shape_witness :
  exists s e,
    partition_datetime (H := example_int) example_hour_partitions = Ok (Some s, Some e) /\
    dt_wall e = dt_wall s + microseconds_per_hour.
Proof.
  assert (partition_datetime (H := example_int) example_hour_partitions
            = Ok (Some (mkDatetime 1735786800000000 utc),
                  Some (mkDatetime 1735790400000000 utc))) as E by reflexivity.
  destruct (proj2 (proj2 (partition_datetime_shape (int := example_int)
                            example_hour_partitions)) _ _ E)
    as [[H _] | (s & e & Hs & He & _ & _ & Hw & _)]; [discriminate H|].
  exists s, e. split; [rewrite E, Hs, He; reflexivity | exact Hw].
Defined.

Lemma partition_datetime_range_witness :
  exists e, partition_datetime (H := example_int) example_bad_month_partitions = Raise e.
Proof.
  apply (proj2 (partition_datetime_range (int := example_int) example_bad_month_partitions
                  "2025" 2025 13 1 0 eq_refl eq_refl eq_refl eq_refl eq_refl)).
  lia.
Defined.

Lemma partition_hours_chronological_witness :
  dt_instant (mkDatetime 1735790400000000 utc)
    <= dt_instant (mkDatetime 1735790400000000 utc).
Proof.
  apply (partition_hours_chronological 2025 1 2 3 2025 1 2 4
           (mkDatetime 1735786800000000 utc) (mkDatetime 1735790400000000 utc)
           (mkDatetime 1735790400000000 utc) eq_refl eq_refl eq_refl).
  lia.
Defined.

(** ** Discovery *)

Section StableSort.
Context {A : Type} (key : A -> string).

Lemma string_lt_trans (a b d : string) :
  String.compare a b = Lt -> String.compare b d = Lt -> String.compare a d = Lt.
Proof.
  revert b d. induction a as [|c1 a IH]; intros [|c2 b] [|c3 d]; simpl;
    try discriminate; auto.
  unfold Ascii.compare.
  destruct (N.compare_spec (N_of_ascii c1) (N_of_ascii c2)) as [E12|L12|G12];
    try discriminate;
    destruct (N.compare_spec (N_of_ascii c2) (N_of_ascii c3)) as [E23|L23|G23];
    try discriminate;
    destruct (N.compare_spec (N_of_ascii c1) (N_of_ascii c3)) as [E13|L13|G13];
    try lia; auto.
  apply IH.
Qed.

Lemma string_compare_refl (a : string) : String.compare a a = Eq.
Proof.
  induction a as [|c a IH]; simpl; [reflexivity|].
  unfold Ascii.compare. rewrite N.compare_refl. exact IH.
Qed.

Lemma string_leb_lt (a b : string) :
  String.leb a b = true <-> String.compare a b = Lt \/ a = b.
Proof.
  unfold String.leb. destruct (String.compare a b) eqn:E.
  - split; [|reflexivity]. intros _. right. apply String.compare_eq_iff. exact E.
  - split; auto.
  - split; [discriminate|]. intros [H | ->]; [discriminate|].
    rewrite string_compare_refl in E. discriminate.
Qed.

Lemma string_leb_trans (a b d : string) :
  String.leb a b = true -> String.leb b d = true -> String.leb a d = true.
Proof.
  intros H1 H2. apply string_leb_lt in H1, H2. apply string_leb_lt.
  destruct H1 as [H1 | ->], H2 as [H2 | ->]; auto.
  left. apply (string_lt_trans a b d); assumption.
Qed.

Lemma string_ltb_leb (a b : string) : String.ltb a b = true -> String.leb a b = true.
Proof. unfold String.ltb, String.leb. destruct (String.compare a b); auto. Qed.

Lemma string_not_ltb (a b : string) : String.ltb a b = false -> String.leb b a = true.
Proof.
  unfold String.ltb, String.leb. rewrite (String.compare_antisym b a).
  destruct (String.compare a b); simpl; intros H; try reflexivity; discriminate H.
Qed.

Lemma string_ltb_neq (a b : string) : String.ltb a b = true -> String.eqb a b = false.
Proof.
  intros H. apply String.eqb_neq. intros ->. unfold String.ltb in H.
  rewrite string_compare_refl in H. discriminate.
Qed.

Lemma insert_sorted_perm (x : A) (l : list A) : insert_sorted key x l ≡ₚ x :: l.
Proof.
  induction l as [|y l IH]; simpl; [reflexivity|].
  destruct (String.ltb (key x) (key y)); [reflexivity|].
  rewrite IH. apply perm_swap.
Qed.

Lemma sort_by_fold_perm (l acc : list A) :
  fold_left (fun sorted x => insert_sorted key x sorted) l acc ≡ₚ acc ++ l.
Proof.
  revert acc. induction l as [|x l IH]; intros acc; simpl; [rewrite app_nil_r; reflexivity|].
  rewrite IH, insert_sorted_perm. rewrite (Permutation_middle acc l x). reflexivity.
Qed.

Lemma keys_sorted_cons (a : string) (keys : list string) :
  keys_sorted (a :: keys) = true <->
  keys_sorted keys = true /\ forall b, b ∈ keys -> String.leb a b = true.
Proof.
  revert a. induction keys as [|b keys IH]; intros a.
  - simpl. split; [|reflexivity]. intros _. split; [reflexivity|].
    intros b Hb. apply elem_of_nil in Hb. destruct Hb.
  - change (keys_sorted (a :: b :: keys))
      with (String.leb a b && keys_sorted (b :: keys)).
    rewrite andb_true_iff. split.
    + intros [Hab Hs]. split; [exact Hs|]. intros c Hc.
      apply elem_of_cons in Hc as [-> | Hc]; [exact Hab|].
      apply (string_leb_trans a b c Hab). apply (proj1 (IH b) Hs). exact Hc.
    + intros [Hs Hall]. split; [|exact Hs]. apply Hall. apply list_elem_of_here.
Qed.

Lemma insert_sorted_keys (x : A) (l : list A) :
  (fun y => key y) <$> insert_sorted key x l ≡ₚ key x :: (key <$> l).
Proof. rewrite insert_sorted_perm. reflexivity. Qed.

Lemma insert_sorted_sorted (x : A) (l : list A) :
  keys_sorted (key <$> l) = true -> keys_sorted (key <$> insert_sorted key x l) = true.
Proof.
  induction l as [|y l IH]; [reflexivity|]. intros Hs.
  change (key <$> y :: l) with (key y :: (key <$> l)) in Hs.
  apply keys_sorted_cons in Hs as Hs'. destruct Hs' as [Hl Hall].
  simpl insert_sorted. destruct (String.ltb (key x) (key y)) eqn:E.
  - change (keys_sorted (key x :: key y :: (key <$> l)) = true).
    apply keys_sorted_cons. split; [exact Hs|].
    intros b Hb. apply string_ltb_leb in E.
    apply elem_of_cons in Hb as [-> | Hb]; [exact E|].
    apply (string_leb_trans _ _ _ E). apply Hall. exact Hb.
  - change (keys_sorted (key y :: (key <$> insert_sorted key x l)) = true).
    apply keys_sorted_cons. split; [apply IH; exact Hl|].
    intros b Hb. rewrite insert_sorted_perm in Hb.
    change (key <$> x :: l) with (key x :: (key <$> l)) in Hb.
    apply elem_of_cons in Hb as [-> | Hb]; [apply string_not_ltb; exact E|].
    apply Hall. exact Hb.
Qed.

Lemma with_key_none (k : string) (l : list A) :
  (forall y, y ∈ l -> String.eqb (key y) k = false) -> with_key key k l = [].
Proof.
  unfold with_key. induction l as [|y l IH]; intros H; simpl; [reflexivity|].
  rewrite (H y) by apply list_elem_of_here. apply IH.
  intros z Hz. apply H. apply list_elem_of_further. exact Hz.
Qed.

Lemma with_key_cons (k : string) (y : A) (l : list A) :
  with_key key k (y :: l)
    = if String.eqb (key y) k then y :: with_key key k l else with_key key k l.
Proof. reflexivity. Qed.

(** An element goes after the elements with its key. *)
Lemma insert_sorted_stable (k : string) (x : A) (l : list A) :
  keys_sorted (key <$> l) = true ->
  with_key key k (insert_sorted key x l) = with_key key k l ++ with_key key k [x].
Proof.
  induction l as [|y l IH]; intros Hs; [reflexivity|].
  change (key <$> y :: l) with (key y :: (key <$> l)) in Hs.
  apply keys_sorted_cons in Hs as [Hl Hall].
  simpl insert_sorted. destruct (String.ltb (key x) (key y)) eqn:E.
  - rewrite (with_key_cons k x (y :: l)), (with_key_cons k x []).
    destruct (String.eqb_spec (key x) k) as [Hk | Hk]; [|rewrite app_nil_r; reflexivity].
    assert (with_key key k (y :: l) = []) as ->; [|reflexivity].
    apply with_key_none. intros z Hz. rewrite <- Hk.
    rewrite String.eqb_sym. apply string_ltb_neq.
    unfold String.ltb in *. destruct (String.compare (key x) (key y)) eqn:Ec;
      try discriminate.
    apply elem_of_cons in Hz as [-> | Hz]; [rewrite Ec; reflexivity|].
    assert (String.leb (key y) (key z) = true) as Hyz
      by (apply Hall; apply list_elem_of_fmap; exists z; auto).
    apply string_leb_lt in Hyz as [Hlt | <-]; [|rewrite Ec; reflexivity].
    rewrite (string_lt_trans _ _ _ Ec Hlt). reflexivity.
  - rewrite !with_key_cons, (IH Hl).
    destruct (String.eqb (key y) k); reflexivity.
Qed.

Lemma sort_by_fold (k : string) (l acc : list A) :
  keys_sorted (key <$> acc) = true ->
  keys_sorted (key <$> fold_left (fun sorted x => insert_sorted key x sorted) l acc) = true /\
  with_key key k (fold_left (fun sorted x => insert_sorted key x sorted) l acc)
    = with_key key k acc ++ with_key key k l.
Proof.
  revert acc. induction l as [|x l IH]; intros acc Hs; simpl.
  - unfold with_key. simpl. rewrite app_nil_r. auto.
  - destruct (IH (insert_sorted key x acc) (insert_sorted_sorted x acc Hs)) as [H1 H2].
    split; [exact H1|]. rewrite H2, insert_sorted_stable by exact Hs.
    rewrite (with_key_cons k x []), <- app_assoc.
    destruct (String.eqb (key x) k); reflexivity.
Qed.

(** The sort: a permutation with keys in order, the elements of equal keys
    in the order they had. *)
Lemma sort_by_spec (l : list A) :
  sort_by key l ≡ₚ l /\
  keys_sorted (key <$> sort_by key l) = true /\
  forall k, with_key key k (sort_by key l) = with_key key k l.
Proof.
  unfold sort_by. split; [apply (sort_by_fold_perm l [])|].
  split; [apply (sort_by_fold "" l []); reflexivity|].
  intros k. apply (sort_by_fold k l []). reflexivity.
Qed.

End StableSort.

Section Discovery.
Context `{py : PyDatetime} `{int : PyInt}.





Lemma listed_records_loop (extension_filter : list string) (listing : list FileInfo)
    (acc out : list AssetRecord) :
  for_each (fun records info =>
              if selected extension_filter info then
                record ← asset_record info; Ok (records ++ [record])
              else Ok records)
           listing acc = Ok out ->
  exists new,
    out = acc ++ new /\
    Forall2 (fun info record => asset_record info = Ok record)
            (List.filter (selected extension_filter) listing) new.
Proof.
  revert acc. induction listing as [|info listing IH]; intros acc E; simpl in E.
  - injection E as <-. exists []. rewrite app_nil_r. split; [reflexivity | constructor].
  - apply bind_ok in E as (acc1 & E1 & E). destruct (IH acc1 E) as (new & -> & Hnew).
    simpl. destruct (selected extension_filter info).
    + apply bind_ok in E1 as (record & Er & E1). injection E1 as <-.
      exists (record :: new). rewrite <- app_assoc. split; [reflexivity|].
      constructor; assumption.
    + injection E1 as <-. exists new. auto.
Qed.

(** X23: [discover_assets] returns one record for every entry of the
    listing that is a file with one of the extensions, and for no other
    entry; the records are in the order of the text of their relative
    paths, and records of equal paths keep the order of the listing. *)
Theorem discover_assets_sorted (listing : list FileInfo) (extension_filter : list string)
    (records : list AssetRecord) :
  discover_assets listing extension_filter = Ok records ->
  exists listed,
    Forall2 (fun info record => asset_record info = Ok record)
            (List.filter (selected extension_filter) listing) listed /\
    records ≡ₚ listed /\
    keys_sorted (sort_key <$> records) = true /\
    forall k, with_key sort_key k records = with_key sort_key k listed.
Proof.
  unfold discover_assets, listed_records. intros E.
  apply bind_ok in E as (listed & El & E). injection E as <-.
  apply listed_records_loop in El as (new & -> & Hnew). simpl.
  exists new. split; [exact Hnew|]. apply sort_by_spec.
Qed.

End Discovery.


Lemma discover_assets_sorted_witness :
  exists records,
    discover_assets (H := no_iso_strings) (H0 := example_int) example_listing
      [".parquet"; ".geoparquet"]%string = Ok records /\
    sort_key <$> records =
      ["year=2025/month=01/day=02/hour=03/data.parquet";
       "year=2025/month=01/day=02/hour=04/data.parquet"]%string /\
    keys_sorted (sort_key <$> records) = true.
Proof.
  destruct (discover_assets (H := no_iso_strings) (H0 := example_int) example_listing
              [".parquet"; ".geoparquet"]%string) as [records| |] eqn:E;
    try (vm_compute in E; discriminate E).
  exists records. split; [reflexivity|].
  destruct (discover_assets_sorted (py := no_iso_strings) (int := example_int)
              _ _ _ E) as (listed & _ & _ & Hs & _).
  split; [|exact Hs]. vm_compute in E. injection E as <-. reflexivity.
Defined.

(** ** GeoParquet metadata *)

Section GeoMetadata.
Context `{conv : PyFloatOf}.

Lemma bbox_of_json_bbox (box : bbox) : bbox_of_json (bbox_json box) = Ok (Some box).
Proof. destruct box. reflexivity. Qed.

Lemma bbox_of_json_other (items : list json) :
  length items <> 4%nat -> bbox_of_json (JArr items) = Ok None.
Proof.
  destruct items as [|a [|b [|c [|d [|e items]]]]]; simpl; try reflexivity.
  intros H. contradiction.
Qed.

(** X24: [load_geo_metadata] gives nothing for a missing or undecodable
    [geo] entry; the bbox of the primary column outranks the bbox at the
    top of the document, which is used when there is no primary column or
    when its column has no bbox; a bbox that is not a list of four is passed
    over and is no error; the primary column is returned with or without a
    bbox. *)
Theorem load_geo_metadata_precedence :
  load_geo_metadata GeoMissing = Ok (JNull, None) /\
  load_geo_metadata GeoUndecodable = Ok (JNull, None) /\
  (forall geo primary columns meta box,
     dict_get "primary_column" geo = Some (JStr primary) -> primary <> EmptyString ->
     dict_get "columns" geo = Some (JObj columns) ->
     dict_get primary columns = Some (JObj meta) ->
     dict_get "bbox" meta = Some (bbox_json box) ->
     load_geo_metadata (GeoDocument (JObj geo)) = Ok (JStr primary, Some box)) /\
  (forall geo primary columns meta box,
     dict_get "primary_column" geo = Some (JStr primary) -> primary <> EmptyString ->
     dict_get "columns" geo = Some (JObj columns) ->
     dict_get primary columns = Some (JObj meta) ->
     dict_get "bbox" meta = None ->
     dict_get "bbox" geo = Some (bbox_json box) ->
     load_geo_metadata (GeoDocument (JObj geo)) = Ok (JStr primary, Some box)) /\
  (forall geo box,
     dict_get "primary_column" geo = None ->
     dict_get "bbox" geo = Some (bbox_json box) ->
     load_geo_metadata (GeoDocument (JObj geo)) = Ok (JNull, Some box)) /\
  (forall geo items,
     dict_get "primary_column" geo = None ->
     dict_get "bbox" geo = Some (JArr items) -> length items <> 4%nat ->
     load_geo_metadata (GeoDocument (JObj geo)) = Ok (JNull, None)) /\
  (forall geo primary,
     dict_get "primary_column" geo = Some (JStr primary) -> primary <> EmptyString ->
     dict_get "columns" geo = None -> dict_get "bbox" geo = None ->
     load_geo_metadata (GeoDocument (JObj geo)) = Ok (JStr primary, None)).
Proof.
  split; [reflexivity|]. split; [reflexivity|].
  split; [|split; [|split; [|split]]].
  - intros geo primary columns meta box Hp Hne Hc Hm Hb.
    destruct primary as [|c p]; [contradiction|].
    unfold load_geo_metadata, json_get, json_get_value. rewrite Hp. simpl.
    rewrite Hc. simpl. rewrite Hm. simpl. rewrite Hb. simpl.
    destruct box; reflexivity.
  - intros geo primary columns meta box Hp Hne Hc Hm Hb Htop.
    destruct primary as [|c p]; [contradiction|].
    unfold load_geo_metadata, json_get, json_get_value. rewrite Hp. simpl.
    rewrite Hc. simpl. rewrite Hm. simpl. rewrite Hb. simpl. rewrite Htop. simpl.
    destruct box; reflexivity.
  - intros geo box Hp Htop. unfold load_geo_metadata, json_get. rewrite Hp. simpl.
    rewrite Htop. simpl. destruct box; reflexivity.
  - intros geo items Hp Htop Hlen. unfold load_geo_metadata, json_get. rewrite Hp. simpl.
    rewrite Htop. simpl default. rewrite (bbox_of_json_other items Hlen). reflexivity.
  - intros geo primary Hp Hne Hc Htop.
    destruct primary as [|c p]; [contradiction|].
    unfold load_geo_metadata, json_get, json_get_value. rewrite Hp. simpl.
    rewrite Hc. simpl. rewrite Htop. reflexivity.
Qed.

End GeoMetadata.

Lemma load_geo_metadata_precedence_witness :
  load_geo_metadata (H := floats_only) (GeoDocument example_geo)
    = Ok (JStr "geometry", Some (box 0 0 1 1)).
Proof.
  apply (proj1 (proj2 (proj2 (load_geo_metadata_precedence (conv := floats_only))))
           _ "geometry"%string
           [("geometry", JObj [("encoding", JStr "WKB"); ("bbox", bbox_json (box 0 0 1 1))])]%string
           [("encoding", JStr "WKB"); ("bbox", bbox_json (box 0 0 1 1))]%string
           (box 0 0 1 1)); try reflexivity.
  discriminate.
Defined.

(** ** The first value of a column *)

(** X25: [read_constant_column] gives nothing for a column the schema does
    not list exactly once, and nothing when the first row group has no
    row, whatever the later row groups hold; otherwise it gives the value
    of the column in the first row of the first row group, a null being
    nothing. *)
Theorem read_constant_column_first_row (pf : ParquetFile) (column_name : string) :
  (count_occ string_dec (schema_names pf) column_name <> 1%nat ->
   read_constant_column pf column_name = None) /\
  (row_groups pf = [] -> read_constant_column pf column_name = None) /\
  (forall rest, row_groups pf = [] :: rest -> read_constant_column pf column_name = None) /\
  (forall row rows rest,
     count_occ string_dec (schema_names pf) column_name = 1%nat ->
     row_groups pf = (row :: rows) :: rest ->
     read_constant_column pf column_name = as_py (default CNull (dict_get column_name row))).
Proof.
  assert (Hidx : forall names i, 0 <= i -> first_index names column_name i <> -1 \/
                                 count_occ string_dec names column_name = 0%nat).
  { induction names as [|n names IH]; intros i Hi; simpl; [right; reflexivity|].
    destruct (String.eqb_spec n column_name) as [->|Hne].
    - left. lia.
    - destruct (string_dec n column_name) as [E|_]; [contradiction|].
      apply IH. lia. }
  unfold read_constant_column, get_field_index.
  split; [|split; [|split]].
  - intros Hc. apply Nat.eqb_neq in Hc. rewrite Hc. reflexivity.
  - intros ->. destruct (_ =? -1); reflexivity.
  - intros rest ->. destruct (_ =? -1); reflexivity.
  - intros row rows rest Hc ->. rewrite Hc. simpl Nat.eqb. cbv iota.
    destruct (Hidx (schema_names pf) 0 ltac:(lia)) as [Hi|Hi]; [|congruence].
    apply Z.eqb_neq in Hi. rewrite Hi. reflexivity.
Qed.

Lemma read_constant_column_first_row_witness :
  read_constant_column example_model_file "source_model" = None.
Proof.
  apply (proj1 (proj2 (proj2 (read_constant_column_first_row example_model_file
                                "source_model"))) _ eq_refl).
Defined.

(** ** The period of the collection *)

Section CollectionPeriod.
Context `{fmt : PyStrftime}.

Lemma format_datetime_truthy (d : datetime) :
  truthy (optional_text (format_datetime (Some d))) = true.
Proof. simpl. destruct (strftime_seconds _); reflexivity. Qed.

Lemma format_datetime_text (d : datetime) :
  optional_text (format_datetime (Some d)) = JStr (strftime_seconds (normalise_utc d) +:+ "Z").
Proof. reflexivity. Qed.

(** X26: in the [period] of the collection a bound given on the command
    line is kept as it is, whatever the temporal extent of the data; a
    bound that was not given is taken from the extent; and with no bound
    from either side no [period] is written. The region is not touched. *)
Theorem collection_period_prefers_overrides (region : option string) (args : Args)
    (start end_ : option datetime) :
  exists fields,
    fill_period (create_collection_extra_fields region args) (start, end_) = Ok fields /\
    (forall s, temporal_start args = Some s ->
       period_bound "start" fields = Some (optional_text (format_datetime (Some s)))) /\
    (forall a, temporal_start args = None -> start = Some a ->
       period_bound "start" fields = Some (optional_text (format_datetime (Some a)))) /\
    (forall e, temporal_end args = Some e ->
       period_bound "end" fields = Some (optional_text (format_datetime (Some e)))) /\
    (forall b, temporal_end args = None -> end_ = Some b ->
       period_bound "end" fields = Some (optional_text (format_datetime (Some b)))) /\
    (temporal_start args = None -> temporal_end args = None -> start = None -> end_ = None ->
     dict_get "period" fields = None) /\
    dict_get "region" fields = dict_get "region" (create_collection_extra_fields region args).
Proof.
  unfold create_collection_extra_fields, fill_period.
  set (fields0 := match region with
                  | Some r => if truthy (JStr r) then [("region", JStr r)] else []
                  | None => []
                  end).
  assert (Hf : fields0 = [] \/ exists r, fields0 = [("region", JStr r)]).
  { unfold fields0. destruct region as [r|]; [|left; reflexivity].
    destruct (truthy (JStr r)); [right; exists r; reflexivity | left; reflexivity]. }
  clearbody fields0.
  assert (Hne : forall d, exists c t,
             strftime_seconds (normalise_utc d) +:+ "Z" = String c t).
  { intros d. destruct (strftime_seconds (normalise_utc d)) as [|c t]; simpl; eauto. }
  destruct (temporal_start args) as [s|], (temporal_end args) as [e|],
           start as [a|], end_ as [b|];
    try destruct (Hne s) as (cs & ts & Hs);
    try destruct (Hne e) as (ce & te & He);
    try destruct (Hne a) as (ca & ta & Ha);
    try destruct (Hne b) as (cb & tb & Hb);
    destruct Hf as [-> | [r ->]];
    cbn [format_datetime optional_text];
    rewrite ?Hs, ?He, ?Ha, ?Hb; simpl;
    eexists; (split; [reflexivity|]);
    repeat split; try (intros; congruence); intros; simplify_eq;
    cbn [format_datetime optional_text]; rewrite ?Hs, ?He, ?Ha, ?Hb; reflexivity.
Qed.

End CollectionPeriod.

Lemma collection_period_prefers_overrides_witness :
  exists fields,
    fill_period (H := example_strftime)
      (create_collection_extra_fields (H := example_strftime) (Some "galicia")
         (mkArgs false false false (Some (mkDatetime 0 utc)) None None))
      (Some (mkDatetime (-5) utc), Some (mkDatetime 7 utc)) = Ok fields /\
    period_bound "start" fields = Some (JStr "1970-01-01T00:00:00Z") /\
    period_bound "end" fields = Some (JStr "2025-01-02T03:00:00Z").
Proof.
  destruct (collection_period_prefers_overrides (fmt := example_strftime) (Some "galicia")
              (mkArgs false false false (Some (mkDatetime 0 utc)) None None)
              (Some (mkDatetime (-5) utc)) (Some (mkDatetime 7 utc)))
    as (fields & E & Hs & _ & _ & He & _).
  exists fields. split; [exact E|]. split.
  - apply (Hs (mkDatetime 0 utc)). reflexivity.
  - apply (He (mkDatetime 7 utc)); reflexivity.
Defined.

(** ** The links of the saved documents *)

Section SavedLinks.

Lemma without_self_loop (links kept : list json) :
  Forall (fun link => is_dict link = true) links ->
  for_each (fun kept link =>
              rel ← json_get "rel" JNull link;
              if is_text rel "self" then Ok kept else Ok (kept ++ [link]))
           links kept
    = Ok (kept ++ List.filter not_self links).
Proof.
  intros Hd. revert kept. induction Hd as [|link links Hl _ IH]; intros kept; simpl.
  - rewrite app_nil_r. reflexivity.
  - destruct link as [| | | | | |members]; try discriminate Hl.
    unfold not_self at 1. simpl.
    destruct (is_text (default JNull (dict_get "rel" members)) "self"); simpl.
    + apply IH.
    + rewrite IH, <- app_assoc. reflexivity.
Qed.

Lemma without_self_raises (links kept : list json) :
  Exists (fun link => is_dict link = false) links ->
  for_each (fun kept link =>
              rel ← json_get "rel" JNull link;
              if is_text rel "self" then Ok kept else Ok (kept ++ [link]))
           links kept
    = Raise "AttributeError".
Proof.
  revert kept. induction links as [|link links IH]; intros kept He.
  - inversion He.
  - simpl. destruct link as [| | | | | |members]; try reflexivity.
    simpl. inversion He as [? ? Hl | ? ? Hr]; subst; [discriminate Hl|].
    destruct (is_text _ "self"); simpl; apply IH; exact Hr.
Qed.

Lemma filter_full_length {A : Type} (f : A -> bool) (l : list A) :
  length (List.filter f l) = length l -> List.filter f l = l.
Proof.
  induction l as [|x l IH]; simpl; [reflexivity|].
  destruct (f x); simpl; intros H.
  - f_equal. apply IH. lia.
  - pose proof (List.filter_length_le f l). lia.
Qed.

Lemma filter_filter_same {A : Type} (f : A -> bool) (l : list A) :
  List.filter f (List.filter f l) = List.filter f l.
Proof.
  induction l as [|x l IH]; simpl; [reflexivity|].
  destruct (f x) eqn:E; simpl; [rewrite E, IH|]; auto.
Qed.

Lemma Forall_filter_dict (f : json -> bool) (links : list json) :
  Forall (fun link => is_dict link = true) links ->
  Forall (fun link => is_dict link = true) (List.filter f links).
Proof.
  induction 1 as [|x l Hx _ IH]; simpl; [constructor|].
  destruct (f x); [constructor|]; assumption.
Qed.

(** The clean-up on a document whose links are dictionaries. *)
Lemma strip_self_links_dicts (members : dict json) (links : list json) :
  dict_get "links" members = Some (JArr links) ->
  Forall (fun link => is_dict link = true) links ->
  strip_self_links (JObj members)
    = Ok (JObj (dict_set "links" (JArr (List.filter not_self links)) members)).
Proof.
  intros Hl Hd. unfold strip_self_links.
  assert (Ht : truthy (JObj members) = true).
  { destruct members; [discriminate Hl | reflexivity]. }
  rewrite Ht. simpl negb. cbv iota. unfold py_in.
  assert (Hm : dict_mem "links" members = true) by (apply dict_mem_get; eauto).
  rewrite Hm. simpl. rewrite Hl. simpl. unfold without_self.
  rewrite (without_self_loop links [] Hd). simpl.
  destruct (Nat.eqb_spec (length (List.filter not_self links)) (length links)) as [E|E]; simpl.
  - rewrite (filter_full_length _ _ E), (dict_set_same _ _ _ Hl). reflexivity.
  - reflexivity.
Qed.

(** X27: the clean-up of the saved [collection.json], whose links are
    dictionaries, leaves exactly the links whose [rel] is not [self], in
    their order, and changes no other member of the document; cleaning a
    cleaned document changes nothing. A link that is not a dictionary is
    an [AttributeError], and a document that is missing or has no links
    is left as it is. *)
Theorem strip_self_links_spec (members : dict json) (links : list json) :
  dict_get "links" members = Some (JArr links) ->
  (Forall (fun link => is_dict link = true) links ->
   exists cleaned,
     strip_self_links (JObj members) = Ok (JObj cleaned) /\
     dict_get "links" cleaned
       = Some (JArr (List.filter not_self links)) /\
     (forall key, key <> "links"%string -> dict_get key cleaned = dict_get key members) /\
     dict_keys cleaned = dict_keys members /\
     strip_self_links (JObj cleaned) = Ok (JObj cleaned)) /\
  (Exists (fun link => is_dict link = false) links ->
   strip_self_links (JObj members) = Raise "AttributeError") /\
  strip_self_links JNull = Ok JNull /\
  (forall other, dict_get "links" other = None ->
                 strip_self_links (JObj other) = Ok (JObj other)).
Proof.
  intros Hl. split; [|split; [|split]].
  - intros Hd. eexists. split; [apply (strip_self_links_dicts members links Hl Hd)|].
    split; [apply dict_get_set_eq|].
    split; [intros key Hk; apply dict_get_set_ne; congruence|].
    split.
    + rewrite dict_keys_set.
      replace (dict_mem "links" members) with true; [reflexivity|].
      symmetry. apply dict_mem_get. eauto.
    + rewrite (strip_self_links_dicts _ (List.filter not_self links)).
      * rewrite filter_filter_same. f_equal. f_equal. apply dict_set_same, dict_get_set_eq.
      * apply dict_get_set_eq.
      * apply Forall_filter_dict, Hd.
  - intros He. unfold strip_self_links.
    assert (Ht : truthy (JObj members) = true).
    { destruct members; [discriminate Hl | reflexivity]. }
    rewrite Ht. simpl negb. cbv iota. unfold py_in.
    assert (Hm : dict_mem "links" members = true) by (apply dict_mem_get; eauto).
    rewrite Hm. simpl. rewrite Hl. simpl. unfold without_self.
    rewrite (without_self_raises links [] He). reflexivity.
  - reflexivity.
  - intros other Hn. unfold strip_self_links.
    destruct (truthy (JObj other)); [|reflexivity]. simpl.
    apply dict_mem_none in Hn. rewrite Hn. reflexivity.
Qed.

End SavedLinks.

Lemma strip_self_links_spec_witness :
  exists cleaned,
    strip_self_links example_collection_document = Ok (JObj cleaned) /\
    dict_get "links" cleaned
      = Some (JArr [JObj [("rel", JStr "root"); ("href", JStr "./collection.json")];
                    JObj [("rel", JStr "child");
                          ("href", JStr "./winds-parquet/catalog.json")]]).
Proof.
  destruct (proj1 (strip_self_links_spec
                     [("type", JStr "Collection"); ("id", JStr "winds");
                      ("links", JArr example_links)]%string
                     example_links eq_refl))
    as (cleaned & E & Hl & _).
  - repeat constructor.
  - exists cleaned. split; [exact E|]. exact Hl.
Defined.

(** ** The links of the moved sub-catalogs *)

Section MovedLinks.

(** A loop that collects one result for each element. *)
Lemma for_each_collect {A B : Type} (f : A -> outcome B) (g : A -> B) (l : list A)
    (done : list B) :
  Forall (fun x => f x = Ok (g x)) l ->
  for_each (fun done x => y ← f x; Ok (done ++ [y])) l done = Ok (done ++ (g <$> l)).
Proof.
  intros H. revert done. induction H as [|x l Hx _ IH]; intros done; simpl.
  - rewrite app_nil_r. reflexivity.
  - rewrite Hx. simpl. rewrite IH, <- app_assoc. reflexivity.
Qed.

Lemma Forall2_fmap_same {A B : Type} (R : A -> B -> Prop) (g : A -> B) (l : list A) :
  Forall (fun x => R x (g x)) l -> Forall2 R l (g <$> l).
Proof. induction 1; simpl; constructor; assumption. Qed.

Lemma dict_set_twice {V : Type} (k : string) (v w : V) (d : dict V) :
  dict_set k v (dict_set k w d) = dict_set k v d.
Proof.
  induction d as [|[k' v'] d IH]; simpl.
  - rewrite String.eqb_refl. reflexivity.
  - destruct (String.eqb k' k) eqn:E; simpl; rewrite E; [reflexivity|]. rewrite IH. reflexivity.
Qed.

(** The link of the moved catalog after its round of the loop. *)
Local Abbreviation moved_link link :=
  (match link with
   | JObj members =>
       if is_text (link_rel link) "self"
       then JObj (dict_set "href" (JStr "catalog.json") members)
       else if is_text (link_rel link) "parent" || is_text (link_rel link) "root"
            then JObj (dict_set "href" (JStr "../../collection.json") members)
            else link
   | _ => link
   end).

Lemma relocate_link_dict (link : json) :
  is_dict link = true -> relocate_link link = Ok (moved_link link).
Proof.
  destruct link as [| | | | | |members]; try discriminate. intros _.
  unfold relocate_link. simpl.
  destruct (is_text _ "self"); [reflexivity|].
  destruct (is_text _ "parent"); [reflexivity|].
  destruct (is_text _ "root"); reflexivity.
Qed.

Lemma moved_link_rel (link : json) : link_rel (moved_link link) = link_rel link.
Proof.
  destruct link as [| | | | | |members]; try reflexivity. simpl.
  destruct (is_text _ "self"); [simpl; rewrite dict_get_set_ne by discriminate; reflexivity|].
  destruct (_ || _); [simpl; rewrite dict_get_set_ne by discriminate|]; reflexivity.
Qed.

Lemma moved_link_again (link : json) : moved_link (moved_link link) = moved_link link.
Proof.
  destruct link as [| | | | | |members]; try reflexivity. simpl.
  destruct (is_text _ "self") eqn:Es.
  - simpl. rewrite dict_get_set_ne by discriminate. rewrite Es, dict_set_twice. reflexivity.
  - destruct (_ || _) eqn:Ep.
    + simpl. rewrite dict_get_set_ne by discriminate. rewrite Es, Ep, dict_set_twice.
      reflexivity.
    + simpl. rewrite Es, Ep. reflexivity.
Qed.

(** X28: the loop over the links of a moved [catalog.json], all of them
    dictionaries, gives every [self] link the href [catalog.json] and
    every [parent] or [root] link the href [../../collection.json]; it
    changes nothing else of a link and no other link, keeps the number
    and the order of the links, and run again it changes nothing. *)
Theorem relocate_links_spec (links : list json) :
  Forall (fun link => is_dict link = true) links ->
  exists moved,
    relocate_links links = Ok moved /\
    Forall2 (fun link link' =>
               (forall key, key <> "href"%string ->
                            link_field key link' = link_field key link) /\
               (is_text (link_rel link) "self" = true ->
                link_field "href" link' = Some (JStr "catalog.json")) /\
               (is_text (link_rel link) "parent" = true \/
                is_text (link_rel link) "root" = true ->
                link_field "href" link' = Some (JStr "../../collection.json")) /\
               (is_text (link_rel link) "self" = false ->
                is_text (link_rel link) "parent" = false ->
                is_text (link_rel link) "root" = false -> link' = link))
            links moved /\
    relocate_links moved = Ok moved.
Proof.
  intros Hd. exists ((fun link => moved_link link) <$> links).
  unfold relocate_links. split; [|split].
  - apply (for_each_collect relocate_link (fun link => moved_link link) links []).
    eapply Forall_impl; [exact Hd|]. intros link Hl. apply relocate_link_dict, Hl.
  - apply Forall2_fmap_same. eapply Forall_impl; [exact Hd|]. intros link Hl.
    destruct link as [| | | | | |members]; try discriminate Hl. simpl.
    set (rel := default JNull (dict_get "rel" members)).
    destruct (is_text rel "self") eqn:Es; [|destruct (is_text rel "parent") eqn:Ep;
                                            [|destruct (is_text rel "root") eqn:Er]]; simpl.
    + split; [intros key Hk; apply dict_get_set_ne; congruence|].
      split; [intros _; apply dict_get_set_eq|].
      split; [|discriminate].
      intros [H|H]; destruct rel; try discriminate; simpl in *;
        apply String.eqb_eq in Es; subst; discriminate.
    + split; [intros key Hk; apply dict_get_set_ne; congruence|].
      split; [discriminate|]. split; [intros _; apply dict_get_set_eq | discriminate].
    + split; [intros key Hk; apply dict_get_set_ne; congruence|].
      split; [discriminate|]. split; [intros _; apply dict_get_set_eq | discriminate].
    + split; [reflexivity|]. split; [discriminate|].
      split; [intros [H|H]; discriminate | reflexivity].
  - rewrite (for_each_collect relocate_link (fun link => moved_link link) _ []).
    + simpl. f_equal. rewrite <- list_fmap_compose. apply list_fmap_ext.
      intros i link _. simpl. apply moved_link_again.
    + apply Forall_fmap. eapply Forall_impl; [exact Hd|]. intros link Hl. simpl.
      rewrite relocate_link_dict.
      * rewrite moved_link_again. reflexivity.
      * destruct link as [| | | | | |members]; try discriminate Hl. simpl.
        destruct (is_text _ "self"); [reflexivity|]. destruct (_ || _); reflexivity.
Qed.

End MovedLinks.

Lemma relocate_links_spec_witness :
  exists moved,
    relocate_links example_catalog_links = Ok moved /\
    (link_field "href" <$> moved)
      = [Some (JStr "../../collection.json"); Some (JStr "catalog.json");
         Some (JStr "../../collection.json");
         Some (JStr "./20250102T03/20250102T03.json")].
Proof.
  destruct (relocate_links_spec example_catalog_links) as (moved & E & _).
  - repeat constructor.
  - exists moved. split; [exact E|].
    vm_compute in E. injection E as <-. reflexivity.
Defined.

Section ChildLinks.

Lemma append_inv_head (p a b : string) : p +:+ a = p +:+ b -> a = b.
Proof. induction p as [|c p IH]; simpl; intros H; [exact H|]. apply IH. congruence. Qed.

(** The href [collection.json] has for the sub-catalog of a kind before
    the move, and the one it has after it. *)
Local Abbreviation old_href collection_id kind :=
  ("./" +:+ (collection_id +:+ "-" +:+ kind) +:+ "/catalog.json").
Local Abbreviation new_href kind := ("./" +:+ ("items/" +:+ kind +:+ "/catalog.json")).

Lemma old_href_inj (collection_id k k' : string) :
  k ∈ sub_catalogs -> k' ∈ sub_catalogs ->
  old_href collection_id k = old_href collection_id k' -> k = k'.
Proof.
  intros Hk Hk' H. simpl in H. injection H as H.
  rewrite !append_assoc in H. apply append_inv_head in H.
  unfold sub_catalogs in *.
  repeat (apply elem_of_cons in Hk as [->|Hk]); [| | |inversion Hk];
    repeat (apply elem_of_cons in Hk' as [->|Hk']); try inversion Hk';
    try reflexivity; discriminate H.
Qed.

(** A href written by a move is not the old href of any sub-catalog,
    whatever the identifier of the collection. *)
Lemma new_href_not_old (collection_id k k' : string) :
  k ∈ sub_catalogs -> k' ∈ sub_catalogs ->
  String.eqb (new_href k) (old_href collection_id k') = false.
Proof.
  intros Hk Hk'. apply String.eqb_neq. intros H.
  simpl in H. injection H as H. rewrite !append_assoc in H.
  pose proof (f_equal String.length H) as Hlen. rewrite !length_append in Hlen.
  unfold sub_catalogs in *.
  repeat (apply elem_of_cons in Hk as [->|Hk]); [| | |inversion Hk];
    repeat (apply elem_of_cons in Hk' as [->|Hk']); try inversion Hk';
    simpl in Hlen;
    do 10 (destruct collection_id as [|? collection_id];
           [simpl in H; discriminate H | simpl in Hlen]);
    lia.
Qed.

(** The link of [collection.json] after the round of one sub-catalog. *)
Local Abbreviation child_link child_id rel_href link :=
  (match link with
   | JObj members =>
       if is_text (link_rel link) "child" &&
          is_text (default JNull (dict_get "href" members))
                  ("./" +:+ child_id +:+ "/catalog.json")
       then JObj (dict_set "href" (JStr ("./" +:+ rel_href)) members)
       else link
   | _ => link
   end).

Lemma relocate_child_link_dict (child_id rel_href : string) (link : json) :
  is_dict link = true ->
  relocate_child_link child_id rel_href link = Ok (child_link child_id rel_href link).
Proof.
  destruct link as [| | | | | |members]; try discriminate. intros _.
  unfold relocate_child_link. simpl.
  destruct (is_text _ "child"); [|reflexivity]. simpl.
  destruct (is_text _ _); reflexivity.
Qed.

Lemma child_link_dict (child_id rel_href : string) (link : json) :
  is_dict link = true -> is_dict (child_link child_id rel_href link) = true.
Proof.
  destruct link as [| | | | | |members]; try discriminate. intros _.
  destruct (_ && _); reflexivity.
Qed.

Lemma relocate_child_links_dicts (child_id rel_href : string) (links : list json) :
  Forall (fun link => is_dict link = true) links ->
  relocate_child_links child_id rel_href links
    = Ok ((fun link => child_link child_id rel_href link) <$> links).
Proof.
  intros Hd. unfold relocate_child_links.
  apply (for_each_collect (relocate_child_link child_id rel_href)
           (fun link => child_link child_id rel_href link) links []).
  eapply Forall_impl; [exact Hd|]. intros link Hl. apply relocate_child_link_dict, Hl.
Qed.

(** The round of a sub-catalog on a link an earlier round has moved, and
    on a link that is not its own. *)
Lemma child_link_moved (collection_id k k' : string) (members : dict json) :
  k ∈ sub_catalogs -> k' ∈ sub_catalogs ->
  child_link (collection_id +:+ "-" +:+ k') ("items/" +:+ k' +:+ "/catalog.json")
             (JObj (dict_set "href" (JStr (new_href k)) members))
    = JObj (dict_set "href" (JStr (new_href k)) members).
Proof.
  intros Hk Hk'. cbv beta iota.
  rewrite dict_get_set_eq. cbn [default from_option id is_text].
  rewrite (new_href_not_old collection_id k k' Hk Hk'), andb_false_r. reflexivity.
Qed.

Lemma is_text_get (key text : string) (members : dict json) :
  is_text (default JNull (dict_get key members)) text = true <->
  dict_get key members = Some (JStr text).
Proof.
  destruct (dict_get key members) as [[| | | |s| |]|]; simpl; split; try discriminate.
  - intros H. apply String.eqb_eq in H. subst. reflexivity.
  - intros [= ->]. apply String.eqb_refl.
Qed.

(** The link of [collection.json] after the call for one sub-catalog. *)
Local Abbreviation round collection_id src_dir_exists kind link :=
  (if src_dir_exists (collection_id +:+ "-" +:+ kind) : bool
   then child_link (collection_id +:+ "-" +:+ kind) ("items/" +:+ kind +:+ "/catalog.json") link
   else link).

Lemma round_dict (collection_id : string) (src_dir_exists : string -> bool) (kind : string)
    (link : json) :
  is_dict link = true -> is_dict (round collection_id src_dir_exists kind link) = true.
Proof.
  intros Hl. destruct (src_dir_exists _); [|exact Hl].
  apply (child_link_dict _ _ link Hl).
Qed.

Lemma relocate_subcatalogs_rounds (collection_id : string) (src_dir_exists : string -> bool)
    (links : list json) :
  Forall (fun link => is_dict link = true) links ->
  relocate_subcatalogs collection_id src_dir_exists links
    = Ok ((fun link =>
             fold_left (fun link kind => round collection_id src_dir_exists kind link)
                       sub_catalogs link) <$> links).
Proof.
  intros Hd. unfold relocate_subcatalogs.
  generalize sub_catalogs as kinds. intros kinds. revert links Hd.
  induction kinds as [|kind kinds IH]; intros links Hd; cbn [for_each fold_left].
  - rewrite list_fmap_id. reflexivity.
  - destruct (src_dir_exists (collection_id +:+ "-" +:+ kind)) eqn:Ex.
    + rewrite (relocate_child_links_dicts _ _ links Hd), bind_Ok_l.
      rewrite IH.
      * rewrite <- list_fmap_compose. reflexivity.
      * apply Forall_fmap. eapply Forall_impl; [exact Hd|]. intros link Hl.
        apply (child_link_dict _ _ link Hl).
    + rewrite bind_Ok_l, (IH links Hd). reflexivity.
Qed.

(** A link a call has moved is left alone by the calls after it. *)
Lemma rounds_moved (collection_id : string) (src_dir_exists : string -> bool)
    (k : string) (kinds : list string) (members : dict json) :
  k ∈ sub_catalogs -> Forall (fun k' => k' ∈ sub_catalogs) kinds ->
  fold_left (fun link kind => round collection_id src_dir_exists kind link) kinds
            (JObj (dict_set "href" (JStr (new_href k)) members))
    = JObj (dict_set "href" (JStr (new_href k)) members).
Proof.
  intros Hk Hkinds. induction Hkinds as [|k' kinds Hk' _ IH]; cbn [fold_left]; [reflexivity|].
  destruct (src_dir_exists _); [|exact IH].
  rewrite (child_link_moved collection_id k k' members Hk Hk'). exact IH.
Qed.

(** The calls for a list of sub-catalogs on one link: the first call
    that finds its href moves the link, and no other call changes it. *)
Lemma rounds_cases (collection_id : string) (src_dir_exists : string -> bool)
    (kinds : list string) (members : dict json) :
  Forall (fun k => k ∈ sub_catalogs) kinds ->
  (exists k, k ∈ kinds /\ src_dir_exists (collection_id +:+ "-" +:+ k) = true /\
             is_text (link_rel (JObj members)) "child" = true /\
             dict_get "href" members = Some (JStr (old_href collection_id k)) /\
             fold_left (fun link kind => round collection_id src_dir_exists kind link) kinds
                       (JObj members)
               = JObj (dict_set "href" (JStr (new_href k)) members)) \/
  ((forall k, k ∈ kinds -> src_dir_exists (collection_id +:+ "-" +:+ k) = true ->
              is_text (link_rel (JObj members)) "child" = true ->
              dict_get "href" members <> Some (JStr (old_href collection_id k))) /\
   fold_left (fun link kind => round collection_id src_dir_exists kind link) kinds
             (JObj members) = JObj members).
Proof.
  induction 1 as [|k kinds Hk Hkinds IH].
  - right. split; [|reflexivity]. intros k Hk. inversion Hk.
  - cbn [fold_left].
    destruct (src_dir_exists (collection_id +:+ "-" +:+ k)) eqn:Ex.
    + cbv beta iota.
      destruct (is_text (link_rel (JObj members)) "child") eqn:Ec.
      * destruct (is_text (default JNull (dict_get "href" members))
                          ("./" +:+ (collection_id +:+ "-" +:+ k) +:+ "/catalog.json")) eqn:Eh.
        -- left. exists k. split; [apply list_elem_of_here|].
           split; [exact Ex|]. split; [reflexivity|].
           split; [apply is_text_get; exact Eh|].
           simpl andb. cbv iota. apply (rounds_moved _ _ k kinds members Hk Hkinds).
        -- simpl andb. cbv iota.
           destruct IH as [(k' & Hin & Hex & Hc & Hh & Hr) | (Hno & Hr)].
           ++ left. exists k'. split; [apply list_elem_of_further; exact Hin|]. auto.
           ++ right. split; [|exact Hr]. intros k' Hin Hex _ Hh.
              apply elem_of_cons in Hin as [->|Hin].
              ** apply is_text_get in Hh. congruence.
              ** apply (Hno k' Hin Hex eq_refl Hh).
      * simpl andb. cbv iota. right.
        destruct IH as [(k' & _ & _ & Hc & _) | (_ & Hr)]; [discriminate Hc|].
        split; [|exact Hr]. intros k' _ _ Hc. discriminate Hc.
    + destruct IH as [(k' & Hin & Hex & Hc & Hh & Hr) | (Hno & Hr)].
      * left. exists k'. split; [apply list_elem_of_further; exact Hin|]. auto.
      * right. split; [|exact Hr]. intros k' Hin Hex Hc Hh.
        apply elem_of_cons in Hin as [->|Hin]; [congruence|].
        apply (Hno k' Hin Hex Hc Hh).
Qed.

(** X29: the three calls of [relocate_subcatalog] give the child link of
    every sub-catalog whose directory was there its href under
    [items/], whatever the identifier of the collection; a link one call
    has moved is not taken for the link of another call; nothing but the
    href of such a link changes, and every other link stays as it is. *)
Theorem relocate_subcatalogs_spec (collection_id : string) (src_dir_exists : string -> bool)
    (links : list json) :
  Forall (fun link => is_dict link = true) links ->
  exists moved,
    relocate_subcatalogs collection_id src_dir_exists links = Ok moved /\
    Forall2 (fun link link' =>
               (forall key, key <> "href"%string ->
                            link_field key link' = link_field key link) /\
               (forall kind, kind ∈ sub_catalogs ->
                  src_dir_exists (collection_id +:+ "-" +:+ kind) = true ->
                  is_text (link_rel link) "child" = true ->
                  link_field "href" link
                    = Some (JStr ("./" +:+ (collection_id +:+ "-" +:+ kind) +:+ "/catalog.json")) ->
                  link_field "href" link'
                    = Some (JStr ("./items/" +:+ kind +:+ "/catalog.json"))) /\
               ((forall kind, kind ∈ sub_catalogs ->
                   src_dir_exists (collection_id +:+ "-" +:+ kind) = true ->
                   is_text (link_rel link) "child" = true ->
                   link_field "href" link
                     <> Some (JStr ("./" +:+ (collection_id +:+ "-" +:+ kind)
                                    +:+ "/catalog.json"))) ->
                link' = link))
            links moved.
Proof.
  intros Hd. eexists. split; [apply (relocate_subcatalogs_rounds _ _ links Hd)|].
  apply Forall2_fmap_same. eapply Forall_impl; [exact Hd|]. intros link Hl.
  destruct link as [| | | | | |members]; try discriminate Hl.
  assert (Hall : Forall (fun k => k ∈ sub_catalogs) sub_catalogs).
  { apply Forall_forall. auto. }
  destruct (rounds_cases collection_id src_dir_exists sub_catalogs members Hall)
    as [(k & Hin & Hex & Hc & Hh & Hr) | (Hno & Hr)]; rewrite Hr.
  - split; [intros key Hk; apply dict_get_set_ne; congruence|]. split.
    + intros kind Hkind _ _ Hk. cbn [link_field] in *.
      assert (Hsame : old_href collection_id k = old_href collection_id kind) by congruence.
      apply (old_href_inj collection_id k kind Hin Hkind) in Hsame. subst kind.
      apply dict_get_set_eq.
    + intros Hnone. exfalso. apply (Hnone k Hin Hex Hc). exact Hh.
  - split; [reflexivity|]. split; [|reflexivity].
    intros kind Hkind Hex Hc Hk. exfalso. apply (Hno kind Hkind Hex Hc Hk).
Qed.

End ChildLinks.

Lemma relocate_subcatalogs_spec_witness :
  exists moved,
    relocate_subcatalogs "winds" (fun _ => true) example_links = Ok moved /\
    (link_field "href" <$> moved)
      = [Some (JStr "./collection.json"); Some (JStr "/out/collection.json");
         Some (JStr "./items/parquet/catalog.json")].
Proof.
  destruct (relocate_subcatalogs_spec "winds" (fun _ => true) example_links)
    as (moved & E & _).
  - repeat constructor.
  - exists moved. split; [exact E|].
    vm_compute in E. injection E as <-. reflexivity.
Defined.

(** ** The source models of the collection *)

Section SourceModels.
Context `{lib : Library}.

Lemma strictly_sorted_nodup (names : list string) :
  keys_sorted names = true -> NoDup names -> strictly_sorted names = true.
Proof.
  induction names as [|a names IH]; [reflexivity|].
  intros Hs Hn. apply NoDup_cons in Hn as [Ha Hn].
  cbn [keys_sorted strictly_sorted] in *. apply andb_true_iff in Hs as [Hab Hs].
  rewrite (IH Hs Hn), andb_true_r.
  destruct names as [|b names]; [reflexivity|].
  apply string_leb_lt in Hab as [Hlt | ->].
  - unfold String.ltb. rewrite Hlt. reflexivity.
  - exfalso. apply Ha, list_elem_of_here.
Qed.

Lemma sorted_models_spec (models : gset string) :
  strictly_sorted (sorted_models models) = true /\
  forall name, name ∈ sorted_models models <-> name ∈ models.
Proof.
  unfold sorted_models.
  destruct (sort_by_spec (fun model : string => model) (elements models)) as (Hp & Hs & _).
  rewrite list_fmap_id in Hs. split.
  - apply strictly_sorted_nodup; [exact Hs|]. rewrite Hp. apply NoDup_elements.
  - intros name. rewrite Hp. apply elem_of_elements.
Qed.

(** X30: when a run has discovered a source model, the [source_models]
    of the collection become a list of strings in strictly growing
    order, so without repetition, that holds exactly the discovered
    models and the text of every entry the field held as a list before;
    no other field changes. When a run has discovered none, the fields
    stay as they are. *)
Theorem store_source_models_sorted (extra_fields : dict json) (discovered : gset string) :
  (discovered <> ∅ ->
   exists names,
     store_source_models extra_fields discovered
       = dict_set "source_models" (JArr (JStr <$> names)) extra_fields /\
     strictly_sorted names = true /\
     (forall name,
        name ∈ names <->
        name ∈ discovered \/
        exists existing value,
          dict_get "source_models" extra_fields = Some (JArr existing) /\
          value ∈ existing /\ name = py_str value) /\
     (forall key, key <> "source_models"%string ->
        dict_get key (store_source_models extra_fields discovered)
          = dict_get key extra_fields)) /\
  store_source_models extra_fields ∅ = extra_fields.
Proof.
  split.
  - intros Hne. unfold store_source_models.
    rewrite bool_decide_eq_false_2 by exact Hne.
    set (existing_models := match dict_get "source_models" extra_fields with
                            | Some (JArr existing) => list_to_set (py_str <$> existing)
                            | _ => ∅
                            end : gset string).
    destruct (sorted_models_spec (discovered ∪ existing_models)) as [Hs Hin].
    exists (sorted_models (discovered ∪ existing_models)).
    split; [reflexivity|]. split; [exact Hs|]. split.
    + intros name. rewrite Hin, elem_of_union. apply or_iff_compat_l.
      unfold existing_models.
      destruct (dict_get "source_models" extra_fields) as [[| | | | |existing|]|];
        try (split; [intros H; apply elem_of_empty in H; contradiction
                    | intros (e & v & [=] & _)]).
      rewrite elem_of_list_to_set, list_elem_of_fmap. split.
      * intros (v & -> & Hv). exists existing, v. auto.
      * intros (e & v & [= <-] & Hv & ->). exists v. auto.
    + intros key Hk. apply dict_get_set_ne. congruence.
  - unfold store_source_models. rewrite bool_decide_eq_true_2; reflexivity.
Qed.

End SourceModels.

Lemma store_source_models_sorted_witness :
  exists names,
    store_source_models (H := example_library)
        [("region", JStr "galicia"); ("source_models", JArr [JStr "wrf"; JStr "gfs"])]
        {["wrf"; "arome"]}
      = [("region", JStr "galicia"); ("source_models", JArr (JStr <$> names))] /\
    strictly_sorted names = true.
Proof.
  destruct (proj1 (store_source_models_sorted (lib := example_library)
                     [("region", JStr "galicia");
                      ("source_models", JArr [JStr "wrf"; JStr "gfs"])]%string
                     {["wrf"; "arome"]}))
    as (names & E & Hs & _).
  - intros H. apply (f_equal (fun models : gset string => bool_decide ("wrf"%string ∈ models))) in H.
    vm_compute in H. discriminate H.
  - exists names. split; [exact E | exact Hs].
Defined.
